(** * Community-policing records API: aggregate writes, error taxonomy, login

    A shallow embedding of the write path of the cases module
    ([src/modules/cases/service.js]), of the nine-small-places module
    ([src/modules/nineSmall/service.js]), of the error taxonomy
    ([src/utils/errors.js], [src/middleware/errorHandler.js]), of the
    transaction wrapper ([src/config/db.js]) and of the login / register
    services ([src/modules/auth/service.js], [src/modules/officers/service.js]).

    JavaScript objects are finite maps from property names to values,
    asynchronous functions that may throw are computations in a state and
    error monad over the database, and the MySQL driver is a small engine
    with a committed store, a pending transaction and a schedule of injected
    driver failures. *)

From Stdlib Require Import ZArith String List Bool Lia.
From stdpp Require Import base option list gmap strings fin_maps.

Local Open Scope Z_scope.
Local Open Scope string_scope.

(* ===================================================================== *)
(** ** JavaScript values *)
(* ===================================================================== *)

Module Js.

(** The primitive values that travel in request payloads and in rows
    returned by the driver (which runs with [dateStrings: true], so dates
    are strings).  Numbers are the integers of ids. *)
Inductive JsVal : Type :=
| JUndefined
| JNull
| JBool (b : bool)
| JNum (n : Z)
| JStr (s : string).

#[global] Instance JsVal_eq_dec : EqDecision JsVal.
Proof. solve_decision. Defined.

(** [o.k]: reading a property that the object lacks gives [undefined]. *)
Definition prop (o : gmap string JsVal) (k : string) : JsVal :=
  default JUndefined (o !! k).

(** ToBoolean. *)
Definition truthy (v : JsVal) : bool :=
  match v with
  | JUndefined | JNull => false
  | JBool b => b
  | JNum n => negb (Z.eqb n 0)
  | JStr s => negb (String.eqb s EmptyString)
  end.

(** [a || b] *)
Definition or_else (a b : JsVal) : JsVal := if truthy a then a else b.

(** [value === null || typeof value === 'undefined'] *)
Definition isNil (value : JsVal) : bool :=
  match value with
  | JUndefined | JNull => true
  | _ => false
  end.

(** [a ?? b] *)
Definition coalesce (a b : JsVal) : JsVal := if isNil a then b else a.

(** [a === b] on primitives. *)
Definition strict_eq (a b : JsVal) : bool := bool_decide (a = b).

(** [a < b] where both operands are strings (code-unit order) or both are
    numbers; the services only compare [YYYY-MM-DD] strings. *)
Definition less_than (a b : JsVal) : bool :=
  match a, b with
  | JStr s, JStr t => String.ltb s t
  | JNum n, JNum m => Z.ltb n m
  | _, _ => false
  end.

(** [s.includes(t)] *)
Fixpoint includes (s t : string) : bool :=
  String.prefix t s ||
  match s with
  | EmptyString => false
  | String _ s' => includes s' t
  end.

(** Spread of two objects, [{...a, ...b}]: the properties of [b] win. *)
Definition spread (a b : gmap string JsVal) : gmap string JsVal := b ∪ a.

(** An object literal, given as its list of properties in source order. *)
Definition object (props : list (string * JsVal)) : gmap string JsVal :=
  list_to_map (reverse props).

End Js.
Export Js.

(* ===================================================================== *)
(** ** src/utils/errors.js *)
(* ===================================================================== *)

Module Errors.

Inductive ErrorCode : Type :=
| UNAUTHORIZED
| FORBIDDEN
| VALIDATION_ERROR
| NOT_FOUND
| CONFLICT
| DB_ERROR
| INTERNAL_ERROR.

#[global] Instance ErrorCode_eq_dec : EqDecision ErrorCode.
Proof. solve_decision. Defined.

Definition DEFAULT_STATUS_BY_CODE (c : ErrorCode) : Z :=
  match c with
  | UNAUTHORIZED => 401
  | FORBIDDEN => 403
  | VALIDATION_ERROR => 400
  | NOT_FOUND => 404
  | CONFLICT => 409
  | DB_ERROR => 500
  | INTERNAL_ERROR => 500
  end.

(** One entry of a Joi error's [details] array. *)
Record JoiDetail : Type := {
  path : list string;
  joi_message : string;
}.

(** An error object that is not an [AppError]: a driver error (with
    [code], [sqlMessage]), a Joi or JWT error, or any other exception. *)
Record RawError : Type := {
  raw_name : string;
  raw_message : string;
  raw_stack : string;
  code : option string;
  sqlMessage : option string;
  isJoi : bool;
  joi_details : option (list JoiDetail);
}.

(** The shapes of [details] that the services attach to an [AppError]. *)
Inductive Details : Type :=
| FieldErrors (fieldErrors : gmap string JsVal)
| FieldErrorsUndefined
| RawSql (raw : JsVal)
| OriginalMessage (original : string)
| OriginalError (original : option RawError).

(** The [stack] that the engine captures when [new AppError(...)] runs:
    a header with the message, then the frames of the place of
    construction, which are left out. *)
Inductive Stack : Type :=
| CapturedWith (header : string).

Record AppError : Type := {
  errorCode : ErrorCode;
  message : string;
  status : Z;
  details : option Details;
  isOperational : bool;
  stack : Stack;
}.

(** [new AppError(errorCode, message, {status, details, isOperational})].
    The factories always pass the status of the table, which is not 0. *)
Definition newAppError (c : ErrorCode) (msg : string)
    (opt_details : option Details) (opt_isOperational : option bool) : AppError :=
  {| errorCode := c;
     message := msg;
     status := DEFAULT_STATUS_BY_CODE c;
     details := opt_details;
     isOperational := default true opt_isOperational;
     stack := CapturedWith msg |}.

Definition unauthorized (msg : string) (d : option Details) : AppError :=
  newAppError UNAUTHORIZED msg d None.
Definition forbidden (msg : string) (d : option Details) : AppError :=
  newAppError FORBIDDEN msg d None.
Definition validationError (msg : string) (d : option Details) : AppError :=
  newAppError VALIDATION_ERROR msg d None.
Definition notFound (msg : string) (d : option Details) : AppError :=
  newAppError NOT_FOUND msg d None.
Definition conflict (msg : string) (d : option Details) : AppError :=
  newAppError CONFLICT msg d None.
Definition dbError (msg : string) (d : option Details) : AppError :=
  newAppError DB_ERROR msg d None.
Definition internalError (msg : string) (d : option Details) : AppError :=
  newAppError INTERNAL_ERROR msg d (Some false).

(** What a [throw] carries. *)
Inductive Thrown : Type :=
| ThrownApp (e : AppError)
| ThrownRaw (e : RawError).

(** [err instanceof AppError] *)
Definition isAppError (err : Thrown) : bool :=
  match err with ThrownApp _ => true | ThrownRaw _ => false end.

(** [String(err)], that is [Error.prototype.toString]: the name, a colon
    and the message, or the one of the two that is not empty; an
    [AppError] sets [this.name = 'AppError']. *)
Definition toString (err : Thrown) : string :=
  let '(name, msg) :=
    match err with
    | ThrownApp e => ("AppError", message e)
    | ThrownRaw e => (raw_name e, raw_message e)
    end in
  if String.eqb name EmptyString then msg
  else if String.eqb msg EmptyString then name
  else name ++ ": " ++ msg.

(** [defaultMessage || fallback] *)
Definition or_message (defaultMessage : option string) (fallback : string) : string :=
  match defaultMessage with
  | Some s => if String.eqb s EmptyString then fallback else s
  | None => fallback
  end.

(** [fromMysqlError(err, defaultMessage)]; [err] is [None] when the caller
    passes [null] or [undefined]. *)
Definition fromMysqlError (err : option RawError) (defaultMessage : option string)
    : AppError :=
  match err with
  | None =>
      internalError (or_message defaultMessage "未知数据库错误")
        (Some (OriginalError err))
  | Some e =>
      match code e with
      | None | Some EmptyString =>
          internalError (or_message defaultMessage "未知数据库错误")
            (Some (OriginalError err))
      | Some c =>
          if String.eqb c "ER_DUP_ENTRY"
          then conflict (or_message defaultMessage "唯一约束冲突")
                 (Some (OriginalMessage (raw_message e)))
          else dbError (or_message defaultMessage "数据库操作异常")
                 (Some (OriginalMessage (raw_message e)))
      end
  end.

End Errors.
Export Errors.

(* ===================================================================== *)
(** ** The storage engine and src/config/db.js *)
(* ===================================================================== *)

Module Db.

(** A row of [case_officers]. *)
Record OfficerRow : Type := {
  co_id : Z;
  co_case_id : Z;
  co_officer_id : JsVal;
  co_role : JsVal;
  co_remark : JsVal;
}.

(** A row of [case_persons]. *)
Record PersonRow : Type := {
  cp_id : Z;
  cp_case_id : Z;
  cp_name : JsVal;
  cp_id_no : JsVal;
  cp_contact : JsVal;
  cp_role_item_id : JsVal;
  cp_remark : JsVal;
}.

(** The tables of the case aggregate and the table of accounts.
    [case_records] is keyed by its primary key and holds the other
    columns under their SQL names; the child tables and the accounts
    (whose rows are objects with a column [id]) are kept in insertion
    order, which is the order of their auto-increment ids. *)
Record Tables : Type := {
  case_records : gmap Z (gmap string JsVal);
  case_officers : list OfficerRow;
  case_persons : list PersonRow;
  police_officers : list (gmap string JsVal);
}.

Definition set_case_records (v : gmap Z (gmap string JsVal)) (t : Tables) : Tables :=
  {| case_records := v; case_officers := case_officers t;
     case_persons := case_persons t; police_officers := police_officers t |}.
Definition set_case_officers (v : list OfficerRow) (t : Tables) : Tables :=
  {| case_records := case_records t; case_officers := v;
     case_persons := case_persons t; police_officers := police_officers t |}.
Definition set_case_persons (v : list PersonRow) (t : Tables) : Tables :=
  {| case_records := case_records t; case_officers := case_officers t;
     case_persons := v; police_officers := police_officers t |}.
Definition set_police_officers (v : list (gmap string JsVal)) (t : Tables) : Tables :=
  {| case_records := case_records t; case_officers := case_officers t;
     case_persons := case_persons t; police_officers := v |}.

(** Auto-increment counters; InnoDB does not roll them back. *)
Record Counters : Type := {
  auto_case : Z;
  auto_officer : Z;
  auto_person : Z;
  auto_police_officer : Z;
}.

Definition set_auto_case (v : Z) (c : Counters) : Counters :=
  {| auto_case := v; auto_officer := auto_officer c;
     auto_person := auto_person c; auto_police_officer := auto_police_officer c |}.
Definition set_auto_officer (v : Z) (c : Counters) : Counters :=
  {| auto_case := auto_case c; auto_officer := v;
     auto_person := auto_person c; auto_police_officer := auto_police_officer c |}.
Definition set_auto_person (v : Z) (c : Counters) : Counters :=
  {| auto_case := auto_case c; auto_officer := auto_officer c;
     auto_person := v; auto_police_officer := auto_police_officer c |}.
Definition set_auto_police_officer (v : Z) (c : Counters) : Counters :=
  {| auto_case := auto_case c; auto_officer := auto_officer c;
     auto_person := auto_person c; auto_police_officer := v |}.

(** The engine as one request sees it: the committed tables (what every
    other connection reads), the tables of the open transaction of this
    request's connection if there is one, the counters, the failures that
    the driver is going to raise (one entry per driver call, [None] or a
    missing entry meaning that the call goes through) and what the logger
    received. *)
Record World : Type := {
  committed : Tables;
  pending : option Tables;
  counters : Counters;
  faults : list (option RawError);
  logs : list (string * list Thrown);
}.

Definition set_committed (t : Tables) (w : World) : World :=
  {| committed := t; pending := pending w; counters := counters w;
     faults := faults w; logs := logs w |}.
Definition set_pending (p : option Tables) (w : World) : World :=
  {| committed := committed w; pending := p; counters := counters w;
     faults := faults w; logs := logs w |}.
Definition set_counters (c : Counters) (w : World) : World :=
  {| committed := committed w; pending := pending w; counters := c;
     faults := faults w; logs := logs w |}.
Definition set_faults (f : list (option RawError)) (w : World) : World :=
  {| committed := committed w; pending := pending w; counters := counters w;
     faults := f; logs := logs w |}.
Definition add_log (entry : string * list Thrown) (w : World) : World :=
  {| committed := committed w; pending := pending w; counters := counters w;
     faults := faults w; logs := logs w ++ [entry] |}.

(** The result of running an [async] function to completion. *)
Inductive Outcome (A : Type) : Type :=
| Returned (a : A)
| Threw (err : Thrown).
Arguments Returned {A} a.
Arguments Threw {A} err.

(** An [async] function body: it runs against the engine and either
    returns or throws. *)
Definition M (A : Type) : Type := World -> Outcome A * World.

Definition ret {A} (a : A) : M A := fun w => (Returned a, w).

Definition throw {A} (err : Thrown) : M A := fun w => (Threw err, w).

Definition bind {A B} (m : M A) (f : A -> M B) : M B :=
  fun w =>
    match m w with
    | (Returned a, w') => f a w'
    | (Threw err, w') => (Threw err, w')
    end.

(** [try { m } catch (err) { handler(err) }] *)
Definition try_catch {A} (m : M A) (handler : Thrown -> M A) : M A :=
  fun w =>
    match m w with
    | (Returned a, w') => (Returned a, w')
    | (Threw err, w') => handler err w'
    end.

(** [try { m } finally { cleanup }] with a [cleanup] that does not throw. *)
Definition try_finally {A} (m : M A) (cleanup : World -> World) : M A :=
  fun w => let '(r, w') := m w in (r, cleanup w').

(** [logger.error(message, meta)] *)
Definition logger_error (msg : string) (meta : list Thrown) : M unit :=
  fun w => (Returned tt, add_log (msg, meta) w).

(** One call into the driver: it throws the failure that is scheduled
    for it, if any, and otherwise performs [act]. *)
Definition driver {A} (act : World -> A * World) : M A :=
  fun w =>
    match faults w with
    | Some err :: rest => (Threw (ThrownRaw err), set_faults rest w)
    | None :: rest =>
        let '(a, w') := act (set_faults rest w) in (Returned a, w')
    | [] => let '(a, w') := act w in (Returned a, w')
    end.

(** [pool.query(sql, params)] for a [SELECT]: it reads the committed
    tables on a connection of its own. *)
Definition pool_query {A} (select : Tables -> A) : M A :=
  driver (fun w => (select (committed w), w)).

(** [pool.query(sql, params)] for a statement that writes: it runs in
    autocommit mode on a connection of its own. *)
Definition pool_execute {A} (stmt : Tables -> Counters -> A * Tables * Counters) : M A :=
  driver (fun w =>
    let '(a, t', c') := stmt (committed w) (counters w) in
    (a, set_counters c' (set_committed t' w))).

(** [conn.query(sql, params)] for a statement that writes: inside a
    transaction it works on the pending tables; a connection without an
    open transaction is in autocommit mode. *)
Definition conn_query {A} (stmt : Tables -> Counters -> A * Tables * Counters) : M A :=
  driver (fun w =>
    match pending w with
    | Some t =>
        let '(a, t', c') := stmt t (counters w) in
        (a, set_counters c' (set_pending (Some t') w))
    | None =>
        let '(a, t', c') := stmt (committed w) (counters w) in
        (a, set_counters c' (set_committed t' w))
    end).

(** [pool.getConnection()] *)
Definition getConnection : M unit := driver (fun w => (tt, w)).

(** [connection.beginTransaction()] *)
Definition beginTransaction : M unit :=
  driver (fun w => (tt, set_pending (Some (committed w)) w)).

(** [connection.commit()]: the pending tables become the committed ones. *)
Definition commit : M unit :=
  driver (fun w =>
    match pending w with
    | Some t => (tt, set_pending None (set_committed t w))
    | None => (tt, w)
    end).

(** [connection.rollback()]: the pending tables are dropped.  When the
    call itself throws, the connection is lost and the server drops the
    open transaction as well. *)
Definition rollback : M unit :=
  fun w =>
    match faults w with
    | Some err :: rest =>
        (Threw (ThrownRaw err), set_pending None (set_faults rest w))
    | None :: rest => (Returned tt, set_pending None (set_faults rest w))
    | [] => (Returned tt, set_pending None w)
    end.

(** [connection.release()] has no effect on the tables. *)
Definition release (w : World) : World := w.

(** [withTransaction(fn)] *)
Definition withTransaction {A} (fn : M A) : M A :=
  bind getConnection (fun _ =>
    try_finally
      (try_catch
         (bind beginTransaction (fun _ =>
          bind fn (fun result =>
          bind commit (fun _ =>
          ret result))))
         (fun err =>
            bind (try_catch rollback
                    (fun rollbackErr =>
                       logger_error "Transaction rollback failed" [rollbackErr]))
                 (fun _ => throw err)))
      release).

End Db.
Export Db.

(* ===================================================================== *)
(** ** src/modules/cases/service.js *)
(* ===================================================================== *)

Module Cases.

(** [req.user], the verified token payload. *)
Record User : Type := {
  user_id : JsVal;
  permissions : option (list string);
}.

(** The value found under a child-collection key of a payload. *)
Inductive Collection : Type :=
| Missing
| NotArray
| Items (items : list (gmap string JsVal)).

(** A request payload: its scalar properties and its two child
    collections. *)
Record CaseData : Type := {
  fields : gmap string JsVal;
  officers : Collection;
  persons : Collection;
}.

(** [hasPermission(user, code)] *)
Definition hasPermission (user : option User) (c : string) : bool :=
  match user with
  | None => false
  | Some u =>
      match permissions u with
      | None => false
      | Some ps => bool_decide (c ∈ ps)
      end
  end.

(** Sequencing of two statements that may throw. *)
Definition and_then {A} (first : Outcome unit) (next : Outcome A) : Outcome A :=
  match first with
  | Returned _ => next
  | Threw err => Threw err
  end.

(** [if (cond) { throw err; }] *)
Definition throw_if (cond : bool) (err : AppError) : Outcome unit :=
  if cond then Threw (ThrownApp err) else Returned tt.

(** [cond ? text : undefined] *)
Definition required_if (cond : bool) (text : string) : JsVal :=
  if cond then JStr text else JUndefined.

(** [validateCaseBusinessRules(caseData)] *)
Definition validateCaseBusinessRules (caseData : gmap string JsVal) : Outcome unit :=
  let receivedDate := prop caseData "receivedDate" in
  let deadlineDate := prop caseData "deadlineDate" in
  let status :=
    match prop caseData "status" with
    | JUndefined => JStr "在办"
    | v => v
    end in
  let closedDate := prop caseData "closedDate" in
  let resultItemId := prop caseData "resultItemId" in
  let transferTarget := prop caseData "transferTarget" in
  let transferDate := prop caseData "transferDate" in
  let archiveLocation := prop caseData "archiveLocation" in
  let archiveDate := prop caseData "archiveDate" in
  and_then
    (throw_if
       (truthy deadlineDate && truthy receivedDate
        && less_than deadlineDate receivedDate)
       (validationError "办理截止日期不能早于受案日期"
          (Some (FieldErrors (object
             [("deadlineDate", JStr "截止日期不能早于受案日期")])))))
  (and_then
    (throw_if
       (strict_eq status (JStr "已结")
        && (negb (truthy closedDate) || isNil resultItemId))
       (validationError "已结案件必须填写结案日期和结案结果"
          (Some (FieldErrors (object
             [("closedDate", required_if (negb (truthy closedDate)) "结案日期必填");
              ("resultItemId", required_if (isNil resultItemId) "处理结果必填")])))))
  (and_then
    (throw_if
       (strict_eq status (JStr "移交")
        && (negb (truthy transferTarget) || negb (truthy transferDate)))
       (validationError "移交状态必须填写移交去向和移交时间"
          (Some (FieldErrors (object
             [("transferTarget", required_if (negb (truthy transferTarget)) "移交去向必填");
              ("transferDate", required_if (negb (truthy transferDate)) "移交时间必填")])))))
    (throw_if
       (strict_eq status (JStr "存档")
        && (negb (truthy archiveLocation) || negb (truthy archiveDate)))
       (validationError "存档状态必须填写存档位置和存档日期"
          (Some (FieldErrors (object
             [("archiveLocation", required_if (negb (truthy archiveLocation)) "存档位置必填");
              ("archiveDate", required_if (negb (truthy archiveDate)) "存档日期必填")]))))))).

(** [err.code]; an [AppError] has no such property. *)
Definition code_of (err : Thrown) : option string :=
  match err with
  | ThrownRaw e => code e
  | ThrownApp _ => None
  end.

(** [err.message] *)
Definition message_of (err : Thrown) : string :=
  match err with
  | ThrownRaw e => raw_message e
  | ThrownApp e => message e
  end.

(** [err.sqlMessage] *)
Definition sqlMessage_of (err : Thrown) : JsVal :=
  match err with
  | ThrownRaw e =>
      match sqlMessage e with Some s => JStr s | None => JUndefined end
  | ThrownApp _ => JUndefined
  end.

(** [err.code === c] *)
Definition has_code (err : Thrown) (c : string) : bool :=
  bool_decide (code_of err = Some c).

(** [handleCaseDbError(err)]: it always throws, and this is what it
    throws. *)
Definition handleCaseDbError (err : Thrown) : AppError :=
  if has_code err "ER_DUP_ENTRY" then
    if negb (String.eqb (message_of err) EmptyString)
       && includes (message_of err) "uk_case_no"
    then conflict "案件编号已存在"
           (Some (FieldErrors (object [("caseNo", JStr "案件编号已存在")])))
    else conflict "唯一约束冲突" None
  else if has_code err "ER_CHECK_CONSTRAINT" then
    validationError "案件数据不符合业务规则" (Some (RawSql (sqlMessage_of err)))
  else if has_code err "ER_NO_REFERENCED_ROW_2"
          || has_code err "ER_ROW_IS_REFERENCED_2" then
    validationError "关联数据不存在或仍被引用，操作失败" None
  else dbError (toString err) None.

(** [err.isAppError]: the class [AppError] sets [name], [errorCode],
    [status], [details] and [isOperational] and nothing else
    ([isAppError] is a function that errors.js exports), and the driver's
    errors have no such property either. *)
Definition isAppError_property (err : Thrown) : JsVal := JUndefined.

(** The [catch] clause shared by [createCase], [updateCase] and
    [deleteCase]:
    [if (err && err.isAppError) throw err; handleCaseDbError(err);] *)
Definition catch_case_error {A} (err : Thrown) : M A :=
  if truthy (isAppError_property err) then throw err
  else throw (ThrownApp (handleCaseDbError err)).

(** A bound parameter: the driver writes [undefined] as [NULL]. *)
Definition to_sql (v : JsVal) : JsVal :=
  match v with
  | JUndefined => JNull
  | _ => v
  end.

(** A column of a stored row; a column that was never written is [NULL]. *)
Definition column (cols : gmap string JsVal) (c : string) : JsVal :=
  default JNull (cols !! c).

(** The columns that [INSERT INTO case_records] and
    [UPDATE case_records] write, in the order of their parameters. *)
Definition case_columns : list string :=
  ["case_no"; "case_name"; "case_type_item_id"; "main_officer_id";
   "received_date"; "deadline_date"; "description"; "status";
   "result_item_id"; "transfer_target"; "transfer_receiver";
   "transfer_date"; "transfer_return_date"; "transfer_note";
   "archive_location"; "archive_date"; "closed_date"].

(** The select list of [updateCase]: alias and column. *)
Definition case_aliases : list (string * string) :=
  [("caseNo", "case_no"); ("caseName", "case_name");
   ("caseTypeItemId", "case_type_item_id");
   ("mainOfficerId", "main_officer_id");
   ("receivedDate", "received_date"); ("deadlineDate", "deadline_date");
   ("closedDate", "closed_date"); ("resultItemId", "result_item_id");
   ("description", "description"); ("status", "status");
   ("transferTarget", "transfer_target");
   ("transferReceiver", "transfer_receiver");
   ("transferDate", "transfer_date");
   ("transferReturnDate", "transfer_return_date");
   ("transferNote", "transfer_note");
   ("archiveLocation", "archive_location");
   ("archiveDate", "archive_date")].

(** [SELECT id, <aliases> FROM case_records WHERE id = ?] *)
Definition select_case (aliases : list (string * string)) (id : Z) (t : Tables)
    : list (gmap string JsVal) :=
  match case_records t !! id with
  | Some cols =>
      [object (("id", JNum id)
               :: map (fun ac => (ac.1, column cols ac.2)) aliases)]
  | None => []
  end.

(** [SELECT id FROM case_records WHERE case_no = ? [AND id <> ?] LIMIT 1] *)
Definition select_id_by_case_no (caseNo : JsVal) (excluded : option Z) (t : Tables)
    : list Z :=
  take 1
    (filter
       (fun i =>
          column (default ∅ (case_records t !! i)) "case_no" = to_sql caseNo
          ∧ excluded ≠ Some i)
       (map fst (map_to_list (case_records t)))).

(** The stored columns for a list of bound parameters. *)
Definition bound_columns (params : list JsVal) : gmap string JsVal :=
  list_to_map (zip case_columns (map to_sql params)).

(** [INSERT INTO case_records (...) VALUES (...)]; the result is
    [insertId]. *)
Definition insert_case (params : list JsVal) (t : Tables) (c : Counters)
    : Z * Tables * Counters :=
  (auto_case c,
   set_case_records (<[auto_case c := bound_columns params]> (case_records t)) t,
   set_auto_case (auto_case c + 1) c).

(** [UPDATE case_records SET ... WHERE id = ?] *)
Definition update_case (params : list JsVal) (id : Z) (t : Tables) (c : Counters)
    : unit * Tables * Counters :=
  (tt,
   set_case_records
     (alter (fun cols => bound_columns params ∪ cols) id (case_records t)) t,
   c).

(** [DELETE FROM case_officers WHERE case_id = ?] *)
Definition delete_officers (id : Z) (t : Tables) (c : Counters)
    : unit * Tables * Counters :=
  (tt,
   set_case_officers (filter (fun r => co_case_id r ≠ id) (case_officers t)) t,
   c).

(** [DELETE FROM case_persons WHERE case_id = ?] *)
Definition delete_persons (id : Z) (t : Tables) (c : Counters)
    : unit * Tables * Counters :=
  (tt,
   set_case_persons (filter (fun r => cp_case_id r ≠ id) (case_persons t)) t,
   c).

(** [INSERT INTO case_officers (case_id, officer_id, role, remark)
     VALUES (?, ?, ?, ?)] *)
Definition insert_officer (case_id : Z) (officer_id role remark : JsVal)
    (t : Tables) (c : Counters) : unit * Tables * Counters :=
  (tt,
   set_case_officers
     (case_officers t ++
      [{| co_id := auto_officer c; co_case_id := case_id;
          co_officer_id := to_sql officer_id; co_role := to_sql role;
          co_remark := to_sql remark |}]) t,
   set_auto_officer (auto_officer c + 1) c).

(** [INSERT INTO case_persons (case_id, name, id_no, contact,
     role_item_id, remark) VALUES (?, ?, ?, ?, ?, ?)] *)
Definition insert_person (case_id : Z) (name id_no contact role_item_id remark : JsVal)
    (t : Tables) (c : Counters) : unit * Tables * Counters :=
  (tt,
   set_case_persons
     (case_persons t ++
      [{| cp_id := auto_person c; cp_case_id := case_id;
          cp_name := to_sql name; cp_id_no := to_sql id_no;
          cp_contact := to_sql contact;
          cp_role_item_id := to_sql role_item_id;
          cp_remark := to_sql remark |}]) t,
   set_auto_person (auto_person c + 1) c).

(** Modelled from the spec: the schema is not among the sources; the
    spec has the destruction of a parent cascade to its children
    ([ON DELETE CASCADE] on both child tables, as the comment in
    [deleteCase] expects).
    [DELETE FROM case_records WHERE id = ?] *)
Definition delete_case (id : Z) (t : Tables) (c : Counters)
    : unit * Tables * Counters :=
  (tt,
   set_case_persons (filter (fun r => cp_case_id r ≠ id) (case_persons t))
     (set_case_officers (filter (fun r => co_case_id r ≠ id) (case_officers t))
        (set_case_records (delete id (case_records t)) t)),
   c).

(** [Array.isArray(c) ? c : []], also after the default [c = []] of a
    destructuring. *)
Definition as_list (c : Collection) : list (gmap string JsVal) :=
  match c with
  | Items l => l
  | Missing | NotArray => []
  end.

(** [typeof c !== 'undefined'] *)
Definition is_defined (c : Collection) : bool :=
  match c with
  | Missing => false
  | NotArray | Items _ => true
  end.

(** A pure statement that may throw, run inside an [async] function. *)
Definition lift {A} (o : Outcome A) : M A := fun w => (o, w).

(** [for (const officer of officersList) { ... }]: the loop of
    [createCase] and [updateCase]; it returns [hasMainInOfficers]. *)
Fixpoint insert_officers (case_id : Z) (mainOfficerId : JsVal)
    (officersList : list (gmap string JsVal)) (hasMainInOfficers : bool) : M bool :=
  match officersList with
  | [] => ret hasMainInOfficers
  | officer :: rest =>
      let hasMainInOfficers :=
        if strict_eq (prop officer "officerId") mainOfficerId then true
        else hasMainInOfficers in
      bind (conn_query
              (insert_officer case_id (prop officer "officerId")
                 (or_else (prop officer "role") JNull)
                 (or_else (prop officer "remark") JNull)))
           (fun _ => insert_officers case_id mainOfficerId rest hasMainInOfficers)
  end.

(** [for (const person of personsList) { ... }] *)
Fixpoint insert_persons (case_id : Z) (personsList : list (gmap string JsVal))
    : M unit :=
  match personsList with
  | [] => ret tt
  | person :: rest =>
      bind (conn_query
              (insert_person case_id (prop person "name")
                 (or_else (prop person "idNo") JNull)
                 (or_else (prop person "contact") JNull)
                 (prop person "roleItemId")
                 (or_else (prop person "remark") JNull)))
           (fun _ => insert_persons case_id rest)
  end.

(** The officers part of both transactions: the loop, then the main
    officer's own row when the loop did not meet them. *)
Definition write_officers (case_id : Z) (mainOfficerId : JsVal)
    (officersList : list (gmap string JsVal)) : M unit :=
  bind (insert_officers case_id mainOfficerId officersList false)
       (fun hasMainInOfficers =>
          if negb hasMainInOfficers
          then conn_query (insert_officer case_id mainOfficerId (JStr "主办") JNull)
          else ret tt).

(** The parameters of the parent [INSERT] and [UPDATE], read from the
    record [r]. *)
Definition case_params (r : gmap string JsVal) : list JsVal :=
  [prop r "caseNo"; prop r "caseName"; prop r "caseTypeItemId";
   prop r "mainOfficerId"; prop r "receivedDate";
   or_else (prop r "deadlineDate") JNull;
   or_else (prop r "description") JNull;
   or_else (prop r "status") (JStr "在办");
   or_else (prop r "resultItemId") JNull;
   or_else (prop r "transferTarget") JNull;
   or_else (prop r "transferReceiver") JNull;
   or_else (prop r "transferDate") JNull;
   or_else (prop r "transferReturnDate") JNull;
   or_else (prop r "transferNote") JNull;
   or_else (prop r "archiveLocation") JNull;
   or_else (prop r "archiveDate") JNull;
   or_else (prop r "closedDate") JNull].

(** The function that [createCase] hands to [withTransaction]. *)
Definition createCase_transaction (data : CaseData) : M Z :=
  bind (conn_query (insert_case (case_params (fields data)))) (fun newCaseId =>
  bind (write_officers newCaseId (prop (fields data) "mainOfficerId")
          (as_list (officers data))) (fun _ =>
  bind (insert_persons newCaseId (as_list (persons data))) (fun _ =>
  ret newCaseId))).

(** The pre-flight check on the case number. *)
Definition check_case_no (caseNo : JsVal) (excluded : option Z) : M unit :=
  bind (pool_query (select_id_by_case_no caseNo excluded)) (fun existsRows =>
    if bool_decide (0 < length existsRows)%nat
    then throw (ThrownApp
           (conflict "案件编号已存在"
              (Some (FieldErrors (object [("caseNo", JStr "案件编号已存在")])))))
    else ret tt).

(** The [try] block of [createCase]. *)
Definition createCase_try (data : CaseData) : M Z :=
  let caseNo := prop (fields data) "caseNo" in
  bind (if truthy caseNo then check_case_no caseNo None else ret tt) (fun _ =>
  bind (withTransaction (createCase_transaction data)) (fun caseId =>
  ret caseId)).

(** [createCase(data, currentUser)]; the result is the [id] of
    [{ id: caseId }]. *)
Definition createCase (data : CaseData) (currentUser : User) : M Z :=
  let f := prop (fields data) in
  let caseForCheck :=
    object
      [("receivedDate", f "receivedDate");
       ("deadlineDate", f "deadlineDate");
       ("status", or_else (f "status") (JStr "在办"));
       ("closedDate", f "closedDate");
       ("resultItemId", f "resultItemId");
       ("transferTarget", f "transferTarget");
       ("transferDate", f "transferDate");
       ("archiveLocation", f "archiveLocation");
       ("archiveDate", f "archiveDate")] in
  bind (lift (validateCaseBusinessRules caseForCheck)) (fun _ =>
  try_catch (createCase_try data) catch_case_error).

(** [{ ...existingCase, ...data }] *)
Definition mergedCase (existingCase : gmap string JsVal) (data : CaseData)
    : gmap string JsVal :=
  spread existingCase (fields data).

(** The function that [updateCase] hands to [withTransaction]. *)
Definition updateCase_transaction (id : Z) (merged : gmap string JsVal)
    (data : CaseData) : M unit :=
  bind (conn_query (update_case (case_params merged) id)) (fun _ =>
  bind (if is_defined (officers data)
        then bind (conn_query (delete_officers id)) (fun _ =>
             write_officers id (prop merged "mainOfficerId")
               (as_list (officers data)))
        else ret tt) (fun _ =>
  if is_defined (persons data)
  then bind (conn_query (delete_persons id)) (fun _ =>
       insert_persons id (as_list (persons data)))
  else ret tt)).

(** The ownership check of [updateCase] and [deleteCase]. *)
Definition authorize_owner (record : gmap string JsVal) (currentUser : User)
    (denied : string) : M unit :=
  let isMain := strict_eq (prop record "mainOfficerId") (user_id currentUser) in
  let isAdmin := hasPermission (Some currentUser) "case:view_all" in
  if negb isMain && negb isAdmin
  then throw (ThrownApp (forbidden denied None))
  else ret tt.

(** The [try] block of [updateCase]. *)
Definition updateCase_try (id : Z) (data : CaseData) (currentUser : User) : M Z :=
  bind (pool_query (select_case case_aliases id)) (fun caseRows =>
  match caseRows with
  | [] => throw (ThrownApp (notFound "案件不存在" None))
  | existingCase :: _ =>
      bind (authorize_owner existingCase currentUser "无权修改该案件") (fun _ =>
      let caseNo := prop (fields data) "caseNo" in
      bind (if truthy caseNo
               && negb (strict_eq caseNo (prop existingCase "caseNo"))
            then check_case_no caseNo (Some id)
            else ret tt) (fun _ =>
      let merged := mergedCase existingCase data in
      bind (lift (validateCaseBusinessRules merged)) (fun _ =>
      bind (withTransaction (updateCase_transaction id merged data)) (fun _ =>
      ret id))))
  end).

(** [updateCase(id, data, currentUser)] *)
Definition updateCase (id : Z) (data : CaseData) (currentUser : User) : M Z :=
  try_catch (updateCase_try id data currentUser) catch_case_error.

(** The [try] block of [deleteCase]. *)
Definition deleteCase_try (id : Z) (currentUser : User) : M Z :=
  bind (pool_query
          (select_case [("mainOfficerId", "main_officer_id"); ("status", "status")] id))
       (fun rows =>
  match rows with
  | [] => throw (ThrownApp (notFound "案件不存在" None))
  | record :: _ =>
      bind (authorize_owner record currentUser "无权删除该案件") (fun _ =>
      bind (if negb (strict_eq (prop record "status") (JStr "在办"))
            then throw (ThrownApp
                   (validationError "仅允许删除状态为“在办”的案件"
                      (Some (FieldErrors (object
                         [("status", JStr "仅允许删除状态为“在办”的案件")])))))
            else ret tt) (fun _ =>
      bind (withTransaction (conn_query (delete_case id))) (fun _ =>
      ret id)))
  end).

(** [deleteCase(id, currentUser)] *)
Definition deleteCase (id : Z) (currentUser : User) : M Z :=
  try_catch (deleteCase_try id currentUser) catch_case_error.

(** What [getCaseDetail] returns (the display names that the query joins
    in from other tables are left out). *)
Record CaseDetail : Type := {
  detail_case : gmap string JsVal;
  detail_officers : list OfficerRow;
  detail_persons : list PersonRow;
}.

(** [SELECT 1 FROM case_officers WHERE case_id = ? AND officer_id = ?
     LIMIT 1]; a [NULL] parameter matches no row. *)
Definition select_participation (id : Z) (officer_id : JsVal) (t : Tables)
    : list OfficerRow :=
  take 1
    (filter
       (fun r => co_case_id r = id
                 ∧ co_officer_id r = to_sql officer_id
                 ∧ to_sql officer_id ≠ JNull)
       (case_officers t)).

(** The access check of [getCaseDetail]. *)
Definition authorize_participant (id : Z) (caseRow : gmap string JsVal)
    (currentUser : User) : M unit :=
  let canViewAll := hasPermission (Some currentUser) "case:view_all" in
  if negb canViewAll then
    let isMain := strict_eq (prop caseRow "mainOfficerId") (user_id currentUser) in
    bind (if negb isMain
          then bind (pool_query (select_participation id (user_id currentUser)))
                 (fun coRows => ret (bool_decide (0 < length coRows)%nat))
          else ret isMain) (fun isParticipant =>
    if negb isParticipant
    then throw (ThrownApp (forbidden "无权查看该案件" None))
    else ret tt)
  else ret tt.

(** [getCaseDetail(id, currentUser)] *)
Definition getCaseDetail (id : Z) (currentUser : User) : M CaseDetail :=
  bind (pool_query (select_case case_aliases id)) (fun caseRows =>
  match caseRows with
  | [] => throw (ThrownApp (notFound "案件不存在" None))
  | caseRow :: _ =>
      bind (authorize_participant id caseRow currentUser) (fun _ =>
      bind (pool_query
              (fun t => filter (fun r => co_case_id r = id) (case_officers t)))
           (fun officersRows =>
      bind (pool_query
              (fun t => filter (fun r => cp_case_id r = id) (case_persons t)))
           (fun personsRows =>
      ret {| detail_case := caseRow;
             detail_officers := officersRows;
             detail_persons := personsRows |})))
  end).

End Cases.
Export Cases.

(* ===================================================================== *)
(** ** src/modules/nineSmall/service.js: the merges of the partial updates *)
(* ===================================================================== *)

Module NineSmall.

(** [a !== undefined ? a : b] *)
Definition if_defined (a b : JsVal) : JsVal :=
  match a with
  | JUndefined => b
  | _ => a
  end.

(** The object [merged] of [updatePlace(id, data)]; [existing] is the row
    of [SELECT * FROM nine_small_places], under its column names. *)
Definition updatePlace_merged (data existing : gmap string JsVal)
    : gmap string JsVal :=
  object
    [("name", coalesce (prop data "name") (prop existing "name"));
     ("address", coalesce (prop data "address") (prop existing "address"));
     ("communityId",
        if_defined (prop data "communityId") (prop existing "community_id"));
     ("type", coalesce (prop data "type") (prop existing "type"));
     ("typeItemId",
        if_defined (prop data "typeItemId") (prop existing "type_item_id"));
     ("gridName", coalesce (prop data "gridName") (prop existing "grid_name"));
     ("principalName",
        coalesce (prop data "principalName") (prop existing "principal_name"));
     ("contactPhone",
        coalesce (prop data "contactPhone") (prop existing "contact_phone"));
     ("remark", coalesce (prop data "remark") (prop existing "remark"))].

(** The parameters of the [UPDATE nine_small_places] of [updatePlace]. *)
Definition updatePlace_params (merged : gmap string JsVal) (id : JsVal)
    : list JsVal :=
  [prop merged "name"; prop merged "address";
   coalesce (prop merged "communityId") JNull;
   coalesce (prop merged "type") JNull;
   coalesce (prop merged "typeItemId") JNull;
   coalesce (prop merged "gridName") JNull;
   coalesce (prop merged "principalName") JNull;
   coalesce (prop merged "contactPhone") JNull;
   coalesce (prop merged "remark") JNull;
   id].

(** The object [merged] of [updateInspection(inspectionId, data)];
    [existing] is the row of [SELECT * FROM nine_small_inspections]. *)
Definition updateInspection_merged (data existing : gmap string JsVal)
    : gmap string JsVal :=
  object
    [("placeId", if_defined (prop data "placeId") (prop existing "place_id"));
     ("inspectDate",
        if_defined (prop data "inspectDate") (prop existing "inspect_date"));
     ("inspectorOfficerId",
        if_defined (prop data "inspectorOfficerId")
          (prop existing "inspector_officer_id"));
     ("inspectorName",
        if_defined (prop data "inspectorName") (prop existing "inspector_name"));
     ("description",
        if_defined (prop data "description") (prop existing "description"));
     ("hasHiddenDanger",
        match prop data "hasHiddenDanger" with
        | JBool b => JBool b
        | _ => JBool (strict_eq (prop existing "has_hidden_danger") (JNum 1))
        end);
     ("rectificationAdvice",
        if_defined (prop data "rectificationAdvice")
          (prop existing "rectification_advice"));
     ("rectificationStatusId",
        if_defined (prop data "rectificationStatusId")
          (prop existing "rectification_status_id"));
     ("rectifiedDate",
        if_defined (prop data "rectifiedDate") (prop existing "rectified_date"))].

(** Property of the payload and column of the row, for the fields of a
    place. *)
Definition place_fields : list (string * string) :=
  [("name", "name"); ("address", "address"); ("communityId", "community_id");
   ("type", "type"); ("typeItemId", "type_item_id"); ("gridName", "grid_name");
   ("principalName", "principal_name"); ("contactPhone", "contact_phone");
   ("remark", "remark")].

(** The same for the fields of an inspection other than
    [hasHiddenDanger]. *)
Definition inspection_fields : list (string * string) :=
  [("placeId", "place_id"); ("inspectDate", "inspect_date");
   ("inspectorOfficerId", "inspector_officer_id");
   ("inspectorName", "inspector_name"); ("description", "description");
   ("rectificationAdvice", "rectification_advice");
   ("rectificationStatusId", "rectification_status_id");
   ("rectifiedDate", "rectified_date")].

End NineSmall.
Export NineSmall.

(* ===================================================================== *)
(** ** src/modules/auth/service.js *)
(* ===================================================================== *)

Module Auth.

(** A row of [roles], as [loadRolesAndPermissions] selects it. *)
Record RoleRow : Type := {
  role_id : JsVal;
  role_code : string;
  role_name : string;
}.

(** [{ roleIds, roles, roleNames, permissions }] *)
Record Extra : Type := {
  roleIds : list JsVal;
  roles : list string;
  roleNames : list string;
  permissions : list string;
}.

(** The [userInfo] that [mapOfficerToUser] builds. *)
Record UserInfo : Type := {
  id : JsVal;
  name : JsVal;
  badgeNo : JsVal;
  phone : JsVal;
  status : JsVal;
  isActive : bool;
  user_roles : list string;
  user_roleNames : list string;
  user_permissions : list string;
}.

(** The claims that [login] and [register] sign. *)
Record TokenPayload : Type := {
  token_id : JsVal;
  token_badgeNo : JsVal;
  token_name : JsVal;
  token_roles : list string;
  token_permissions : list string;
}.

(** [{ token, user }] *)
Record Session : Type := {
  token : string;
  user : UserInfo;
}.

(** The collaborators of the service: [bcryptjs], [jsonwebtoken] with the
    secret and the expiry of [config/jwt.js], and the content of the role
    and permission tables, which no operation here writes. *)
Record Externals : Type := {
  bcrypt_compare : JsVal -> JsVal -> bool;
  bcrypt_hash : JsVal -> JsVal;
  jwt_sign : TokenPayload -> string;
  role_rows : JsVal -> list RoleRow;
  permission_codes : list JsVal -> list string;
}.

(** [signToken(payload)] of [config/jwt.js] *)
Definition signToken (ext : Externals) (payload : TokenPayload) : string :=
  jwt_sign ext payload.

(** [findOfficerByBadgeNo(badgeNo)]: [rows[0] || null] *)
Definition findOfficerByBadgeNo (badgeNo : JsVal) : M (option (gmap string JsVal)) :=
  pool_query (fun t =>
    head (filter
            (fun row => column row "badge_no" = to_sql badgeNo
                        ∧ to_sql badgeNo ≠ JNull)
            (police_officers t))).

(** [loadRolesAndPermissions(officerId)] *)
Definition loadRolesAndPermissions (ext : Externals) (officerId : JsVal) : M Extra :=
  bind (pool_query (fun _ => role_rows ext officerId)) (fun roleRows =>
  let ids := map role_id roleRows in
  bind (if bool_decide (0 < length ids)%nat
        then pool_query (fun _ => permission_codes ext ids)
        else ret []) (fun perms =>
  ret {| roleIds := ids;
         roles := map role_code roleRows;
         roleNames := map role_name roleRows;
         permissions := perms |})).

(** [mapOfficerToUser(row, extra)] *)
Definition mapOfficerToUser (row : gmap string JsVal) (extra : Extra) : UserInfo :=
  let is_active := prop row "is_active" in
  {| id := prop row "id";
     name := prop row "name";
     badgeNo := prop row "badge_no";
     phone := prop row "phone";
     status := prop row "status";
     isActive := strict_eq is_active (JNum 1)
                 || strict_eq is_active (JBool true)
                 || strict_eq is_active (JStr "1");
     user_roles := roles extra;
     user_roleNames := roleNames extra;
     user_permissions := permissions extra |}.

(** The claims of a user. *)
Definition tokenPayload (u : UserInfo) : TokenPayload :=
  {| token_id := id u;
     token_badgeNo := badgeNo u;
     token_name := name u;
     token_roles := user_roles u;
     token_permissions := user_permissions u |}.

(** [login(payload)] *)
Definition login (ext : Externals) (payload : gmap string JsVal) : M Session :=
  let badgeNo := prop payload "badgeNo" in
  let password := prop payload "password" in
  bind (findOfficerByBadgeNo badgeNo) (fun found =>
  match found with
  | None => throw (ThrownApp (unauthorized "警号或密码错误" None))
  | Some officer =>
      if strict_eq (prop officer "status") (JStr "LOCKED")
      then throw (ThrownApp (unauthorized "账号已锁定，请联系管理员" None))
      else
        let ok :=
          bcrypt_compare ext password
            (or_else (prop officer "password_hash") (JStr EmptyString)) in
        if negb ok
        then throw (ThrownApp (unauthorized "警号或密码错误" None))
        else
          bind (loadRolesAndPermissions ext (prop officer "id")) (fun extra =>
          let user := mapOfficerToUser officer extra in
          ret {| token := signToken ext (tokenPayload user); user := user |})
  end).

(** [INSERT INTO police_officers (name, badge_no, phone, status,
     is_active, password_hash) VALUES (?, ?, ?, 'ACTIVE', 1, ?)]; the
    result is [insertId]. *)
Definition insert_officer_account (name badge_no phone password_hash : JsVal)
    (t : Tables) (c : Counters) : Z * Tables * Counters :=
  (auto_police_officer c,
   set_police_officers
     (police_officers t ++
      [object [("id", JNum (auto_police_officer c));
               ("name", to_sql name);
               ("badge_no", to_sql badge_no);
               ("phone", to_sql phone);
               ("status", JStr "ACTIVE");
               ("is_active", JNum 1);
               ("password_hash", to_sql password_hash)]]) t,
   set_auto_police_officer (auto_police_officer c + 1) c).

(** [register(payload)] *)
Definition register (ext : Externals) (payload : gmap string JsVal) : M Session :=
  let badgeNo := prop payload "badgeNo" in
  let name := prop payload "name" in
  let password := prop payload "password" in
  let phone := prop payload "phone" in
  if negb (truthy badgeNo) || negb (truthy name) || negb (truthy password)
  then throw (ThrownApp (validationError "警号、姓名、密码不能为空" None))
  else
    bind (findOfficerByBadgeNo badgeNo) (fun existed =>
    match existed with
    | Some _ =>
        throw (ThrownApp (conflict "警号已存在，请联系管理员或直接登录" None))
    | None =>
        let passwordHash := bcrypt_hash ext password in
        bind (try_catch
                (pool_execute
                   (insert_officer_account name badgeNo (or_else phone JNull)
                      passwordHash))
                (fun err =>
                   bind (logger_error "[auth] register officer failed" [err])
                        (fun _ =>
                   throw (ThrownApp (dbError "注册失败，请稍后重试" None)))))
             (fun insertId =>
        let officerRow :=
          object [("id", JNum insertId); ("name", name); ("badge_no", badgeNo);
                  ("phone", or_else phone JNull); ("status", JStr "ACTIVE");
                  ("is_active", JNum 1)] in
        let extra :=
          {| roleIds := []; roles := []; roleNames := []; permissions := [] |} in
        let user := mapOfficerToUser officerRow extra in
        ret {| token := signToken ext (tokenPayload user); user := user |})
    end).

End Auth.

(* ===================================================================== *)
(** ** src/middleware/errorHandler.js *)
(* ===================================================================== *)

Module ErrorHandler.

(** The JSON body of an error response. *)
Record Payload : Type := {
  success : bool;
  payload_errorCode : ErrorCode;
  payload_message : string;
  payload_details : option Details;
  payload_stack : option Stack;
}.

(** [res.status(status).json(payload)] *)
Record Response : Type := {
  response_status : Z;
  response_json : Payload;
}.

(** The [replace] of the Joi branch: it removes every double quote
    (character 34) of the message. *)
Fixpoint strip_quotes (s : string) : string :=
  match s with
  | EmptyString => EmptyString
  | String c s' =>
      if Ascii.eqb c (Ascii.ascii_of_nat 34) then strip_quotes s'
      else String c (strip_quotes s')
  end.

(** The [reduce] over the details of a Joi error. *)
Definition joi_fieldErrors (ds : list JoiDetail) : gmap string JsVal :=
  foldl (fun acc d =>
           let key := match path d with
                      | [] => "value"
                      | p => String.concat "." p
                      end in
           <[key := JStr (strip_quotes (joi_message d))]> acc)
        ∅ ds.

(** [err.name] *)
Definition name_of (err : Thrown) : string :=
  match err with
  | ThrownApp _ => "AppError"
  | ThrownRaw e => raw_name e
  end.

(** [errorHandler(err, req, res, next)], with the [isProduction] of the
    module; the result is the response and what the logger received. *)
Definition errorHandler (isProduction : bool) (err : Thrown)
    : Response * list (string * list Thrown) :=
  let appError := err in
  let appError :=
    match err with
    | ThrownRaw e =>
        if isJoi e
        then ThrownApp
               (validationError "参数校验失败"
                  (Some (match joi_details e with
                         | Some ds => FieldErrors (joi_fieldErrors ds)
                         | None => FieldErrorsUndefined
                         end)))
        else appError
    | ThrownApp _ => appError
    end in
  let appError :=
    if negb (isAppError appError)
       && (String.eqb (name_of err) "JsonWebTokenError"
           || String.eqb (name_of err) "TokenExpiredError")
    then ThrownApp (unauthorized "登录状态无效或已过期" None)
    else appError in
  let '(appError, logged) :=
    match appError with
    | ThrownApp e => (e, [])
    | ThrownRaw _ =>
        (internalError "服务器内部错误" None, [("Unhandled error", [err])])
    end in
  let status := if Z.eqb (status appError) 0 then 500 else status appError in
  let payload :=
    {| success := false;
       payload_errorCode := errorCode appError;
       payload_message :=
         if String.eqb (message appError) EmptyString
         then "服务器内部错误" else message appError;
       payload_details := details appError;
       payload_stack :=
         if negb isProduction then Some (stack appError) else None |} in
  ({| response_status := status; response_json := payload |}, logged).

End ErrorHandler.

(* ===================================================================== *)
(** ** src/middleware/permission.js and src/middleware/auth.js *)
(* ===================================================================== *)

Module Middleware.

(** How a middleware hands the request on: [next()], with the [req.user]
    it leaves on the request, or [next(err)]. *)
Inductive Next : Type :=
| Continue (user : option User)
| Refuse (err : AppError).

(** The argument of [permission] and of [requireRoles]: a single code or
    an array of codes. *)
Inductive Required : Type :=
| Single (c : string)
| Several (cs : list string).

(** [if (!Array.isArray(required)) required = [required];] *)
Definition as_array (required : Required) : list string :=
  match required with
  | Single c => [c]
  | Several cs => cs
  end.

(** [required.some((p) => held.includes(p))] *)
Definition some_included (required held : list string) : bool :=
  existsb (fun p => bool_decide (p ∈ held)) required.

(** The middleware that [permission(requiredPermissions)] returns, run
    on a request whose [req.user] is [user]. *)
Definition permission (requiredPermissions : Required) (user : option User) : Next :=
  let requiredPermissions := as_array requiredPermissions in
  match user with
  | None => Refuse (unauthorized "未登录或登录已过期" None)
  | Some u =>
      let userPermissions := default [] (permissions u) in
      if bool_decide (0 < length requiredPermissions)%nat
         && negb (some_included requiredPermissions userPermissions)
      then Refuse (forbidden "权限不足" None)
      else Continue user
  end.

(** [req.headers.authorization || req.headers.Authorization || ''] *)
Definition authorization_header (authorization Authorization : option string)
    : string :=
  match authorization with
  | Some s => if String.eqb s EmptyString
              then default EmptyString Authorization else s
  | None => default EmptyString Authorization
  end.

(** [header.split(' ')] *)
Fixpoint split_on_space (s : string) : list string :=
  match s with
  | EmptyString => [EmptyString]
  | String c s' =>
      if Ascii.eqb c Ascii.Space then EmptyString :: split_on_space s'
      else match split_on_space s' with
           | first :: others => String c first :: others
           | [] => [String c EmptyString]
           end
  end.

(** The lower-case form of an ASCII letter; the [i] flag of a regular
    expression without the [u] flag never lets a character outside ASCII
    match a letter of ASCII. *)
Definition lower (c : Ascii.ascii) : Ascii.ascii :=
  let n := Ascii.nat_of_ascii c in
  if (65 <=? n)%nat && (n <=? 90)%nat then Ascii.ascii_of_nat (n + 32) else c.

Fixpoint lower_string (s : string) : string :=
  match s with
  | EmptyString => EmptyString
  | String c s' => String (lower c) (lower_string s')
  end.

(** [/^Bearer$/i.test(scheme)] *)
Definition is_bearer (scheme : string) : bool :=
  String.eqb (lower_string scheme) "bearer".

(** [extractToken(req)]; [None] is [null]. *)
Definition extractToken (authorization Authorization : option string)
    : option string :=
  let header := authorization_header authorization Authorization in
  if String.eqb header EmptyString then None
  else
    match split_on_space header with
    | [scheme; token] => if is_bearer scheme then Some token else None
    | _ => None
    end.

(** The middleware that [auth(required)] returns; [verifyToken] is
    [jwt.verify] with the secret of [config/jwt.js], [None] when it
    throws. *)
Definition auth (verifyToken : string → option User) (required : bool)
    (authorization Authorization : option string) : Next :=
  match extractToken authorization Authorization with
  | Some token =>
      if String.eqb token EmptyString then
        if negb required then Continue None
        else Refuse (unauthorized "未登录或登录已过期" None)
      else
        match verifyToken token with
        | Some payload => Continue (Some payload)
        | None => Refuse (unauthorized "登录状态无效或已过期" None)
        end
  | None =>
      if negb required then Continue None
      else Refuse (unauthorized "未登录或登录已过期" None)
  end.

End Middleware.

(* ===================================================================== *)
(** ** src/modules/auth/service.js and src/modules/officers/service.js:
       the other operations on accounts *)
(* ===================================================================== *)

Module Accounts.

(** The row condition [WHERE id = ?]; a [NULL] parameter matches no
    row. *)
Definition has_id (officerId : JsVal) (row : gmap string JsVal) : Prop :=
  column row "id" = to_sql officerId ∧ to_sql officerId ≠ JNull.

#[global] Instance has_id_dec officerId row : Decision (has_id officerId row).
Proof. unfold has_id. apply _. Defined.

(** [SELECT <cols> FROM police_officers WHERE id = ? LIMIT 1], and then
    [rows[0]]. *)
Definition select_officer (cols : list string) (officerId : JsVal) (t : Tables)
    : option (gmap string JsVal) :=
  (fun row => object (map (fun c => (c, column row c)) cols))
  <$> head (filter (has_id officerId) (police_officers t)).

(** [UPDATE police_officers SET <assignments> WHERE id = ?] *)
Definition update_officer (assignments : list (string * JsVal)) (officerId : JsVal)
    (t : Tables) (c : Counters) : unit * Tables * Counters :=
  (tt,
   set_police_officers
     (map (fun row =>
             if decide (has_id officerId row)
             then foldl (fun r a => <[a.1 := to_sql a.2]> r) row assignments
             else row)
        (police_officers t)) t,
   c).

(** [changePassword(officerId, payload)] of the auth service. *)
Definition changePassword (ext : Auth.Externals) (officerId : JsVal)
    (payload : gmap string JsVal) : M bool :=
  let oldPassword := prop payload "oldPassword" in
  let newPassword := prop payload "newPassword" in
  bind (pool_query (select_officer ["id"; "password_hash"] officerId)) (fun found =>
  match found with
  | None => throw (ThrownApp (unauthorized "用户不存在或已被删除" None))
  | Some officer =>
      let ok :=
        Auth.bcrypt_compare ext oldPassword
          (or_else (prop officer "password_hash") (JStr EmptyString)) in
      if negb ok
      then throw (ThrownApp
             (validationError "原密码不正确"
                (Some (FieldErrors (object [("oldPassword", JStr "原密码不正确")])))))
      else
        let newHash := Auth.bcrypt_hash ext newPassword in
        bind (try_catch
                (pool_execute
                   (update_officer [("password_hash", newHash)] officerId))
                (fun err =>
                   bind (logger_error "[auth] change password failed" [err])
                        (fun _ =>
                   throw (ThrownApp (dbError "修改密码失败，请稍后重试" None)))))
             (fun _ => ret true)
  end).

(** [getCurrentUser(officerId)] of the auth service. *)
Definition getCurrentUser (ext : Auth.Externals) (officerId : JsVal)
    : M Auth.UserInfo :=
  bind (pool_query
          (select_officer ["id"; "name"; "badge_no"; "phone"; "status"; "is_active"]
             officerId)) (fun found =>
  match found with
  | None => throw (ThrownApp (unauthorized "用户不存在或已被删除" None))
  | Some row =>
      bind (Auth.loadRolesAndPermissions ext officerId) (fun extra =>
      ret (Auth.mapOfficerToUser row extra))
  end).

(** [logger.warn(message, ...args)]; the log keeps the message without
    its arguments. *)
Definition logger_warn (msg : string) : M unit :=
  fun w => (Returned tt, add_log (msg, []) w).

(** [deleteOfficer(id, operatorId)] of the officers service; [now] is the
    value of [NOW()] on the server. *)
Definition deleteOfficer (now : JsVal) (id : JsVal) (operatorId : JsVal) : M bool :=
  bind (pool_query (select_officer ["id"] id)) (fun found =>
  match found with
  | None => throw (ThrownApp (notFound "民警不存在" None))
  | Some _ =>
      bind (pool_execute
              (update_officer
                 [("status", JStr "LOCKED"); ("is_active", JNum 0);
                  ("updated_at", now)] id)) (fun _ =>
      bind (logger_warn
              "[officers] soft-deleted (locked) officer %d by operator %s")
           (fun _ => ret true))
  end).

End Accounts.

(* ===================================================================== *)
(** ** src/modules/cases/service.js: the filter of [listCases] *)
(* ===================================================================== *)

Module CaseList.

(** A bound parameter of the list query: a value pushed as it is, or the
    template string that wraps the keyword in two percent signs. *)
Inductive Param : Type :=
| Value (v : JsVal)
| Like (keyword : JsVal).

(** The two arrays that [listCases] fills, [conditions] and [params]. *)
Record Where : Type := {
  conditions : list string;
  params : list Param;
}.

(** [if (cond) { conditions.push(sql); params.push(...ps); }] *)
Definition push (cond : bool) (sql : string) (ps : list Param) (acc : Where)
    : Where :=
  if cond
  then {| conditions := conditions acc ++ [sql]; params := params acc ++ ps |}
  else acc.

(** The condition of the scope [my]. *)
Definition my_cases : string :=
  "(cr.main_officer_id = ? OR EXISTS (SELECT 1 FROM case_officers co WHERE co.case_id = cr.id AND co.officer_id = ?))".

(** The part of [listCases(query, currentUser)] that builds the filter:
    from the destructuring of [query] to the last [push]. *)
Definition listCases_where (query : gmap string JsVal) (currentUser : User)
    : Where :=
  let keyword := prop query "keyword" in
  let caseTypeItemId := prop query "caseTypeItemId" in
  let status := prop query "status" in
  let receivedFrom := prop query "receivedFrom" in
  let receivedTo := prop query "receivedTo" in
  let mainOfficerId := prop query "mainOfficerId" in
  let scope :=
    match prop query "scope" with
    | JUndefined => JStr "my"
    | v => v
    end in
  let canViewAll := hasPermission (Some currentUser) "case:view_all" in
  let effectiveScope :=
    if strict_eq scope (JStr "all") && canViewAll then "all" else "my" in
  let acc := {| conditions := []; params := [] |} in
  let acc :=
    push (truthy keyword) "(cr.case_name LIKE ? OR cr.case_no LIKE ?)"
      [Like keyword; Like keyword] acc in
  let acc :=
    push (truthy caseTypeItemId) "cr.case_type_item_id = ?"
      [Value caseTypeItemId] acc in
  let acc := push (truthy status) "cr.status = ?" [Value status] acc in
  let acc :=
    push (truthy receivedFrom) "cr.received_date >= ?" [Value receivedFrom] acc in
  let acc :=
    push (truthy receivedTo) "cr.received_date <= ?" [Value receivedTo] acc in
  let acc :=
    push (truthy mainOfficerId && canViewAll) "cr.main_officer_id = ?"
      [Value mainOfficerId] acc in
  push (String.eqb effectiveScope "my") my_cases
    [Value (user_id currentUser); Value (user_id currentUser)] acc.

(** [conditions.length ? `WHERE ${conditions.join(' AND ')}` : ''] *)
Definition whereSql (w : Where) : string :=
  if bool_decide (0 < length (conditions w))%nat
  then "WHERE " ++ String.concat " AND " (conditions w)
  else EmptyString.

End CaseList.

(* ===================================================================== *)
(** ** src/modules/nineSmall/service.js: the translators of driver
       errors *)
(* ===================================================================== *)

Module NineSmallErrors.

(** [handlePlaceDbError(err)]: it logs the error and always throws. *)
Definition handlePlaceDbError {A} (err : Thrown) : M A :=
  bind (logger_error "DB error in nineSmall.place operation" [err]) (fun _ =>
  if has_code err "ER_DUP_ENTRY"
  then throw (ThrownApp (conflict "九小场所已存在或名称重复" None))
  else if has_code err "ER_NO_REFERENCED_ROW_2"
          || has_code err "ER_ROW_IS_REFERENCED_2"
  then throw (ThrownApp (validationError "关联社区或字典项不存在或已被删除" None))
  else throw (ThrownApp (dbError "九小场所数据库操作失败" None))).

(** [handleInspectionDbError(err)]: it logs the error and always
    throws. *)
Definition handleInspectionDbError {A} (err : Thrown) : M A :=
  bind (logger_error "DB error in nineSmall.inspection operation" [err]) (fun _ =>
  if has_code err "ER_CHECK_CONSTRAINT_VIOLATED" then
    let msg := message_of err in
    if includes msg "rectified_date" && includes msg "inspect_date"
    then throw (ThrownApp (validationError "整改完成时间不能早于巡查时间" None))
    else if includes msg "inspector_not_empty" || includes msg "inspector"
    then throw (ThrownApp
           (validationError "巡查民警或巡查人员姓名至少填写一项" None))
    else throw (ThrownApp
           (validationError "巡查记录数据不符合约束，请检查填写内容" None))
  else if has_code err "ER_NO_REFERENCED_ROW_2"
          || has_code err "ER_ROW_IS_REFERENCED_2"
  then throw (ThrownApp (validationError "关联数据不存在或已被删除" None))
  else throw (ThrownApp (dbError "九小场所巡查记录数据库操作失败" None))).

End NineSmallErrors.

(* ===================================================================== *)
(** ** src/modules/cases/routes.js *)
(* ===================================================================== *)

Module CaseRoutes.

(** The five routes of [createCasesRouter]. *)
Inductive Route : Type :=
| ListCases
| CreateCase
| GetCaseDetail
| UpdateCase
| DeleteCase.

(** The argument of [requirePermission] on each route. *)
Definition required (r : Route) : Middleware.Required :=
  match r with
  | ListCases | GetCaseDetail =>
      Middleware.Several ["case:view_my"; "case:view_all"]
  | CreateCase | UpdateCase | DeleteCase => Middleware.Single "case:create"
  end.

(** The chain [authMiddleware, requirePermission(...)] in front of the
    controller of a route: the router calls the next handler after
    [next()] and leaves the chain after [next(err)]. *)
Definition guard (verifyToken : string → option User) (r : Route)
    (authorization Authorization : option string) : Middleware.Next :=
  match Middleware.auth verifyToken true authorization Authorization with
  | Middleware.Continue user => Middleware.permission (required r) user
  | Middleware.Refuse err => Middleware.Refuse err
  end.

End CaseRoutes.

(* ===================================================================== *)
(** ** Vocabulary of the statements and sample data *)
(* ===================================================================== *)

(** A patch that sets the remark of a place to [null]. *)
Definition remark_null : gmap string JsVal := object [("remark", JNull)].
Definition place_with_remark : gmap string JsVal :=
  object [("name", JStr "Corner shop"); ("address", JStr "1 Main St");
          ("remark", JStr "old")].

(** The deadline rule of [validateCaseBusinessRules] is violated. *)
Definition deadline_before_received (r : gmap string JsVal) : bool :=
  truthy (prop r "deadlineDate") && truthy (prop r "receivedDate")
  && less_than (prop r "deadlineDate") (prop r "receivedDate").

(** The error of the deadline rule. *)
Definition deadline_error : AppError :=
  validationError "办理截止日期不能早于受案日期"
    (Some (FieldErrors {["deadlineDate" := JStr "截止日期不能早于受案日期"]})).

(** The error of the rule on closed cases. *)
Definition closed_error (closedDate resultItemId : JsVal) : AppError :=
  validationError "已结案件必须填写结案日期和结案结果"
    (Some (FieldErrors (object
       [("closedDate", required_if (negb (truthy closedDate)) "结案日期必填");
        ("resultItemId", required_if (isNil resultItemId) "处理结果必填")]))).

(** The error of the rule on transferred cases. *)
Definition transfer_error (transferTarget transferDate : JsVal) : AppError :=
  validationError "移交状态必须填写移交去向和移交时间"
    (Some (FieldErrors (object
       [("transferTarget", required_if (negb (truthy transferTarget)) "移交去向必填");
        ("transferDate", required_if (negb (truthy transferDate)) "移交时间必填")]))).

(** The error of the rule on archived cases. *)
Definition archive_error (archiveLocation archiveDate : JsVal) : AppError :=
  validationError "存档状态必须填写存档位置和存档日期"
    (Some (FieldErrors (object
       [("archiveLocation", required_if (negb (truthy archiveLocation)) "存档位置必填");
        ("archiveDate", required_if (negb (truthy archiveDate)) "存档日期必填")]))).

(** The field-keyed map of an error, empty when it has none. *)
Definition fieldErrors_of (e : AppError) : gmap string JsVal :=
  match details e with
  | Some (FieldErrors fe) => fe
  | _ => ∅
  end.

(** A closed case without closure date and result, whose deadline is
    before the day it was received. *)
Definition closed_and_late : gmap string JsVal :=
  object [("status", JStr "已结"); ("receivedDate", JStr "2024-02-01");
          ("deadlineDate", JStr "2024-01-01")].

(** What a computation that runs inside an open transaction guarantees:
    it leaves the committed tables alone, the transaction stays open,
    [post] relates the pending tables and the counters before and after
    a run that returns, and a run during which the driver raises no
    failure does return. *)
Definition in_tx {A} (m : M A)
    (post : Tables → Counters → A → Tables → Counters → Prop) : Prop :=
  ∀ w t, pending w = Some t →
    committed (m w).2 = committed w ∧
    (∃ t', pending (m w).2 = Some t' ∧
           ∀ a, (m w).1 = Returned a → post t (counters w) a t' (counters (m w).2)) ∧
    (faults w = [] → faults (m w).2 = [] ∧ ∃ a, (m w).1 = Returned a).

(** The row that the loop of [createCase] and [updateCase] inserts for
    one supplied officer. *)
Definition officer_row (case_id next : Z) (officer : gmap string JsVal) : OfficerRow :=
  {| co_id := next; co_case_id := case_id;
     co_officer_id := to_sql (prop officer "officerId");
     co_role := to_sql (or_else (prop officer "role") JNull);
     co_remark := to_sql (or_else (prop officer "remark") JNull) |}.

Fixpoint officer_rows (case_id next : Z) (l : list (gmap string JsVal))
    : list OfficerRow :=
  match l with
  | [] => []
  | officer :: rest =>
      officer_row case_id next officer :: officer_rows case_id (next + 1) rest
  end.

(** Some supplied officer is the main officer. *)
Definition has_main (mainOfficerId : JsVal) (l : list (gmap string JsVal)) : bool :=
  existsb (fun officer => strict_eq (prop officer "officerId") mainOfficerId) l.

(** The row synthesized for the main officer. *)
Definition main_row (case_id next : Z) (mainOfficerId : JsVal) : OfficerRow :=
  {| co_id := next; co_case_id := case_id;
     co_officer_id := to_sql mainOfficerId;
     co_role := JStr "主办"; co_remark := JNull |}.

(** All the officer rows of one write. *)
Definition written_officers (case_id next : Z) (mainOfficerId : JsVal)
    (l : list (gmap string JsVal)) : list OfficerRow :=
  officer_rows case_id next l ++
  (if has_main mainOfficerId l then []
   else [main_row case_id (next + Z.of_nat (length l)) mainOfficerId]).

(** The row inserted for one supplied person. *)
Definition person_row (case_id next : Z) (person : gmap string JsVal) : PersonRow :=
  {| cp_id := next; cp_case_id := case_id;
     cp_name := to_sql (prop person "name");
     cp_id_no := to_sql (or_else (prop person "idNo") JNull);
     cp_contact := to_sql (or_else (prop person "contact") JNull);
     cp_role_item_id := to_sql (prop person "roleItemId");
     cp_remark := to_sql (or_else (prop person "remark") JNull) |}.

Fixpoint person_rows (case_id next : Z) (l : list (gmap string JsVal))
    : list PersonRow :=
  match l with
  | [] => []
  | person :: rest =>
      person_row case_id next person :: person_rows case_id (next + 1) rest
  end.

(** The tables after all the writes of [createCase]: the parent row, the
    officer rows and the person rows. *)
Definition createCase_effect (data : CaseData) (t : Tables) (c : Counters) : Tables :=
  set_case_persons
    (case_persons t ++
     person_rows (auto_case c) (auto_person c) (as_list (persons data)))
    (set_case_officers
       (case_officers t ++
        written_officers (auto_case c) (auto_officer c)
          (prop (fields data) "mainOfficerId") (as_list (officers data)))
       (set_case_records
          (<[auto_case c := bound_columns (case_params (fields data))]>
             (case_records t)) t)).

(** The tables after all the writes of [updateCase]: the parent row and,
    for each child collection that the payload defines, its rows. *)
Definition updateCase_effect (id : Z) (merged : gmap string JsVal)
    (data : CaseData) (t : Tables) (c : Counters) : Tables :=
  let t1 :=
    set_case_records
      (alter (fun cols => bound_columns (case_params merged) ∪ cols) id
         (case_records t)) t in
  let t2 :=
    if is_defined (officers data)
    then set_case_officers
           (filter (fun r => co_case_id r ≠ id) (case_officers t) ++
            written_officers id (auto_officer c) (prop merged "mainOfficerId")
              (as_list (officers data))) t1
    else t1 in
  if is_defined (persons data)
  then set_case_persons
         (filter (fun r => cp_case_id r ≠ id) (case_persons t) ++
          person_rows id (auto_person c) (as_list (persons data))) t2
  else t2.

(** The tables after the write of [deleteCase]. *)
Definition deleteCase_effect (id : Z) (t : Tables) : Tables :=
  set_case_persons (filter (fun r => cp_case_id r ≠ id) (case_persons t))
    (set_case_officers (filter (fun r => co_case_id r ≠ id) (case_officers t))
       (set_case_records (delete id (case_records t)) t)).

(** A step that leaves the tables, the open transaction and the
    counters as they are. *)
Definition quiet (w w' : World) : Prop :=
  committed w' = committed w ∧ pending w' = pending w ∧ counters w' = counters w.

(** An engine with empty tables, no open transaction and no failure
    scheduled. *)
Definition empty_tables : Tables :=
  {| case_records := ∅; case_officers := []; case_persons := [];
     police_officers := [] |}.

Definition fresh_world : World :=
  {| committed := empty_tables; pending := None;
     counters := {| auto_case := 1; auto_officer := 1; auto_person := 1;
                    auto_police_officer := 1 |};
     faults := []; logs := [] |}.

(** Officer 7 and officer 8; neither holds [case:view_all]. *)
Definition officer7 : User :=
  {| user_id := JNum 7; permissions := Some ["case:create"; "case:view_my"] |}.
Definition officer8 : User :=
  {| user_id := JNum 8; permissions := Some ["case:create"; "case:view_my"] |}.

(** The case of the example: main officer 7, and officer 7 supplied
    without a role. *)
Definition example_case : CaseData :=
  {| fields := object [("caseNo", JStr "C-001"); ("caseName", JStr "Burglary");
                       ("caseTypeItemId", JNum 3); ("mainOfficerId", JNum 7);
                       ("status", JStr "在办");
                       ("receivedDate", JStr "2024-01-01")];
     officers := Items [object [("officerId", JNum 7)]];
     persons := Items [object [("name", JStr "Wang"); ("roleItemId", JNum 2)]] |}.

(** The engine once officer 7 has created the example case (its id
    is 1). *)
Definition world_with_case : World :=
  (createCase example_case officer7 fresh_world).2.

(** A patch that renames the case and supplies both child collections as
    empty lists. *)
Definition empty_children : CaseData :=
  {| fields := object [("caseName", JStr "Burglary at night")];
     officers := Items [];
     persons := Items [] |}.

(** A patch that renames the case and supplies no child collection. *)
Definition rename_only : CaseData :=
  {| fields := object [("caseName", JStr "Burglary at night")];
     officers := Missing;
     persons := Missing |}.

(** A failure of the driver. *)
Definition deadlock : RawError :=
  {| raw_name := "Error";
     raw_message := "Deadlock found when trying to get lock";
     raw_stack := "Error: Deadlock found when trying to get lock";
     code := Some "ER_LOCK_DEADLOCK";
     sqlMessage := Some "Deadlock found when trying to get lock";
     isJoi := false; joi_details := None |}.


(** The record that [createCase] hands to [validateCaseBusinessRules]. *)
Definition caseForCheck (data : CaseData) : gmap string JsVal :=
  object
    [("receivedDate", prop (fields data) "receivedDate");
     ("deadlineDate", prop (fields data) "deadlineDate");
     ("status", or_else (prop (fields data) "status") (JStr "在办"));
     ("closedDate", prop (fields data) "closedDate");
     ("resultItemId", prop (fields data) "resultItemId");
     ("transferTarget", prop (fields data) "transferTarget");
     ("transferDate", prop (fields data) "transferDate");
     ("archiveLocation", prop (fields data) "archiveLocation");
     ("archiveDate", prop (fields data) "archiveDate")].

(** The record is closed and lacks its closure date or its result. *)
Definition closed_incomplete (r : gmap string JsVal) : Prop :=
  prop r "status" = JStr "已结"
  ∧ negb (truthy (prop r "closedDate")) || isNil (prop r "resultItemId") = true.

(** A payload for a closed case without closure date and result, whose
    deadline is before the day it was received. *)
Definition late_closed_case : CaseData :=
  {| fields := object [("caseNo", JStr "C-002"); ("caseName", JStr "Fraud");
                       ("caseTypeItemId", JNum 3); ("mainOfficerId", JNum 7);
                       ("status", JStr "已结");
                       ("receivedDate", JStr "2024-02-01");
                       ("deadlineDate", JStr "2024-01-01")];
     officers := Missing;
     persons := Missing |}.

(** A patch that closes a case and says nothing else. *)
Definition close_only : CaseData :=
  {| fields := object [("status", JStr "已结")];
     officers := Missing;
     persons := Missing |}.

(** The stored example case, as [updateCase] selects it. *)
Definition stored_example_case : gmap string JsVal :=
  default ∅ (head (select_case case_aliases 1 (committed world_with_case))).

(** A case whose main officer is officer 7 and on which officer 8
    assists. *)
Definition shared_case : CaseData :=
  {| fields := object [("caseNo", JStr "C-003"); ("caseName", JStr "Theft");
                       ("caseTypeItemId", JNum 3); ("mainOfficerId", JNum 7);
                       ("receivedDate", JStr "2024-03-01")];
     officers := Items [object [("officerId", JNum 7); ("role", JStr "主办")];
                        object [("officerId", JNum 8); ("role", JStr "协办")]];
     persons := Missing |}.

Definition world_with_shared_case : World :=
  (createCase shared_case officer7 fresh_world).2.

(** The caller is the main officer of the case, or has a row in
    [case_officers] for it. *)
Definition is_main_officer (caseRow : gmap string JsVal) (u : User) : bool :=
  strict_eq (prop caseRow "mainOfficerId") (user_id u).

Definition participates (id : Z) (u : User) (t : Tables) : bool :=
  bool_decide (0 < length (select_participation id (user_id u) t))%nat.

(** Officer 9 has nothing to do with the shared case. *)
Definition officer9 : User :=
  {| user_id := JNum 9; permissions := Some ["case:create"; "case:view_my"] |}.

(** The select list of [deleteCase]. *)
Definition delete_aliases : list (string * string) :=
  [("mainOfficerId", "main_officer_id"); ("status", "status")].

(** The shared case, as [getCaseDetail] and [updateCase] select it. *)
Definition stored_shared_case : gmap string JsVal :=
  default ∅ (head (select_case case_aliases 1 (committed world_with_shared_case))).

(** The account that [findOfficerByBadgeNo] finds. *)
Definition stored_officer (badgeNo : JsVal) (t : Tables) : option (gmap string JsVal) :=
  head (filter
          (fun row => column row "badge_no" = to_sql badgeNo
                      ∧ to_sql badgeNo ≠ JNull)
          (police_officers t)).

(** What [loadRolesAndPermissions] loads for an account. *)
Definition loaded_extra (ext : Auth.Externals) (officerId : JsVal) : Auth.Extra :=
  let roleRows := Auth.role_rows ext officerId in
  {| Auth.roleIds := map Auth.role_id roleRows;
     Auth.roles := map Auth.role_code roleRows;
     Auth.roleNames := map Auth.role_name roleRows;
     Auth.permissions :=
       if bool_decide (0 < length (map Auth.role_id roleRows))%nat
       then Auth.permission_codes ext (map Auth.role_id roleRows)
       else [] |}.

(** Collaborators for the examples: a hash that marks the password, a
    token that is a constant, and officer 5 holding one role. *)
Definition sample_externals : Auth.Externals :=
  {| Auth.bcrypt_hash :=
       fun p => match p with JStr s => JStr ("$2a$10$" ++ s) | _ => JNull end;
     Auth.bcrypt_compare :=
       fun p h => match p with
                  | JStr s => bool_decide (h = JStr ("$2a$10$" ++ s))
                  | _ => false
                  end;
     Auth.jwt_sign := fun _ => "header.claims.signature";
     Auth.role_rows :=
       fun officerId =>
         if bool_decide (officerId = JNum 5)
         then [ {| Auth.role_id := JNum 2; Auth.role_code := "OFFICER";
                   Auth.role_name := "Officer" |} ]
         else [];
     Auth.permission_codes := fun _ => ["case:view_my"; "case:create"] |}.

(** An account that is neither active nor locked. *)
Definition inactive_account : gmap string JsVal :=
  object [("id", JNum 5); ("name", JStr "Zhao"); ("badge_no", JStr "P005");
          ("phone", JNull); ("status", JStr "INACTIVE"); ("is_active", JNum 0);
          ("password_hash", JStr "$2a$10$secret")].

Definition world_with_inactive_account : World :=
  {| committed := set_police_officers [inactive_account] empty_tables;
     pending := None;
     counters := {| auto_case := 1; auto_officer := 1; auto_person := 1;
                    auto_police_officer := 6 |};
     faults := []; logs := [] |}.

Definition login_payload : gmap string JsVal :=
  object [("badgeNo", JStr "P005"); ("password", JStr "secret")].

(** The duplicate-key failure of the driver on [police_officers]. *)
Definition duplicate_badge : RawError :=
  {| raw_name := "Error";
     raw_message := "Duplicate entry 'P100' for key 'police_officers.uk_badge_no'";
     raw_stack := "Error: Duplicate entry 'P100' for key 'police_officers.uk_badge_no'";
     code := Some "ER_DUP_ENTRY";
     sqlMessage := Some "Duplicate entry 'P100' for key 'police_officers.uk_badge_no'";
     isJoi := false; joi_details := None |}.

Definition register_payload : gmap string JsVal :=
  object [("badgeNo", JStr "P100"); ("name", JStr "Sun");
          ("password", JStr "secret")].

(** The race: the pre-flight query of [register] finds no account with
    the badge number, and the insert meets the duplicate key, another
    request having registered the same badge number in between. *)
Definition world_racing_registration : World :=
  set_faults [None; Some duplicate_badge] world_with_inactive_account.

(** The response of [errorHandler] to an error that it does not
    classify. *)
Definition internal_error_response (isProduction : bool) : ErrorHandler.Response :=
  {| ErrorHandler.response_status := 500;
     ErrorHandler.response_json :=
       {| ErrorHandler.success := false;
          ErrorHandler.payload_errorCode := INTERNAL_ERROR;
          ErrorHandler.payload_message := "服务器内部错误";
          ErrorHandler.payload_details := None;
          ErrorHandler.payload_stack :=
            if isProduction then None
            else Some (stack (internalError "服务器内部错误" None)) |} |}.

(** An exception that is neither an [AppError] nor a Joi or JWT error. *)
Definition type_error : RawError :=
  {| raw_name := "TypeError";
     raw_message := "Cannot read properties of undefined (reading 'id')";
     raw_stack := "TypeError: Cannot read properties of undefined (reading 'id')";
     code := None; sqlMessage := None; isJoi := false; joi_details := None |}.

(* ===================================================================== *)
(** ** Vocabulary and sample data for the other functions *)
(* ===================================================================== *)

(** The string holds a space. *)
Fixpoint has_space (s : string) : bool :=
  match s with
  | EmptyString => false
  | String c s' => Ascii.eqb c Ascii.Space || has_space s'
  end.

(** A verifier of tokens that knows one token, the one of officer 7. *)
Definition sample_verifyToken (token : string) : option User :=
  if String.eqb token "header.claims.signature" then Some officer7 else None.

(** A computation that never writes: whatever the driver does, it leaves
    the tables, the open transaction and the counters as they are. *)
Definition read_only {A} (m : M A) : Prop := ∀ w, quiet w (m w).2.

(** The error of [login] for an unknown badge number and for a wrong
    password. *)
Definition bad_credentials : Thrown :=
  ThrownApp (unauthorized "警号或密码错误" None).

(** The account that [register] inserts. *)
Definition registered_account (ext : Auth.Externals) (payload : gmap string JsVal)
    (c : Counters) : gmap string JsVal :=
  object [("id", JNum (auto_police_officer c));
          ("name", to_sql (prop payload "name"));
          ("badge_no", to_sql (prop payload "badgeNo"));
          ("phone", to_sql (or_else (prop payload "phone") JNull));
          ("status", JStr "ACTIVE");
          ("is_active", JNum 1);
          ("password_hash", to_sql (Auth.bcrypt_hash ext (prop payload "password")))].

(** The payload has the three fields that [register] requires. *)
Definition registrable (payload : gmap string JsVal) : bool :=
  truthy (prop payload "badgeNo") && truthy (prop payload "name")
  && truthy (prop payload "password").

(** The accounts after the password of [officerId] was set to
    [newHash]. *)
Definition with_password_hash (newHash officerId : JsVal)
    (rows : list (gmap string JsVal)) : list (gmap string JsVal) :=
  map (fun row =>
         if decide (Accounts.has_id officerId row)
         then <["password_hash" := to_sql newHash]> row
         else row) rows.

(** The accounts after [officerId] was locked at time [now]. *)
Definition with_locked (now officerId : JsVal)
    (rows : list (gmap string JsVal)) : list (gmap string JsVal) :=
  map (fun row =>
         if decide (Accounts.has_id officerId row)
         then <["updated_at" := to_sql now]>
                (<["is_active" := JNum 0]> (<["status" := JStr "LOCKED"]> row))
         else row) rows.

(** The account with the given id that the statements of
    [changePassword] and [deleteOfficer] select. *)
Definition officer_with_id (officerId : JsVal) (t : Tables)
    : option (gmap string JsVal) :=
  head (filter (Accounts.has_id officerId) (police_officers t)).

(** The payload of a password change. *)
Definition password_change : gmap string JsVal :=
  object [("oldPassword", JStr "secret"); ("newPassword", JStr "fresh")].

Definition login_with_new_password : gmap string JsVal :=
  object [("badgeNo", JStr "P005"); ("password", JStr "fresh")].

(** A stored case as the select list of [getCaseDetail] and [updateCase]
    shows it. *)
Definition case_view (id : Z) (cols : gmap string JsVal) : gmap string JsVal :=
  object (("id", JNum id) :: map (fun ac => (ac.1, column cols ac.2)) case_aliases).

(** The caller may read and write the case that a payload describes:
    they hold [case:view_all] or are its main officer. *)
Definition owns (u : User) (data : CaseData) : Prop :=
  hasPermission (Some u) "case:view_all" = true
  ∨ user_id u = to_sql (prop (fields data) "mainOfficerId").

(** No row of the tables carries the id. *)
Definition unused_id (id : Z) (t : Tables) : Prop :=
  case_records t !! id = None
  ∧ Forall (fun r => co_case_id r ≠ id) (case_officers t)
  ∧ Forall (fun r => cp_case_id r ≠ id) (case_persons t).

(** The driver codes that [handleCaseDbError] recognises. *)
Definition codes_of_handleCaseDbError : list string :=
  ["ER_DUP_ENTRY"; "ER_CHECK_CONSTRAINT"; "ER_NO_REFERENCED_ROW_2";
   "ER_ROW_IS_REFERENCED_2"].

(** The engine with the example case, on which the next call into the
    driver fails with a deadlock. *)
Definition world_failing_at_once : World :=
  set_faults [Some deadlock] world_with_case.





(** The number of placeholders, the question marks, of a statement. *)
Fixpoint count_placeholders (s : string) : nat :=
  match s with
  | EmptyString => 0
  | String c s' =>
      (if Ascii.eqb c (Ascii.ascii_of_nat 63) then 1 else 0)
      + count_placeholders s'
  end%nat.

(** The query of an officer who asks for all cases and for the cases of
    officer 8. *)
Definition query_for_all : gmap string JsVal :=
  object [("scope", JStr "all"); ("mainOfficerId", JNum 8);
          ("status", JStr "在办")].

(** A check-constraint failure of the driver, under the code that
    [handleInspectionDbError] tests. *)
Definition check_violated : RawError :=
  {| raw_name := "Error";
     raw_message := "Check constraint 'chk_case_closed' is violated.";
     raw_stack := "Error: Check constraint 'chk_case_closed' is violated.";
     code := Some "ER_CHECK_CONSTRAINT_VIOLATED";
     sqlMessage := Some "Check constraint 'chk_case_closed' is violated.";
     isJoi := false; joi_details := None |}.

(** The texts that the translators of the nine-small service put in
    their errors. *)
Definition texts_of_nineSmall : list string :=
  ["九小场所已存在或名称重复"; "关联社区或字典项不存在或已被删除";
   "九小场所数据库操作失败"; "整改完成时间不能早于巡查时间";
   "巡查民警或巡查人员姓名至少填写一项";
   "巡查记录数据不符合约束，请检查填写内容"; "关联数据不存在或已被删除";
   "九小场所巡查记录数据库操作失败"].

(** The properties of a case that [createCase] and [updateCase] bind as
    they are; the other ones are bound as [value || null], and the
    status as [value || '在办']. *)
Definition required_aliases : list string :=
  ["caseNo"; "caseName"; "caseTypeItemId"; "mainOfficerId"; "receivedDate"].

(** What [updateCase] stores in a column whose property the payload does
    not name, given the stored value. *)
Definition kept_value (alias : string) (stored : JsVal) : JsVal :=
  if existsb (String.eqb alias) required_aliases then to_sql stored
  else if String.eqb alias "status" then or_else stored (JStr "在办")
  else to_sql (or_else stored JNull).

(** A patch that names nothing. *)
Definition empty_patch : CaseData :=
  {| fields := ∅; officers := Missing; persons := Missing |}.

(* ===================================================================== *)
(** * Verification *)
(* ===================================================================== *)

(** ** Reading the properties of object literals *)

Lemma prop_insert_eq (o : gmap string JsVal) k v : prop (<[k := v]> o) k = v.
Proof. unfold prop. by rewrite lookup_insert_eq. Qed.

Lemma prop_insert_ne (o : gmap string JsVal) k k' v :
  k ≠ k' → prop (<[k := v]> o) k' = prop o k'.
Proof. intros Hne. unfold prop. by rewrite lookup_insert_ne. Qed.

Lemma prop_absent (o : gmap string JsVal) k : o !! k = None → prop o k = JUndefined.
Proof. intros H. unfold prop. by rewrite H. Qed.

Lemma prop_present (o : gmap string JsVal) k v : o !! k = Some v → prop o k = v.
Proof. intros H. unfold prop. by rewrite H. Qed.

(** Reads a property of a literal whose keys are constants. *)
Ltac read_object :=
  unfold object;
  cbn [reverse rev_append list_to_map foldr fst snd];
  repeat (rewrite prop_insert_ne by discriminate);
  rewrite ?prop_insert_eq.

(** Splits a membership in a list of constants into its cases. *)
Ltac each_member H :=
  repeat (apply elem_of_cons in H as [H | H]);
  try (apply elem_of_nil in H; contradiction);
  injection H as -> ->.

(** ** C4: the merge of a partial update *)

Lemma if_defined_absent (o : gmap string JsVal) k d :
  o !! k = None → if_defined (prop o k) d = d.
Proof. intros H. by rewrite (prop_absent _ _ H). Qed.

Lemma if_defined_present (o : gmap string JsVal) k v d :
  o !! k = Some v → v ≠ JUndefined → if_defined (prop o k) d = v.
Proof. intros H Hv. rewrite (prop_present _ _ _ H). by destruct v. Qed.

Lemma coalesce_absent (o : gmap string JsVal) k d :
  o !! k = None → coalesce (prop o k) d = d.
Proof. intros H. by rewrite (prop_absent _ _ H). Qed.

Lemma coalesce_present (o : gmap string JsVal) k v d :
  o !! k = Some v → isNil v = false → coalesce (prop o k) d = v.
Proof. intros H Hv. rewrite (prop_present _ _ _ H). unfold coalesce. by rewrite Hv. Qed.

Lemma coalesce_null (o : gmap string JsVal) k d :
  o !! k = Some JNull → coalesce (prop o k) d = d.
Proof. intros H. by rewrite (prop_present _ _ _ H). Qed.

(** For a case the merged record is the spread of the stored record and
    of the patch. *)
Lemma mergedCase_lookup (existing : gmap string JsVal) (d : CaseData) k :
  mergedCase existing d !! k =
  match fields d !! k with
  | Some v => Some v
  | None => existing !! k
  end.
Proof.
  unfold mergedCase, spread. destruct (fields d !! k) as [v|] eqn:E.
  - by apply lookup_union_Some_l.
  - by rewrite lookup_union_r.
Qed.

(** C4 (amended).  In a partial update the merged record keeps the stored
    value of every field that the patch lacks.  A field that the patch
    holds replaces the stored value: always for a case (a spread, so
    [null] replaces too); for an inspection when the value is not
    [undefined] ([null] replaces), [hasHiddenDanger] being taken only
    when it is a boolean; for a place when the value is neither
    [undefined] nor [null], an explicit [null] replacing the stored value
    of [communityId] and [typeItemId] only and keeping it for the seven
    fields merged with [??]. *)
Theorem C4_merged_record (data existing : gmap string JsVal) :
  (∀ (d : CaseData) k,
     fields d !! k = None → mergedCase existing d !! k = existing !! k) ∧
  (∀ (d : CaseData) k v,
     fields d !! k = Some v → mergedCase existing d !! k = Some v) ∧
  (∀ p c, (p, c) ∈ inspection_fields →
     (data !! p = None →
      prop (updateInspection_merged data existing) p = prop existing c) ∧
     (∀ v, data !! p = Some v → v ≠ JUndefined →
      prop (updateInspection_merged data existing) p = v)) ∧
  ((data !! "hasHiddenDanger" = None →
    prop (updateInspection_merged data existing) "hasHiddenDanger" =
    JBool (strict_eq (prop existing "has_hidden_danger") (JNum 1))) ∧
   (∀ b, data !! "hasHiddenDanger" = Some (JBool b) →
    prop (updateInspection_merged data existing) "hasHiddenDanger" = JBool b)) ∧
  (∀ p c, (p, c) ∈ place_fields →
     (data !! p = None →
      prop (updatePlace_merged data existing) p = prop existing c) ∧
     (∀ v, data !! p = Some v → isNil v = false →
      prop (updatePlace_merged data existing) p = v) ∧
     (data !! p = Some JNull →
      prop (updatePlace_merged data existing) p =
      if bool_decide (p = "communityId" ∨ p = "typeItemId")
      then JNull else prop existing c)).
Proof.
  split; [| split; [| split; [| split] ] ].
  - intros d k H. by rewrite mergedCase_lookup, H.
  - intros d k v H. by rewrite mergedCase_lookup, H.
  - intros p c Hin. each_member Hin;
      (split; [intros H | intros v H Hv]);
      unfold updateInspection_merged; read_object;
      first [ by apply if_defined_absent | by apply if_defined_present ].
  - split; [intros H | intros b H];
      unfold updateInspection_merged; read_object.
    + by rewrite (prop_absent _ _ H).
    + by rewrite (prop_present _ _ _ H).
  - intros p c Hin. each_member Hin;
      (split; [intros H | split; [intros v H Hv | intros H] ]);
      unfold updatePlace_merged; read_object;
      first [ by apply if_defined_absent
            | by apply coalesce_absent
            | by apply coalesce_present
            | by (apply if_defined_present; [| destruct v])
            | by rewrite (prop_present _ _ _ H)
            | by (rewrite (coalesce_null _ _ _ H)) ].
Qed.

Lemma C4_merged_record_witness :
  prop (updatePlace_merged remark_null place_with_remark) "name"
  = prop place_with_remark "name".
Proof.
  destruct (C4_merged_record remark_null place_with_remark)
    as (_ & _ & _ & _ & Hplace).
  destruct (Hplace "name" "name") as [Habsent _].
  - unfold place_fields. apply elem_of_cons. by left.
  - apply Habsent. vm_compute. reflexivity.
Defined.

(** C4 as stated fails for a place: an explicit [null] for [remark] does
    not replace the stored remark. *)
Lemma C4_place_null_is_ignored :
  ¬ (∀ (data existing : gmap string JsVal) p c v,
       (p, c) ∈ place_fields → data !! p = Some v →
       prop (updatePlace_merged data existing) p = v).
Proof.
  intros H.
  specialize (H remark_null place_with_remark "remark" "remark" JNull).
  assert (Hin : ("remark", "remark") ∈ place_fields).
  { unfold place_fields. repeat (first [ by apply list_elem_of_here | apply list_elem_of_further ]). }
  specialize (H Hin eq_refl).
  vm_compute in H. discriminate H.
Qed.

(** ** C6 and C5: the business rules of a case *)

Lemma validate_deadline (r : gmap string JsVal) :
  deadline_before_received r = true →
  validateCaseBusinessRules r = Threw (ThrownApp deadline_error).
Proof.
  intros H. unfold deadline_before_received in H.
  unfold validateCaseBusinessRules. cbv zeta. rewrite H.
  cbn [throw_if and_then]. unfold deadline_error, object.
  cbn [reverse rev_append list_to_map foldr fst snd].
  by rewrite insert_empty.
Qed.

Lemma validate_closed (r : gmap string JsVal) :
  deadline_before_received r = false →
  prop r "status" = JStr "已结" →
  negb (truthy (prop r "closedDate")) || isNil (prop r "resultItemId") = true →
  validateCaseBusinessRules r =
  Threw (ThrownApp (closed_error (prop r "closedDate") (prop r "resultItemId"))).
Proof.
  intros Hd Hs Hm. unfold deadline_before_received in Hd.
  unfold validateCaseBusinessRules. cbv zeta. rewrite Hd, Hs, Hm.
  reflexivity.
Qed.

Lemma validate_transfer (r : gmap string JsVal) :
  deadline_before_received r = false →
  prop r "status" = JStr "移交" →
  negb (truthy (prop r "transferTarget"))
  || negb (truthy (prop r "transferDate")) = true →
  validateCaseBusinessRules r =
  Threw (ThrownApp (transfer_error (prop r "transferTarget") (prop r "transferDate"))).
Proof.
  intros Hd Hs Hm. unfold deadline_before_received in Hd.
  unfold validateCaseBusinessRules. cbv zeta. rewrite Hd, Hs, Hm.
  reflexivity.
Qed.

Lemma validate_archive (r : gmap string JsVal) :
  deadline_before_received r = false →
  prop r "status" = JStr "存档" →
  negb (truthy (prop r "archiveLocation"))
  || negb (truthy (prop r "archiveDate")) = true →
  validateCaseBusinessRules r =
  Threw (ThrownApp (archive_error (prop r "archiveLocation") (prop r "archiveDate"))).
Proof.
  intros Hd Hs Hm. unfold deadline_before_received in Hd.
  unfold validateCaseBusinessRules. cbv zeta. rewrite Hd, Hs, Hm.
  reflexivity.
Qed.

(** C6 (amended).  [validateCaseBusinessRules] reports the first violated
    rule only.  When the deadline precedes the received date, the
    ValidationError carries the key [deadlineDate] alone, whatever
    status-gated fields are missing as well.  Otherwise the error is that
    of the status-gated rule, and its map has an entry for each of the
    two fields of that rule, with a message for every missing one. *)
Theorem C6_first_violated_rule (r : gmap string JsVal) :
  (deadline_before_received r = true →
   validateCaseBusinessRules r = Threw (ThrownApp deadline_error)
   ∧ errorCode deadline_error = VALIDATION_ERROR
   ∧ ∀ k, k ≠ "deadlineDate" → fieldErrors_of deadline_error !! k = None) ∧
  (deadline_before_received r = false →
   (prop r "status" = JStr "已结" →
    negb (truthy (prop r "closedDate")) || isNil (prop r "resultItemId") = true →
    validateCaseBusinessRules r =
    Threw (ThrownApp (closed_error (prop r "closedDate") (prop r "resultItemId")))) ∧
   (prop r "status" = JStr "移交" →
    negb (truthy (prop r "transferTarget"))
    || negb (truthy (prop r "transferDate")) = true →
    validateCaseBusinessRules r =
    Threw (ThrownApp
             (transfer_error (prop r "transferTarget") (prop r "transferDate")))) ∧
   (prop r "status" = JStr "存档" →
    negb (truthy (prop r "archiveLocation"))
    || negb (truthy (prop r "archiveDate")) = true →
    validateCaseBusinessRules r =
    Threw (ThrownApp
             (archive_error (prop r "archiveLocation") (prop r "archiveDate"))))).
Proof.
  split.
  - intros H. split; [by apply validate_deadline | split; [done |] ].
    intros k Hk. unfold fieldErrors_of, deadline_error. cbn.
    by apply lookup_singleton_ne.
  - intros Hd. repeat split; intros Hs Hm.
    + by apply validate_closed.
    + by apply validate_transfer.
    + by apply validate_archive.
Qed.

Lemma C6_first_violated_rule_witness :
  validateCaseBusinessRules closed_and_late = Threw (ThrownApp deadline_error).
Proof.
  destruct (C6_first_violated_rule closed_and_late) as [Hfirst _].
  apply Hfirst. vm_compute. reflexivity.
Defined.

(** C6 as stated fails: for a closed case that lacks both closure fields
    and whose deadline precedes the received date, the error names the
    deadline only; the keys of the two missing closure fields are not in
    its map. *)
Lemma C6_only_first_rule_reported :
  ∃ e, validateCaseBusinessRules closed_and_late = Threw (ThrownApp e)
       ∧ prop closed_and_late "status" = JStr "已结"
       ∧ truthy (prop closed_and_late "closedDate") = false
       ∧ isNil (prop closed_and_late "resultItemId") = true
       ∧ fieldErrors_of e !! "closedDate" = None
       ∧ fieldErrors_of e !! "resultItemId" = None.
Proof.
  exists deadline_error. repeat split; vm_compute; reflexivity.
Qed.

(** ** Computations inside a transaction *)

Lemma in_tx_ret {A} (a : A) :
  in_tx (ret a) (λ t c a' t' c', a' = a ∧ t' = t ∧ c' = c).
Proof.
  intros w t Hp. cbn. split; [done |]. split.
  - exists t. split; [done |]. by intros a' [= <-].
  - intros Hf. split; [done |]. by exists a.
Qed.

Lemma in_tx_bind {A B} (m : M A) (f : A → M B) P Q :
  in_tx m P → (∀ a, in_tx (f a) (Q a)) →
  in_tx (bind m f)
    (λ t c b t2 c2, ∃ a t1 c1, P t c a t1 c1 ∧ Q a t1 c1 b t2 c2).
Proof.
  intros Hm Hf w t Hp. unfold bind.
  destruct (Hm w t Hp) as (Hc & (t1 & Hp1 & Hpost) & Hfree).
  destruct (m w) as [[a|err] w1] eqn:E; cbn in *.
  - destruct (Hf a w1 t1 Hp1) as (Hc2 & (t2 & Hp2 & Hpost2) & Hfree2).
    split; [congruence |]. split.
    + exists t2. split; [done |]. intros b Hb.
      exists a, t1, (counters w1). split; [by apply Hpost | by apply Hpost2].
    + intros H0. destruct (Hfree H0) as [H1 _]. by apply Hfree2.
  - split; [done |]. split.
    + exists t1. split; [done |]. by intros b.
    + intros H0. destruct (Hfree H0) as [_ [a Ha] ]. discriminate Ha.
Qed.

Lemma in_tx_weaken {A} (m : M A) (P Q : Tables → Counters → A → Tables → Counters → Prop) :
  in_tx m P → (∀ t c a t' c', P t c a t' c' → Q t c a t' c') → in_tx m Q.
Proof.
  intros Hm HPQ w t Hp.
  destruct (Hm w t Hp) as (Hc & (t1 & Hp1 & Hpost) & Hfree).
  split; [done |]. split; [| done].
  exists t1. split; [done |]. intros a Ha. by apply HPQ, Hpost.
Qed.

Lemma in_tx_conn_query {A} (stmt : Tables → Counters → A * Tables * Counters) :
  in_tx (conn_query stmt) (λ t c a t' c', stmt t c = (a, t', c')).
Proof.
  intros w t Hp. unfold conn_query, driver.
  destruct (faults w) as [|[e|] rest] eqn:Ef; cbn; rewrite ?Hp;
    destruct (stmt t (counters w)) as [[a t'] c'] eqn:Es; cbn.
  - split; [done |]. split.
    + exists t'. split; [done |]. by intros a' [= <-].
    + intros _. split; [done |]. by exists a.
  - split; [done |]. split.
    + exists t. split; [done |]. by intros a'.
    + by intros.
  - split; [done |]. split.
    + exists t'. split; [done |]. by intros a' [= <-].
    + by intros.
Qed.

(** ** The three transactions of the case aggregate *)

(** Unfolds the setters of the tables and of the counters. *)
Ltac tables_simpl :=
  unfold set_case_persons, set_case_officers, set_case_records,
    set_police_officers, set_auto_case, set_auto_officer, set_auto_person,
    set_auto_police_officer in *;
  cbn [case_records case_officers case_persons police_officers
       auto_case auto_officer auto_person auto_police_officer] in *.

(** Closes an equation between tables. *)
Ltac tables_done :=
  simplify_eq; tables_simpl;
  repeat match goal with
         | t : Tables |- _ => destruct t
         | c : Counters |- _ => destruct c
         end;
  tables_simpl; simplify_eq; try reflexivity; try congruence.

Lemma in_tx_insert_officers case_id main l b :
  in_tx (insert_officers case_id main l b)
    (λ t c a t' c',
       a = b || has_main main l
       ∧ t' = set_case_officers
                (case_officers t ++ officer_rows case_id (auto_officer c) l) t
       ∧ c' = set_auto_officer (auto_officer c + Z.of_nat (length l)) c).
Proof.
  revert b. induction l as [|officer rest IH]; intros b.
  - eapply in_tx_weaken; [apply in_tx_ret |].
    intros t c a t' c' (-> & -> & ->). cbn [has_main existsb officer_rows length].
    rewrite orb_false_r, app_nil_r, Z.add_0_r.
    by destruct t, c.
  - cbn [insert_officers].
    eapply in_tx_weaken; [eapply in_tx_bind; [apply in_tx_conn_query | intros ?; apply IH] |].
    intros t c a t' c' ([] & t1 & c1 & Hs & -> & -> & ->).
    unfold insert_officer in Hs. injection Hs as <- <-.
    cbn [has_main existsb officer_rows length].
    split; [| split].
    + fold (has_main main rest).
      by destruct (strict_eq (prop officer "officerId") main), b.
    + destruct t, c. cbn. by rewrite <- app_assoc.
    + destruct c. unfold set_auto_officer. cbn. f_equal. lia.
Qed.

Lemma in_tx_write_officers case_id main l :
  in_tx (write_officers case_id main l)
    (λ t c _ t' c',
       t' = set_case_officers
              (case_officers t ++ written_officers case_id (auto_officer c) main l) t
       ∧ auto_case c' = auto_case c ∧ auto_person c' = auto_person c).
Proof.
  unfold write_officers.
  eapply in_tx_weaken.
  - eapply in_tx_bind; [apply in_tx_insert_officers |].
    intros hasMain.
    instantiate (1 := λ hasMain t1 c1 _ t2 c2,
      if hasMain then t2 = t1 ∧ c2 = c1
      else insert_officer case_id main (JStr "主办") JNull t1 c1 = (tt, t2, c2)).
    destruct hasMain; cbn [negb].
    + eapply in_tx_weaken; [apply in_tx_ret |]. by intros t c a t' c' (_ & -> & ->).
    + eapply in_tx_weaken; [apply in_tx_conn_query |].
      intros t c [] t' c' H. exact H.
  - intros t c [] t' c' (hasMain & t1 & c1 & (-> & -> & ->) & H).
    unfold written_officers. cbn [orb] in *.
    destruct (has_main main l).
    + destruct H as [-> ->]. rewrite app_nil_r. by destruct c.
    + unfold insert_officer in H. injection H as <- <-.
      destruct t, c. cbn. by rewrite <- app_assoc.
Qed.

Lemma in_tx_insert_persons case_id l :
  in_tx (insert_persons case_id l)
    (λ t c _ t' c',
       t' = set_case_persons
              (case_persons t ++ person_rows case_id (auto_person c) l) t
       ∧ auto_case c' = auto_case c ∧ auto_officer c' = auto_officer c).
Proof.
  induction l as [|person rest IH].
  - eapply in_tx_weaken; [apply in_tx_ret |].
    intros t c a t' c' (_ & -> & ->). cbn [person_rows].
    rewrite app_nil_r. by destruct t.
  - cbn [insert_persons].
    eapply in_tx_weaken; [eapply in_tx_bind; [apply in_tx_conn_query | intros ?; apply IH] |].
    intros t c [] t' c' ([] & t1 & c1 & Hs & -> & H1 & H2).
    unfold insert_person in Hs. injection Hs as <- <-.
    cbn [person_rows]. destruct t, c. cbn in *. by rewrite <- app_assoc.
Qed.

Lemma in_tx_createCase_transaction data :
  in_tx (createCase_transaction data)
    (λ t c a t' c', a = auto_case c ∧ t' = createCase_effect data t c).
Proof.
  unfold createCase_transaction.
  eapply in_tx_weaken.
  - eapply in_tx_bind; [apply in_tx_conn_query |]. intros newCaseId.
    eapply in_tx_bind; [apply in_tx_write_officers |]. intros ?.
    eapply in_tx_bind; [apply in_tx_insert_persons |]. intros ?.
    apply in_tx_ret.
  - intros t c a t' c' (newCaseId & t1 & c1 & Hs & H). cbn beta in H.
    destruct H as (? & t2 & c2 & (-> & Hc1 & Hc2) & ? & t3 & c3 & (-> & _) & -> & -> & ->).
    unfold insert_case in Hs. simplify_eq.
    split; [done |]. unfold createCase_effect.
    tables_done.
Qed.

Lemma in_tx_updateCase_transaction id merged data :
  in_tx (updateCase_transaction id merged data)
    (λ t c _ t' c', t' = updateCase_effect id merged data t c).
Proof.
  unfold updateCase_transaction, updateCase_effect.
  destruct (is_defined (officers data)), (is_defined (persons data)).
  - eapply in_tx_weaken.
    + eapply in_tx_bind; [apply in_tx_conn_query |]. intros ?.
      eapply in_tx_bind.
      * eapply in_tx_bind; [apply in_tx_conn_query |]. intros ?.
        apply in_tx_write_officers.
      * intros ?. eapply in_tx_bind; [apply in_tx_conn_query |]. intros ?.
        apply in_tx_insert_persons.
    + intros t c a t' c' (? & t1 & c1 & Hu & ? & t2 & c2
        & (? & t3 & c3 & Hd & -> & Hc1 & Hc2) & ? & t4 & c4 & Hp & -> & _).
      unfold update_case in Hu. simplify_eq.
      unfold delete_officers in Hd. simplify_eq.
      unfold delete_persons in Hp. simplify_eq.
      tables_done.
  - eapply in_tx_weaken.
    + eapply in_tx_bind; [apply in_tx_conn_query |]. intros ?.
      eapply in_tx_bind.
      * eapply in_tx_bind; [apply in_tx_conn_query |]. intros ?.
        apply in_tx_write_officers.
      * intros ?. apply in_tx_ret.
    + intros t c a t' c' (? & t1 & c1 & Hu & ? & t2 & c2
        & (? & t3 & c3 & Hd & -> & Hc1 & Hc2) & _ & -> & ->).
      unfold update_case in Hu. simplify_eq.
      unfold delete_officers in Hd. simplify_eq.
      tables_done.
  - eapply in_tx_weaken.
    + eapply in_tx_bind; [apply in_tx_conn_query |]. intros ?.
      eapply in_tx_bind; [apply in_tx_ret |].
      intros ?. eapply in_tx_bind; [apply in_tx_conn_query |]. intros ?.
      apply in_tx_insert_persons.
    + intros t c a t' c' (? & t1 & c1 & Hu & ? & t2 & c2
        & (_ & -> & ->) & ? & t4 & c4 & Hp & -> & _).
      unfold update_case in Hu. simplify_eq.
      unfold delete_persons in Hp. simplify_eq.
      tables_done.
  - eapply in_tx_weaken.
    + eapply in_tx_bind; [apply in_tx_conn_query |]. intros ?.
      eapply in_tx_bind; [apply in_tx_ret |].
      intros ?. apply in_tx_ret.
    + intros t c a t' c' (? & t1 & c1 & Hu & ? & t2 & c2
        & (_ & -> & ->) & _ & -> & ->).
      unfold update_case in Hu. tables_done.
Qed.

Lemma in_tx_delete_case id :
  in_tx (conn_query (delete_case id)) (λ t c _ t' c', t' = deleteCase_effect id t).
Proof.
  eapply in_tx_weaken; [apply in_tx_conn_query |].
  intros t c a t' c' H. unfold delete_case in H. tables_done.
Qed.

(** ** src/config/db.js: [withTransaction] commits all or nothing *)

Lemma withTransaction_spec {A} (fn : M A) post :
  in_tx fn post → ∀ w, pending w = None →
  pending (withTransaction fn w).2 = None ∧
  match (withTransaction fn w).1 with
  | Threw _ => committed (withTransaction fn w).2 = committed w
  | Returned a =>
      ∃ c', post (committed w) (counters w) a (committed (withTransaction fn w).2) c'
  end ∧
  (faults w = [] →
   faults (withTransaction fn w).2 = [] ∧ ∃ a, (withTransaction fn w).1 = Returned a).
Proof.
  intros Hfn w Hp.
  unfold withTransaction, bind, try_finally, try_catch, getConnection,
    beginTransaction, commit, rollback, driver, release, throw, ret, logger_error.
  destruct (faults w) as [|[e|] rest] eqn:Ef; cbn; rewrite ?Ef.
  - (* no failure is scheduled *)
    pose (w2 := set_pending (Some (committed w)) w).
    destruct (Hfn w2 (committed w) eq_refl) as (Hc & (t' & Hp' & Hpost) & Hfree).
    fold w2. destruct (fn w2) as [[a|err] w3] eqn:E; cbn in *.
    + destruct (Hfree Ef) as [Hf3 _]. rewrite Hf3, Hp'. cbn.
      split; [done |]. split.
      * exists (counters w3). by apply Hpost.
      * intros _. split; [done |]. by exists a.
    + destruct (Hfree Ef) as [_ [a Ha] ]. discriminate Ha.
  - (* getConnection throws *)
    cbn. by repeat split.
  - (* getConnection goes through *)
    destruct rest as [|[e|] rest]; cbn.
    + pose (w2 := set_pending (Some (committed w)) (set_faults [] w)).
      destruct (Hfn w2 (committed w) eq_refl) as (Hc & (t' & Hp' & Hpost) & Hfree).
      fold w2. destruct (fn w2) as [[a|err] w3] eqn:E; cbn in *.
      * destruct (Hfree eq_refl) as [Hf3 _]. rewrite Hf3, Hp'. cbn.
        split; [done |]. split; [| done].
        exists (counters w3). by apply Hpost.
      * destruct (Hfree eq_refl) as [_ [a Ha] ]. discriminate Ha.
    + (* beginTransaction throws *)
      destruct rest as [|[e'|] rest]; cbn; by repeat split.
    + pose (w2 := set_pending (Some (committed w)) (set_faults rest (set_faults (None :: rest) w))).
      destruct (Hfn w2 (committed w) eq_refl) as (Hc & (t' & Hp' & Hpost) & Hfree).
      fold w2. destruct (fn w2) as [[a|err] w3] eqn:E; cbn in *.
      * (* fn returns; commit *)
        destruct (faults w3) as [|[e|] rest3] eqn:Ef3; cbn; rewrite ?Hp'; cbn.
        -- split; [done |]. split; [| done]. exists (counters w3). by apply Hpost.
        -- destruct rest3 as [|[e'|] rest3]; cbn; by repeat split.
        -- split; [done |]. split; [| done]. exists (counters w3). by apply Hpost.
      * (* fn throws; rollback *)
        destruct (faults w3) as [|[e|] rest3] eqn:Ef3; cbn; by repeat split.
Qed.

(** ** Reads outside a transaction *)

Lemma quiet_refl w : quiet w w.
Proof. by repeat split. Qed.

Lemma quiet_trans w1 w2 w3 : quiet w1 w2 → quiet w2 w3 → quiet w1 w3.
Proof. intros (? & ? & ?) (? & ? & ?). repeat split; congruence. Qed.

Lemma pool_query_spec {A} (select : Tables → A) w :
  quiet w (pool_query select w).2 ∧
  (∀ a, (pool_query select w).1 = Returned a → a = select (committed w)) ∧
  (faults w = [] →
   pool_query select w = (Returned (select (committed w)), w)).
Proof.
  unfold pool_query, driver.
  destruct (faults w) as [|[e|] rest] eqn:Ef; cbn.
  - split; [apply quiet_refl |]. split; [by intros a [= <-] | done].
  - split; [by repeat split |]. split; [by intros a | done].
  - split; [by repeat split |]. split; [by intros a [= <-] | done].
Qed.

Lemma check_case_no_spec caseNo excluded w :
  quiet w (check_case_no caseNo excluded w).2 ∧
  (faults w = [] → select_id_by_case_no caseNo excluded (committed w) = [] →
   check_case_no caseNo excluded w = (Returned tt, w)) ∧
  (faults w = [] → select_id_by_case_no caseNo excluded (committed w) ≠ [] →
   check_case_no caseNo excluded w =
   (Threw (ThrownApp
      (conflict "案件编号已存在"
         (Some (FieldErrors (object [("caseNo", JStr "案件编号已存在")]))))), w)).
Proof.
  unfold check_case_no, bind.
  destruct (pool_query_spec (select_id_by_case_no caseNo excluded) w)
    as (Hq & Hv & Hfree).
  split; [| split].
  - destruct (pool_query _ w) as [[rows|e] w1]; cbn in *; [| done].
    by case_bool_decide.
  - intros Hf Hs. rewrite (Hfree Hf), Hs. by cbn.
  - intros Hf Hs. rewrite (Hfree Hf).
    destruct (select_id_by_case_no _ _ _); [done |]. cbn.
    case_bool_decide; [done | lia].
Qed.

Lemma authorize_owner_world record u denied w :
  (authorize_owner record u denied w).2 = w.
Proof. unfold authorize_owner. by destruct (_ && _). Qed.

(** ** The three writes of the case aggregate *)

Lemma catch_case_error_world {A} (m : M A) w :
  (try_catch m catch_case_error w).2 = (m w).2 ∧
  match (m w).1 with
  | Returned a => (try_catch m catch_case_error w).1 = Returned a
  | Threw err =>
      (try_catch m catch_case_error w).1 = Threw (ThrownApp (handleCaseDbError err))
  end.
Proof.
  unfold try_catch. by destruct (m w) as [[a|err] w1].
Qed.

Lemma updateCase_try_spec id data u w :
  pending w = None →
  pending (updateCase_try id data u w).2 = None ∧
  match (updateCase_try id data u w).1 with
  | Threw _ => committed (updateCase_try id data u w).2 = committed w
  | Returned a =>
      a = id ∧
      ∃ existing rest,
        select_case case_aliases id (committed w) = existing :: rest
        ∧ validateCaseBusinessRules (mergedCase existing data) = Returned tt
        ∧ committed (updateCase_try id data u w).2 =
          updateCase_effect id (mergedCase existing data) data
            (committed w) (counters w)
  end.
Proof.
  intros Hp. unfold updateCase_try, bind.
  destruct (pool_query_spec (select_case case_aliases id) w) as ((Hc1 & Hp1 & Hn1) & Hv1 & _).
  destruct (pool_query _ w) as [[rows|e] w1]; cbn in *; [| split; congruence].
  specialize (Hv1 rows eq_refl). subst rows.
  destruct (select_case case_aliases id (committed w)) as [|existing rest] eqn:Es;
    cbn; [split; congruence |].
  pose proof (authorize_owner_world existing u "无权修改该案件" w1) as Hw.
  destruct (authorize_owner existing u "无权修改该案件" w1) as [[[]|e] w2];
    cbn in *; subst w2; [| split; congruence].
  set (pre := if truthy _ && _ then _ else _).
  assert (Hq : quiet w1 (pre w1).2).
  { subst pre. destruct (_ && _); [apply check_case_no_spec | apply quiet_refl]. }
  destruct Hq as (Hc3 & Hp3 & Hn3).
  destruct (pre w1) as [[[]|e] w3]; cbn in *; [| split; congruence].
  unfold lift.
  destruct (validateCaseBusinessRules (mergedCase existing data)) as [[]|e] eqn:Ev;
    [| split; cbn; congruence].
  assert (Hp3' : pending w3 = None) by congruence.
  destruct (withTransaction_spec _ _ (in_tx_updateCase_transaction id (mergedCase existing data) data) w3 Hp3')
    as (Hpf & Hpost & _).
  destruct (withTransaction _ w3) as [[[]|e] w4]; cbn in *.
  - split; [done |]. split; [done |]. destruct Hpost as [_ ->].
    exists existing, rest. split; [done |]. split; [done |]. congruence.
  - split; [done |]. congruence.
Qed.

Lemma createCase_try_spec data w :
  pending w = None →
  pending (createCase_try data w).2 = None ∧
  match (createCase_try data w).1 with
  | Threw _ => committed (createCase_try data w).2 = committed w
  | Returned a =>
      a = auto_case (counters w)
      ∧ committed (createCase_try data w).2 =
        createCase_effect data (committed w) (counters w)
  end.
Proof.
  intros Hp. unfold createCase_try, bind.
  set (pre := if truthy _ then _ else _).
  assert (Hq : quiet w (pre w).2).
  { subst pre. destruct (truthy _); [apply check_case_no_spec | apply quiet_refl]. }
  destruct Hq as (Hc1 & Hp1 & Hn1).
  destruct (pre w) as [[[]|e] w1]; cbn in *; [| split; congruence].
  assert (Hp1' : pending w1 = None) by congruence.
  destruct (withTransaction_spec _ _ (in_tx_createCase_transaction data) w1 Hp1')
    as (Hpf & Hpost & _).
  destruct (withTransaction _ w1) as [[a|e] w2]; cbn in *.
  - split; [done |]. destruct Hpost as [_ [-> ->] ]. split; congruence.
  - split; [done |]. congruence.
Qed.

Lemma deleteCase_try_spec id u w :
  pending w = None →
  pending (deleteCase_try id u w).2 = None ∧
  match (deleteCase_try id u w).1 with
  | Threw _ => committed (deleteCase_try id u w).2 = committed w
  | Returned a =>
      a = id
      ∧ committed (deleteCase_try id u w).2 = deleteCase_effect id (committed w)
  end.
Proof.
  intros Hp. unfold deleteCase_try, bind.
  set (sel := select_case _ id).
  destruct (pool_query_spec sel w) as ((Hc1 & Hp1 & Hn1) & Hv1 & _).
  destruct (pool_query _ w) as [[rows|e] w1]; cbn in *; [| split; congruence].
  destruct rows as [|record rest]; cbn; [split; congruence |].
  pose proof (authorize_owner_world record u "无权删除该案件" w1) as Hw.
  destruct (authorize_owner record u "无权删除该案件" w1) as [[[]|e] w2];
    cbn in *; subst w2; [| split; congruence].
  destruct (negb _); cbn; [split; congruence |].
  assert (Hp1' : pending w1 = None) by congruence.
  destruct (withTransaction_spec _ _ (in_tx_delete_case id) w1 Hp1')
    as (Hpf & Hpost & _).
  destruct (withTransaction _ w1) as [[[]|e] w2]; cbn in *.
  - split; [done |]. split; [done |]. destruct Hpost as [_ ->]. congruence.
  - split; [done |]. congruence.
Qed.



(** ** Runs without driver failures *)

Lemma authorize_owner_passes record u denied w :
  strict_eq (prop record "mainOfficerId") (user_id u)
  || hasPermission (Some u) "case:view_all" = true →
  authorize_owner record u denied w = (Returned tt, w).
Proof.
  intros H. unfold authorize_owner.
  destruct (strict_eq _ _), (hasPermission _ _); by cbn in *.
Qed.

Lemma authorize_owner_denies record u denied w :
  strict_eq (prop record "mainOfficerId") (user_id u) = false →
  hasPermission (Some u) "case:view_all" = false →
  authorize_owner record u denied w = (Threw (ThrownApp (forbidden denied None)), w).
Proof. intros H1 H2. unfold authorize_owner. by rewrite H1, H2. Qed.

(** Without driver failures, an update of a stored case by its main
    officer or by a holder of [case:view_all], whose new case number is
    free and whose merged record passes the business rules, returns. *)
Lemma updateCase_returns id data u w existing rest :
  pending w = None → faults w = [] →
  select_case case_aliases id (committed w) = existing :: rest →
  strict_eq (prop existing "mainOfficerId") (user_id u)
  || hasPermission (Some u) "case:view_all" = true →
  (truthy (prop (fields data) "caseNo")
   && negb (strict_eq (prop (fields data) "caseNo") (prop existing "caseNo")) = true →
   select_id_by_case_no (prop (fields data) "caseNo") (Some id) (committed w) = []) →
  validateCaseBusinessRules (mergedCase existing data) = Returned tt →
  (updateCase id data u w).1 = Returned id.
Proof.
  intros Hp Hf Hs Hauth Hfree Hv.
  destruct (catch_case_error_world (updateCase_try id data u) w) as [_ Hr].
  assert (E : (updateCase_try id data u w).1 = Returned id);
    [| by rewrite E in Hr].
  unfold updateCase_try, bind.
  destruct (pool_query_spec (select_case case_aliases id) w) as (_ & _ & Hq).
  rewrite (Hq Hf), Hs, (authorize_owner_passes _ _ _ _ Hauth).
  set (pre := if truthy _ && _ then _ else _).
  assert (Hpre : pre w = (Returned tt, w)).
  { subst pre. destruct (_ && _); [| done].
    by apply check_case_no_spec; [| apply Hfree]. }
  rewrite Hpre. unfold lift. rewrite Hv.
  destruct (withTransaction_spec _ _
              (in_tx_updateCase_transaction id (mergedCase existing data) data) w Hp)
    as (_ & _ & Hret).
  destruct (Hret Hf) as [_ [ [] Ha ] ].
  destruct (withTransaction _ w) as [r w']. cbn in *. by rewrite Ha.
Qed.

(** Without driver failures, a create whose record passes the business
    rules and whose case number is free returns. *)
Lemma createCase_returns data u w :
  pending w = None → faults w = [] →
  validateCaseBusinessRules
    (object
       [("receivedDate", prop (fields data) "receivedDate");
        ("deadlineDate", prop (fields data) "deadlineDate");
        ("status", or_else (prop (fields data) "status") (JStr "在办"));
        ("closedDate", prop (fields data) "closedDate");
        ("resultItemId", prop (fields data) "resultItemId");
        ("transferTarget", prop (fields data) "transferTarget");
        ("transferDate", prop (fields data) "transferDate");
        ("archiveLocation", prop (fields data) "archiveLocation");
        ("archiveDate", prop (fields data) "archiveDate")]) = Returned tt →
  (truthy (prop (fields data) "caseNo") = true →
   select_id_by_case_no (prop (fields data) "caseNo") None (committed w) = []) →
  (createCase data u w).1 = Returned (auto_case (counters w)).
Proof.
  intros Hp Hf Hv Hfree.
  unfold createCase, bind, lift. rewrite Hv.
  destruct (catch_case_error_world (createCase_try data) w) as [_ Hr].
  assert (E : (createCase_try data w).1 = Returned (auto_case (counters w)));
    [| by rewrite E in Hr].
  unfold createCase_try, bind.
  set (pre := if truthy _ then _ else _).
  assert (Hpre : pre w = (Returned tt, w)).
  { subst pre. destruct (truthy _); [| done].
    by apply check_case_no_spec; [| apply Hfree]. }
  rewrite Hpre.
  destruct (withTransaction_spec _ _ (in_tx_createCase_transaction data) w Hp)
    as (_ & Hpost & Hret).
  destruct (Hret Hf) as [_ [a Ha] ].
  destruct (withTransaction _ w) as [r w']. cbn in *. subst r.
  destruct Hpost as [c' [-> _] ]. done.
Qed.

(** ** C2 and C3: the child collections after a write *)

Lemma officer_rows_case cid next l :
  Forall (λ r, co_case_id r = cid) (officer_rows cid next l).
Proof.
  revert next. induction l as [|o l IH]; intros next; cbn; constructor; auto.
Qed.

Lemma written_officers_case cid next main l :
  Forall (λ r, co_case_id r = cid) (written_officers cid next main l).
Proof.
  unfold written_officers. apply Forall_app. split.
  - apply officer_rows_case.
  - destruct (has_main main l); repeat constructor.
Qed.

Lemma person_rows_case cid next l :
  Forall (λ r, cp_case_id r = cid) (person_rows cid next l).
Proof.
  revert next. induction l as [|o l IH]; intros next; cbn; constructor; auto.
Qed.

Lemma filter_all {A} (P : A → Prop) `{∀ x, Decision (P x)} (l : list A) :
  Forall P l → filter P l = l.
Proof.
  induction 1 as [|x l Hx Hl IH]; [done |].
  by rewrite filter_cons_True, IH.
Qed.

Lemma filter_none {A} (P : A → Prop) `{∀ x, Decision (P x)} (l : list A) :
  Forall (λ x, ¬ P x) l → filter P l = [].
Proof.
  induction 1 as [|x l Hx Hl IH]; [done |].
  by rewrite filter_cons_False, IH.
Qed.

Lemma filter_filter_not {A} (P : A → Prop) `{∀ x, Decision (P x)} (l : list A) :
  filter P (filter (λ x, ¬ P x) l) = [].
Proof.
  apply filter_none. induction l as [|x l IH]; [constructor |].
  destruct (decide (P x)).
  - by rewrite filter_cons_False by tauto.
  - rewrite filter_cons_True by done. by constructor.
Qed.

Lemma filter_not_filter_not {A} (P : A → Prop) `{∀ x, Decision (P x)} (l : list A) :
  filter (λ x, ¬ P x) (filter (λ x, ¬ P x) l) = filter (λ x, ¬ P x) l.
Proof.
  apply filter_all. induction l as [|x l IH]; [constructor |].
  destruct (decide (P x)).
  - by rewrite filter_cons_False by tauto.
  - rewrite filter_cons_True by done. by constructor.
Qed.

Lemma Forall_not_not {A} (P : A → Prop) (l : list A) :
  Forall P l → Forall (λ x, ¬ ¬ P x) l.
Proof. intros H. eapply Forall_impl; [exact H | tauto]. Qed.

(** The officer rows of an updated case and those of the other cases. *)
Lemma updateCase_effect_officers id merged data t c :
  case_officers (updateCase_effect id merged data t c) =
  if is_defined (officers data)
  then (filter (λ r, co_case_id r ≠ id) (case_officers t) ++
        written_officers id (auto_officer c) (prop merged "mainOfficerId")
          (as_list (officers data)))%list
  else case_officers t.
Proof.
  unfold updateCase_effect.
  by destruct (is_defined (officers data)), (is_defined (persons data)).
Qed.

Lemma updateCase_effect_persons id merged data t c :
  case_persons (updateCase_effect id merged data t c) =
  if is_defined (persons data)
  then (filter (λ r, cp_case_id r ≠ id) (case_persons t) ++
        person_rows id (auto_person c) (as_list (persons data)))%list
  else case_persons t.
Proof.
  unfold updateCase_effect.
  by destruct (is_defined (officers data)), (is_defined (persons data)).
Qed.

(** What an update that returned has committed. *)
Lemma updateCase_committed id data u w :
  pending w = None →
  (updateCase id data u w).1 = Returned id →
  ∃ existing rest,
    select_case case_aliases id (committed w) = existing :: rest
    ∧ validateCaseBusinessRules (mergedCase existing data) = Returned tt
    ∧ committed (updateCase id data u w).2 =
      updateCase_effect id (mergedCase existing data) data (committed w) (counters w).
Proof.
  intros Hp Hr. unfold updateCase in *.
  destruct (catch_case_error_world (updateCase_try id data u) w) as [Hw Hc].
  destruct (updateCase_try_spec id data u w Hp) as [_ Hs].
  rewrite Hw. destruct (updateCase_try id data u w).1.
  - destruct Hs as (_ & existing & rest & ? & ? & ?). by exists existing, rest.
  - rewrite Hc in Hr. discriminate Hr.
Qed.

(** What a create that returned has committed. *)
Lemma createCase_committed data u w newCaseId :
  pending w = None →
  (createCase data u w).1 = Returned newCaseId →
  newCaseId = auto_case (counters w)
  ∧ committed (createCase data u w).2 =
    createCase_effect data (committed w) (counters w).
Proof.
  intros Hp Hr. unfold createCase, bind, lift in *.
  destruct (validateCaseBusinessRules _) as [[]|e]; [| discriminate Hr].
  destruct (catch_case_error_world (createCase_try data) w) as [Hw Hc].
  destruct (createCase_try_spec data w Hp) as [_ Hs].
  rewrite Hw. destruct (createCase_try data w).1.
  - rewrite Hc in Hr. injection Hr as <-. exact Hs.
  - rewrite Hc in Hr. discriminate Hr.
Qed.

(** C2 (amended).  After an update that returned: a child collection
    whose key the payload lacks is unchanged; for a collection whose key
    it holds (an empty list included), the rows of the other cases are
    kept and the rows of this case are replaced, for the persons by
    exactly one row per supplied person, in order, and for the officers
    by one row per supplied officer, in order, followed by a row for the
    main officer of the merged record when no supplied officer is the
    main officer. *)
Theorem C2_child_collections (w : World) (id : Z) (data : CaseData)
    (currentUser : User) :
  pending w = None →
  (updateCase id data currentUser w).1 = Returned id →
  let before := committed w in
  let after := committed (updateCase id data currentUser w).2 in
  (is_defined (officers data) = false →
   case_officers after = case_officers before) ∧
  (is_defined (persons data) = false →
   case_persons after = case_persons before) ∧
  filter (λ r, co_case_id r ≠ id) (case_officers after)
  = filter (λ r, co_case_id r ≠ id) (case_officers before) ∧
  filter (λ r, cp_case_id r ≠ id) (case_persons after)
  = filter (λ r, cp_case_id r ≠ id) (case_persons before) ∧
  (is_defined (persons data) = true →
   filter (λ r, cp_case_id r = id) (case_persons after)
   = person_rows id (auto_person (counters w)) (as_list (persons data))) ∧
  (is_defined (officers data) = true →
   ∃ existingCase rest,
     select_case case_aliases id before = existingCase :: rest
     ∧ filter (λ r, co_case_id r = id) (case_officers after)
       = written_officers id (auto_officer (counters w))
           (prop (mergedCase existingCase data) "mainOfficerId")
           (as_list (officers data))).
Proof.
  intros Hp Hr before after.
  destruct (updateCase_committed id data currentUser w Hp Hr)
    as (existing & rest & Hs & _ & Hc).
  subst before after. rewrite Hc.
  rewrite updateCase_effect_officers, updateCase_effect_persons.
  repeat split.
  - by intros ->.
  - by intros ->.
  - destruct (is_defined (officers data)); [| done].
    rewrite filter_app, filter_not_filter_not.
    rewrite (filter_none (λ r, co_case_id r ≠ id) (written_officers _ _ _ _))
      by apply Forall_not_not, written_officers_case.
    by rewrite app_nil_r.
  - destruct (is_defined (persons data)); [| done].
    rewrite filter_app, filter_not_filter_not.
    rewrite (filter_none (λ r, cp_case_id r ≠ id) (person_rows _ _ _))
      by apply Forall_not_not, person_rows_case.
    by rewrite app_nil_r.
  - intros ->. rewrite filter_app, filter_filter_not. cbn [app].
    apply filter_all, person_rows_case.
  - intros ->. exists existing, rest. split; [done |].
    rewrite filter_app, filter_filter_not. cbn [app].
    apply filter_all, written_officers_case.
Qed.

Lemma C2_child_collections_witness :
  case_officers (committed (updateCase 1 rename_only officer7 world_with_case).2)
  = case_officers (committed world_with_case)
  ∧ filter (λ r, cp_case_id r = 1)
      (case_persons (committed (updateCase 1 empty_children officer7 world_with_case).2))
    = [].
Proof.
  split.
  - apply (C2_child_collections world_with_case 1 rename_only officer7);
      vm_compute; reflexivity.
  - pose proof (C2_child_collections world_with_case 1 empty_children officer7
                  eq_refl) as H.
    cbv zeta in H. destruct H as (_ & _ & _ & _ & H & _).
    + vm_compute. reflexivity.
    + apply H. reflexivity.
Defined.

(** C2 as stated fails for the officers: an update of case 1 that
    supplies the empty list of officers does not leave the case with an
    empty list, it leaves it with a row for the main officer. *)
Lemma C2_empty_officer_list_gets_main_officer :
  (updateCase 1 empty_children officer7 world_with_case).1 = Returned 1
  ∧ officers empty_children = Items []
  ∧ filter (λ r, co_case_id r = 1)
      (case_officers
         (committed (updateCase 1 empty_children officer7 world_with_case).2))
    = [ {| co_id := 2; co_case_id := 1; co_officer_id := JNum 7;
           co_role := JStr "主办"; co_remark := JNull |} ].
Proof. repeat split; vm_compute; reflexivity. Qed.

Lemma officer_rows_elem cid next l officer :
  officer ∈ l → ∃ n, officer_row cid n officer ∈ officer_rows cid next l.
Proof.
  revert next. induction l as [|o l IH]; intros next Hin.
  - by apply elem_of_nil in Hin.
  - apply elem_of_cons in Hin as [-> | Hin].
    + exists next. cbn. apply list_elem_of_here.
    + destruct (IH (next + 1) Hin) as [n Hn]. exists n. cbn.
      by apply list_elem_of_further.
Qed.

Lemma has_main_true main l :
  has_main main l = true →
  ∃ officer, officer ∈ l ∧ prop officer "officerId" = main.
Proof.
  unfold has_main. intros H. apply existsb_exists in H as (officer & Hin & He).
  exists officer. split; [by apply list_elem_of_In |].
  unfold strict_eq in He. by apply bool_decide_eq_true in He.
Qed.

(** The rows written for the officers hold a row of the main officer:
    the first supplied one if there is one, a synthesized one otherwise. *)
Lemma written_officers_main cid next main l :
  (has_main main l = true →
   written_officers cid next main l = officer_rows cid next l
   ∧ ∃ officer n,
       officer ∈ l ∧ prop officer "officerId" = main
       ∧ officer_row cid n officer ∈ written_officers cid next main l) ∧
  (has_main main l = false →
   written_officers cid next main l
   = (officer_rows cid next l
      ++ [main_row cid (next + Z.of_nat (length l)) main])%list).
Proof.
  unfold written_officers. split; intros H; rewrite H.
  - rewrite app_nil_r. split; [done |].
    destruct (has_main_true _ _ H) as (officer & Hin & He).
    destruct (officer_rows_elem cid next l officer Hin) as [n Hn].
    by exists officer, n.
  - done.
Qed.

(** C3 (amended).  A create that returned has appended, and an update
    that returned and whose payload defines [officers] has left as the
    rows of the case, the rows [written_officers] of the supplied list
    and of the main officer.  These rows always hold a row whose
    [officer_id] is the main officer: when a supplied officer is the main
    officer, no row is synthesized and that officer's row has the role it
    was supplied with ([NULL] when it has none); otherwise the last row
    is synthesized for the main officer with role '主办'. *)
Theorem C3_main_officer_row (w : World) (id : Z) (data : CaseData)
    (currentUser : User) :
  pending w = None →
  (∀ newCaseId,
     (createCase data currentUser w).1 = Returned newCaseId →
     case_officers (committed (createCase data currentUser w).2)
     = (case_officers (committed w)
        ++ written_officers newCaseId (auto_officer (counters w))
             (prop (fields data) "mainOfficerId") (as_list (officers data)))%list) ∧
  (is_defined (officers data) = true →
   (updateCase id data currentUser w).1 = Returned id →
   ∃ existingCase rest,
     select_case case_aliases id (committed w) = existingCase :: rest
     ∧ filter (λ r, co_case_id r = id)
         (case_officers (committed (updateCase id data currentUser w).2))
       = written_officers id (auto_officer (counters w))
           (prop (mergedCase existingCase data) "mainOfficerId")
           (as_list (officers data))) ∧
  (∀ cid next main l,
     (∃ r, r ∈ written_officers cid next main l
           ∧ co_case_id r = cid ∧ co_officer_id r = to_sql main) ∧
     (has_main main l = true →
      written_officers cid next main l = officer_rows cid next l) ∧
     (has_main main l = false →
      written_officers cid next main l
      = (officer_rows cid next l
         ++ [ {| co_id := next + Z.of_nat (length l); co_case_id := cid;
                 co_officer_id := to_sql main; co_role := JStr "主办";
                 co_remark := JNull |} ])%list)).
Proof.
  intros Hp. split; [| split].
  - intros newCaseId Hr.
    destruct (createCase_committed data currentUser w newCaseId Hp Hr) as [-> ->].
    reflexivity.
  - intros Hd Hr.
    destruct (updateCase_committed id data currentUser w Hp Hr)
      as (existing & rest & Hs & _ & Hc).
    exists existing, rest. split; [done |].
    rewrite Hc, updateCase_effect_officers, Hd.
    rewrite filter_app, filter_filter_not. cbn [app].
    apply filter_all, written_officers_case.
  - intros cid next main l.
    destruct (written_officers_main cid next main l) as [Ht Hf].
    split; [| split].
    + destruct (has_main main l) eqn:E.
      * destruct (Ht eq_refl) as (_ & officer & n & _ & He & Hin).
        exists (officer_row cid n officer). split; [done |]. cbn. by rewrite He.
      * exists (main_row cid (next + Z.of_nat (length l)) main).
        split; [| done]. rewrite (Hf eq_refl).
        apply elem_of_app. right. apply list_elem_of_here.
    + intros H. by apply Ht.
    + intros H. by apply Hf.
Qed.

Lemma C3_main_officer_row_witness :
  filter (λ r, co_case_id r = 1)
    (case_officers (committed (updateCase 1 empty_children officer7 world_with_case).2))
  = [main_row 1 2 (JNum 7)].
Proof.
  pose proof (C3_main_officer_row world_with_case 1 empty_children officer7 eq_refl)
    as (_ & H & _).
  destruct H as (existing & rest & Hs & ->); [reflexivity | by vm_compute |].
  vm_compute in Hs. injection Hs as <- <-. by vm_compute.
Defined.

(** C3 as stated fails on its own example: creating the case with main
    officer 7 and [officers: [{officerId: 7}]] yields exactly one officer
    row, for officer 7, and its role is [NULL], not '主办'. *)
Lemma C3_supplied_main_officer_keeps_null_role :
  (createCase example_case officer7 fresh_world).1 = Returned 1
  ∧ prop (fields example_case) "mainOfficerId" = JNum 7
  ∧ officers example_case = Items [object [("officerId", JNum 7)]]
  ∧ case_officers (committed (createCase example_case officer7 fresh_world).2)
    = [ {| co_id := 1; co_case_id := 1; co_officer_id := JNum 7;
           co_role := JNull; co_remark := JNull |} ].
Proof. repeat split; vm_compute; reflexivity. Qed.

(** ** C5: a closed case needs its closure date and its result *)

Lemma createCase_validates data u :
  createCase data u =
  bind (lift (validateCaseBusinessRules (caseForCheck data)))
       (fun _ => try_catch (createCase_try data) catch_case_error).
Proof. reflexivity. Qed.

Lemma caseForCheck_props data :
  prop (caseForCheck data) "receivedDate" = prop (fields data) "receivedDate"
  ∧ prop (caseForCheck data) "deadlineDate" = prop (fields data) "deadlineDate"
  ∧ prop (caseForCheck data) "status"
    = or_else (prop (fields data) "status") (JStr "在办")
  ∧ prop (caseForCheck data) "closedDate" = prop (fields data) "closedDate"
  ∧ prop (caseForCheck data) "resultItemId" = prop (fields data) "resultItemId".
Proof. unfold caseForCheck. repeat split; by read_object. Qed.

Lemma caseForCheck_closed data :
  closed_incomplete (fields data) → closed_incomplete (caseForCheck data).
Proof.
  intros [Hs Hm]. destruct (caseForCheck_props data) as (_ & _ & H3 & H4 & H5).
  unfold closed_incomplete. rewrite H3, H4, H5, Hs. by split.
Qed.

Lemma caseForCheck_deadline data :
  deadline_before_received (caseForCheck data)
  = deadline_before_received (fields data).
Proof.
  destruct (caseForCheck_props data) as (H1 & H2 & _).
  unfold deadline_before_received. by rewrite H1, H2.
Qed.

(** The business rules reject a closed record that lacks a closure
    field. *)
Lemma validate_closed_incomplete r :
  closed_incomplete r →
  ∃ e, validateCaseBusinessRules r = Threw (ThrownApp e)
       ∧ errorCode e = VALIDATION_ERROR ∧ status e = 400
       ∧ (deadline_before_received r = false →
          e = closed_error (prop r "closedDate") (prop r "resultItemId")).
Proof.
  intros [Hs Hm]. destruct (deadline_before_received r) eqn:Hd.
  - exists deadline_error. by rewrite (validate_deadline r Hd).
  - exists (closed_error (prop r "closedDate") (prop r "resultItemId")).
    by rewrite (validate_closed r Hd Hs Hm).
Qed.

Lemma closed_error_keys closedDate resultItemId :
  (truthy closedDate = false →
   fieldErrors_of (closed_error closedDate resultItemId) !! "closedDate"
   = Some (JStr "结案日期必填")) ∧
  (isNil resultItemId = true →
   fieldErrors_of (closed_error closedDate resultItemId) !! "resultItemId"
   = Some (JStr "处理结果必填")).
Proof.
  unfold fieldErrors_of, closed_error, validationError, newAppError, object.
  cbn [details reverse rev_append list_to_map foldr fst snd].
  split; intros ->; cbn [negb required_if].
  - by rewrite lookup_insert_ne, lookup_insert_eq.
  - by rewrite lookup_insert_eq.
Qed.

(** C5 (amended).  A closed record that lacks its closure date or its
    result code is rejected by [validateCaseBusinessRules] with a
    ValidationError (400).  [createCase] applies the rule to the payload
    and fails with that error before it touches the database;
    [updateCase] applies it to the merged record (stored case overridden
    by the patch), so that its [try] block raises that error and writes
    nothing.  When the deadline rule is not violated as well, the error
    is the one of the closed-case rule, whose map has a message under
    [closedDate] when the closure date is missing and under
    [resultItemId] when the result is missing, hence under both when
    both are. *)
Theorem C5_closed_case_rule (w : World) (id : Z) (data : CaseData)
    (currentUser : User) (existingCase : gmap string JsVal)
    (rest : list (gmap string JsVal)) :
  (∀ r, closed_incomplete r →
     ∃ e, validateCaseBusinessRules r = Threw (ThrownApp e)
          ∧ errorCode e = VALIDATION_ERROR ∧ status e = 400
          ∧ (deadline_before_received r = false →
             e = closed_error (prop r "closedDate") (prop r "resultItemId")
             ∧ (truthy (prop r "closedDate") = false →
                fieldErrors_of e !! "closedDate" = Some (JStr "结案日期必填"))
             ∧ (isNil (prop r "resultItemId") = true →
                fieldErrors_of e !! "resultItemId" = Some (JStr "处理结果必填")))) ∧
  (closed_incomplete (fields data) →
   ∃ e, createCase data currentUser w = (Threw (ThrownApp e), w)
        ∧ validateCaseBusinessRules (caseForCheck data) = Threw (ThrownApp e)
        ∧ errorCode e = VALIDATION_ERROR
        ∧ (deadline_before_received (fields data) = false →
           e = closed_error (prop (fields data) "closedDate")
                 (prop (fields data) "resultItemId"))) ∧
  (faults w = [] →
   select_case case_aliases id (committed w) = existingCase :: rest →
   strict_eq (prop existingCase "mainOfficerId") (user_id currentUser)
   || hasPermission (Some currentUser) "case:view_all" = true →
   (truthy (prop (fields data) "caseNo")
    && negb (strict_eq (prop (fields data) "caseNo") (prop existingCase "caseNo"))
    = true →
    select_id_by_case_no (prop (fields data) "caseNo") (Some id) (committed w) = []) →
   closed_incomplete (mergedCase existingCase data) →
   ∃ e, updateCase_try id data currentUser w = (Threw (ThrownApp e), w)
        ∧ validateCaseBusinessRules (mergedCase existingCase data)
          = Threw (ThrownApp e)
        ∧ errorCode e = VALIDATION_ERROR).
Proof.
  split; [| split].
  - intros r Hr. destruct (validate_closed_incomplete r Hr) as (e & He & Hc & Hst & Hd).
    exists e. split; [done |]. split; [done |]. split; [done |].
    intros Hno. rewrite (Hd Hno). split; [done |]. apply closed_error_keys.
  - intros Hr.
    destruct (validate_closed_incomplete _ (caseForCheck_closed data Hr))
      as (e & He & Hc & _ & Hd).
    exists e. rewrite createCase_validates. unfold bind, lift. rewrite He.
    split; [done |]. split; [done |]. split; [done |].
    rewrite caseForCheck_deadline in Hd. intros Hno. rewrite (Hd Hno).
    by destruct (caseForCheck_props data) as (_ & _ & _ & -> & ->).
  - intros Hf Hs Hauth Hfree Hr.
    destruct (validate_closed_incomplete _ Hr) as (e & He & Hc & _ & _).
    exists e. split; [| by split].
    unfold updateCase_try, bind.
    destruct (pool_query_spec (select_case case_aliases id) w) as (_ & _ & Hq).
    rewrite (Hq Hf), Hs, (authorize_owner_passes _ _ _ _ Hauth).
    set (pre := if truthy _ && _ then _ else _).
    assert (Hpre : pre w = (Returned tt, w)).
    { subst pre. destruct (_ && _); [| done].
      by apply check_case_no_spec; [| apply Hfree]. }
    rewrite Hpre. unfold lift. by rewrite He.
Qed.

Lemma C5_closed_case_rule_witness :
  ∃ e, updateCase_try 1 close_only officer7 world_with_case
       = (Threw (ThrownApp e), world_with_case)
       ∧ errorCode e = VALIDATION_ERROR.
Proof.
  destruct (C5_closed_case_rule world_with_case 1 close_only officer7
              stored_example_case [])
    as (_ & _ & H).
  destruct H as (e & He & _ & Hc); try (vm_compute; done).
  by exists e.
Defined.

(** C5 as stated fails when the deadline rule is violated as well: the
    create of a closed case without closure date and result, whose
    deadline precedes the received date, fails with a ValidationError
    whose map has neither the key [closedDate] nor the key
    [resultItemId]. *)
Lemma C5_deadline_error_hides_closure_fields :
  ∃ e, createCase late_closed_case officer7 fresh_world
       = (Threw (ThrownApp e), fresh_world)
       ∧ prop (fields late_closed_case) "status" = JStr "已结"
       ∧ truthy (prop (fields late_closed_case) "closedDate") = false
       ∧ isNil (prop (fields late_closed_case) "resultItemId") = true
       ∧ errorCode e = VALIDATION_ERROR
       ∧ fieldErrors_of e !! "closedDate" = None
       ∧ fieldErrors_of e !! "resultItemId" = None.
Proof.
  exists deadline_error. repeat split; vm_compute; reflexivity.
Qed.

(** ** C8: who may read and who may write a case *)

Lemma getCaseDetail_denied id u w caseRow rest :
  faults w = [] →
  select_case case_aliases id (committed w) = caseRow :: rest →
  hasPermission (Some u) "case:view_all" = false →
  is_main_officer caseRow u || participates id u (committed w) = false →
  getCaseDetail id u w = (Threw (ThrownApp (forbidden "无权查看该案件" None)), w).
Proof.
  intros Hf Hs Hperm Hno. apply orb_false_iff in Hno as [Hm Hpart].
  unfold is_main_officer in Hm. unfold participates in Hpart.
  unfold getCaseDetail, bind.
  destruct (pool_query_spec (select_case case_aliases id) w) as (_ & _ & Hq).
  rewrite (Hq Hf), Hs. unfold authorize_participant, bind.
  rewrite Hperm, Hm. cbn [negb].
  destruct (pool_query_spec (select_participation id (user_id u)) w) as (_ & _ & Hq2).
  rewrite (Hq2 Hf). unfold ret at 1. by rewrite Hpart.
Qed.

Lemma getCaseDetail_allowed id u w caseRow rest :
  faults w = [] →
  select_case case_aliases id (committed w) = caseRow :: rest →
  hasPermission (Some u) "case:view_all" = false →
  is_main_officer caseRow u || participates id u (committed w) = true →
  getCaseDetail id u w =
  (Returned
     {| detail_case := caseRow;
        detail_officers :=
          filter (λ r, co_case_id r = id) (case_officers (committed w));
        detail_persons :=
          filter (λ r, cp_case_id r = id) (case_persons (committed w)) |}, w).
Proof.
  intros Hf Hs Hperm Hyes.
  unfold is_main_officer, participates in Hyes.
  unfold getCaseDetail, bind.
  destruct (pool_query_spec (select_case case_aliases id) w) as (_ & _ & Hq).
  rewrite (Hq Hf), Hs. unfold authorize_participant, bind.
  rewrite Hperm. cbn [negb].
  destruct (pool_query_spec (select_participation id (user_id u)) w) as (_ & _ & Hq2).
  destruct (pool_query_spec
              (λ t, filter (λ r, co_case_id r = id) (case_officers t)) w)
    as (_ & _ & Hq3).
  destruct (pool_query_spec
              (λ t, filter (λ r, cp_case_id r = id) (case_persons t)) w)
    as (_ & _ & Hq4).
  destruct (strict_eq (prop caseRow "mainOfficerId") (user_id u)); cbn [negb orb] in *.
  - unfold ret at 1. cbn [negb]. unfold ret at 1.
    by rewrite (Hq3 Hf), (Hq4 Hf).
  - rewrite (Hq2 Hf). unfold ret at 1. rewrite Hyes. cbn [negb]. unfold ret at 1.
    by rewrite (Hq3 Hf), (Hq4 Hf).
Qed.

Lemma updateCase_try_denied id data u w existing rest :
  faults w = [] →
  select_case case_aliases id (committed w) = existing :: rest →
  hasPermission (Some u) "case:view_all" = false →
  is_main_officer existing u = false →
  updateCase_try id data u w
  = (Threw (ThrownApp (forbidden "无权修改该案件" None)), w).
Proof.
  intros Hf Hs Hperm Hm. unfold updateCase_try, bind.
  destruct (pool_query_spec (select_case case_aliases id) w) as (_ & _ & Hq).
  by rewrite (Hq Hf), Hs, (authorize_owner_denies _ _ _ _ Hm Hperm).
Qed.

Lemma deleteCase_try_denied id u w record rest :
  faults w = [] →
  select_case [("mainOfficerId", "main_officer_id"); ("status", "status")] id
    (committed w) = record :: rest →
  hasPermission (Some u) "case:view_all" = false →
  is_main_officer record u = false →
  deleteCase_try id u w
  = (Threw (ThrownApp (forbidden "无权删除该案件" None)), w).
Proof.
  intros Hf Hs Hperm Hm. unfold deleteCase_try, bind.
  destruct (pool_query_spec
              (select_case [("mainOfficerId", "main_officer_id"); ("status", "status")] id) w)
    as (_ & _ & Hq).
  by rewrite (Hq Hf), Hs, (authorize_owner_denies _ _ _ _ Hm Hperm).
Qed.

(** C8 (amended).  For a caller without [case:view_all], and without
    driver failures.  Reading the detail of a case fails with Forbidden
    when the caller is neither its main officer nor one of the officers
    listed for it in [case_officers], and returns the case when the
    caller is either.  The ownership check of an update or of a delete
    raises Forbidden when the caller is not the main officer, and lets
    the main officer through. *)
Theorem C8_case_access (w : World) (id : Z) (data : CaseData) (currentUser : User) :
  hasPermission (Some currentUser) "case:view_all" = false →
  faults w = [] →
  (∀ caseRow rest,
     select_case case_aliases id (committed w) = caseRow :: rest →
     (is_main_officer caseRow currentUser
      || participates id currentUser (committed w) = false →
      getCaseDetail id currentUser w
      = (Threw (ThrownApp (forbidden "无权查看该案件" None)), w)) ∧
     (is_main_officer caseRow currentUser
      || participates id currentUser (committed w) = true →
      ∃ detail, getCaseDetail id currentUser w = (Returned detail, w)
                ∧ detail_case detail = caseRow) ∧
     (is_main_officer caseRow currentUser = false →
      updateCase_try id data currentUser w
      = (Threw (ThrownApp (forbidden "无权修改该案件" None)), w)) ∧
     (is_main_officer caseRow currentUser = true →
      authorize_owner caseRow currentUser "无权修改该案件" w = (Returned tt, w))) ∧
  (∀ record rest,
     select_case delete_aliases id (committed w) = record :: rest →
     (is_main_officer record currentUser = false →
      deleteCase_try id currentUser w
      = (Threw (ThrownApp (forbidden "无权删除该案件" None)), w)) ∧
     (is_main_officer record currentUser = true →
      authorize_owner record currentUser "无权删除该案件" w = (Returned tt, w))) ∧
  errorCode (forbidden "无权查看该案件" None) = FORBIDDEN.
Proof.
  intros Hperm Hf. split; [| split; [| done] ].
  - intros caseRow rest Hs. split; [| split; [| split] ].
    + intros H. by eapply getCaseDetail_denied.
    + intros H. eexists. split; [by eapply getCaseDetail_allowed | done].
    + intros H. by eapply updateCase_try_denied.
    + intros H. apply authorize_owner_passes.
      unfold is_main_officer in H. by rewrite H.
  - intros record rest Hs. split.
    + intros H. by eapply deleteCase_try_denied.
    + intros H. apply authorize_owner_passes.
      unfold is_main_officer in H. by rewrite H.
Qed.

Lemma C8_case_access_witness :
  getCaseDetail 1 officer9 world_with_shared_case
  = (Threw (ThrownApp (forbidden "无权查看该案件" None)), world_with_shared_case)
  ∧ updateCase_try 1 rename_only officer9 world_with_shared_case
    = (Threw (ThrownApp (forbidden "无权修改该案件" None)), world_with_shared_case).
Proof.
  destruct (C8_case_access world_with_shared_case 1 rename_only officer9
              eq_refl eq_refl) as (Hread & _ & _).
  destruct (Hread stored_shared_case []) as (Hdenied & _ & Hupdate & _).
  - by vm_compute.
  - split; [apply Hdenied | apply Hupdate]; by vm_compute.
Defined.

(** C8 as stated fails for the read: officer 8 has no [case:view_all]
    and is not the main officer of case 1, whose main officer is
    officer 7, yet reads its detail, being listed in [case_officers]. *)
Lemma C8_assisting_officer_reads_the_case :
  hasPermission (Some officer8) "case:view_all" = false
  ∧ prop stored_shared_case "mainOfficerId" = JNum 7
  ∧ user_id officer8 = JNum 8
  ∧ ∃ detail,
      getCaseDetail 1 officer8 world_with_shared_case
      = (Returned detail, world_with_shared_case)
      ∧ detail_case detail = stored_shared_case.
Proof.
  split; [by vm_compute |]. split; [by vm_compute |]. split; [done |].
  eexists. split; [by vm_compute | by vm_compute].
Qed.

(** ** C10: login looks at the status only *)

Lemma findOfficerByBadgeNo_spec badgeNo w :
  faults w = [] →
  Auth.findOfficerByBadgeNo badgeNo w
  = (Returned (stored_officer badgeNo (committed w)), w).
Proof.
  intros Hf.
  destruct (pool_query_spec (stored_officer badgeNo) w) as (_ & _ & H).
  exact (H Hf).
Qed.

Lemma loadRolesAndPermissions_spec ext officerId w :
  faults w = [] →
  Auth.loadRolesAndPermissions ext officerId w
  = (Returned (loaded_extra ext officerId), w).
Proof.
  intros Hf. unfold Auth.loadRolesAndPermissions, bind.
  destruct (pool_query_spec (fun _ : Tables => Auth.role_rows ext officerId) w)
    as (_ & _ & H).
  rewrite (H Hf). clear H.
  unfold loaded_extra. case_bool_decide.
  - destruct (pool_query_spec
                (fun _ : Tables =>
                   Auth.permission_codes ext
                     (map Auth.role_id (Auth.role_rows ext officerId))) w)
      as (_ & _ & Hq).
    by rewrite (Hq Hf).
  - done.
Qed.

(** C10.  Login consults the status of the account and not its active
    flag: without driver failures, for a stored account whose status is
    not 'LOCKED' and whose password matches, [login] returns a session
    with a signed token, whatever [is_active] and whatever other status
    the row holds; for a stored account whose status is 'LOCKED' it fails
    with Unauthorized. *)
Theorem C10_login_checks_status_only (ext : Auth.Externals)
    (payload : gmap string JsVal) (w : World) (officer : gmap string JsVal) :
  faults w = [] →
  stored_officer (prop payload "badgeNo") (committed w) = Some officer →
  (prop officer "status" = JStr "LOCKED" →
   Auth.login ext payload w
   = (Threw (ThrownApp (unauthorized "账号已锁定，请联系管理员" None)), w)) ∧
  (prop officer "status" ≠ JStr "LOCKED" →
   Auth.bcrypt_compare ext (prop payload "password")
     (or_else (prop officer "password_hash") (JStr EmptyString)) = true →
   let user :=
     Auth.mapOfficerToUser officer (loaded_extra ext (prop officer "id")) in
   Auth.login ext payload w
   = (Returned {| Auth.token := Auth.signToken ext (Auth.tokenPayload user);
                  Auth.user := user |}, w)
   ∧ Auth.status user = prop officer "status"
   ∧ Auth.id user = prop officer "id").
Proof.
  intros Hf Hfound. split.
  - intros Hlocked. unfold Auth.login, bind.
    rewrite (findOfficerByBadgeNo_spec _ _ Hf), Hfound, Hlocked. done.
  - intros Hstatus Hok user. split; [| done].
    unfold Auth.login, bind.
    rewrite (findOfficerByBadgeNo_spec _ _ Hf), Hfound.
    assert (Hs : strict_eq (prop officer "status") (JStr "LOCKED") = false)
      by (by apply bool_decide_eq_false).
    rewrite Hs, Hok. cbn [negb].
    by rewrite (loadRolesAndPermissions_spec _ _ _ Hf).
Qed.

Lemma C10_login_checks_status_only_witness :
  ∃ session,
    Auth.login sample_externals login_payload world_with_inactive_account
    = (Returned session, world_with_inactive_account)
    ∧ Auth.isActive (Auth.user session) = false
    ∧ Auth.status (Auth.user session) = JStr "INACTIVE".
Proof.
  destruct (C10_login_checks_status_only sample_externals login_payload
              world_with_inactive_account inactive_account eq_refl)
    as [_ Hopen].
  - by vm_compute.
  - destruct Hopen as (Hlogin & _ & _); [by vm_compute | by vm_compute |].
    eexists. split; [exact Hlogin |]. split; by vm_compute.
Defined.

(** ** C7: a duplicate key and the error that the caller sees *)

(** The translator of the cases module maps the duplicate-key failure of
    the driver to Conflict. *)
Lemma handleCaseDbError_duplicate e :
  code e = Some "ER_DUP_ENTRY" →
  errorCode (handleCaseDbError (ThrownRaw e)) = CONFLICT.
Proof.
  intros Hc. unfold handleCaseDbError, has_code. cbn [code_of]. rewrite Hc.
  rewrite bool_decide_eq_true_2 by done. by destruct (_ && _).
Qed.

(** An [AppError] that reaches the [catch] clause of the cases service
    leaves it as a DB_ERROR. *)
Lemma catch_case_error_app_error {A} (e : AppError) w :
  @catch_case_error A (ThrownApp e) w
  = (Threw (ThrownApp (dbError (toString (ThrownApp e)) None)), w).
Proof. reflexivity. Qed.

(** C7 (the code departs from the claim).  When the pre-flight query of
    [register] finds no account with the badge number and the insert
    then meets the duplicate key (code ER_DUP_ENTRY), [register] throws
    the storage error DB_ERROR (500), not Conflict, although the
    translator of the cases module maps the same failure to Conflict.
    And when the pre-flight query of [createCase] finds the case number,
    the Conflict that it raises is caught by the [catch] clause of
    [createCase], which tests the property [isAppError] that no
    [AppError] has, and leaves as DB_ERROR (500) too. *)
Theorem C7_duplicate_key_ends_as_db_error (ext : Auth.Externals)
    (payload : gmap string JsVal) (w : World) (e : RawError)
    (rest : list (option RawError)) (data : CaseData) (currentUser : User) :
  (truthy (prop payload "badgeNo") && truthy (prop payload "name")
   && truthy (prop payload "password") = true →
   stored_officer (prop payload "badgeNo") (committed w) = None →
   faults w = None :: Some e :: rest →
   code e = Some "ER_DUP_ENTRY" →
   (Auth.register ext payload w).1
   = Threw (ThrownApp (dbError "注册失败，请稍后重试" None))
   ∧ committed (Auth.register ext payload w).2 = committed w
   ∧ errorCode (dbError "注册失败，请稍后重试" None) = DB_ERROR
   ∧ errorCode (handleCaseDbError (ThrownRaw e)) = CONFLICT) ∧
  (faults w = [] →
   validateCaseBusinessRules (caseForCheck data) = Returned tt →
   truthy (prop (fields data) "caseNo") = true →
   select_id_by_case_no (prop (fields data) "caseNo") None (committed w) ≠ [] →
   createCase data currentUser w
   = (Threw (ThrownApp (dbError "AppError: 案件编号已存在" None)), w)
   ∧ errorCode (dbError "AppError: 案件编号已存在" None) = DB_ERROR).
Proof.
  split.
  - intros Ht Hnone Hf Hc.
    apply andb_true_iff in Ht as [Ht Hp]. apply andb_true_iff in Ht as [Hb Hn].
    split; [| split; [| split; [done | by apply handleCaseDbError_duplicate] ] ].
    + unfold Auth.register. rewrite Hb, Hn, Hp. cbn [negb orb].
      unfold bind, Auth.findOfficerByBadgeNo, pool_query, driver.
      rewrite Hf. fold (stored_officer (prop payload "badgeNo") (committed (set_faults (Some e :: rest) w))).
      cbn [committed set_faults]. rewrite Hnone.
      unfold try_catch, pool_execute, driver. cbn [faults set_faults]. done.
    + unfold Auth.register. rewrite Hb, Hn, Hp. cbn [negb orb].
      unfold bind, Auth.findOfficerByBadgeNo, pool_query, driver.
      rewrite Hf. fold (stored_officer (prop payload "badgeNo") (committed (set_faults (Some e :: rest) w))).
      cbn [committed set_faults]. rewrite Hnone.
      unfold try_catch, pool_execute, driver. cbn [faults set_faults]. done.
  - intros Hf Hv Ht Hs. split; [| done].
    rewrite createCase_validates. unfold bind, lift. rewrite Hv.
    unfold try_catch, createCase_try, bind. rewrite Ht.
    destruct (check_case_no_spec (prop (fields data) "caseNo") None w) as (_ & _ & H).
    rewrite (H Hf Hs). apply catch_case_error_app_error.
Qed.

Lemma C7_duplicate_key_ends_as_db_error_witness :
  (Auth.register sample_externals register_payload world_racing_registration).1
  = Threw (ThrownApp (dbError "注册失败，请稍后重试" None))
  ∧ (createCase example_case officer7 world_with_case).1
    = Threw (ThrownApp (dbError "AppError: 案件编号已存在" None)).
Proof.
  destruct (C7_duplicate_key_ends_as_db_error sample_externals register_payload
              world_racing_registration duplicate_badge [] example_case officer7)
    as [Hrace _].
  destruct (C7_duplicate_key_ends_as_db_error sample_externals register_payload
              world_with_case duplicate_badge [] example_case officer7)
    as [_ Hpre].
  split.
  - apply Hrace; by vm_compute.
  - destruct Hpre as [-> _]; by vm_compute.
Defined.

(** ** C9: the response to an unclassified error *)

(** C9 (amended).  For every error that reaches [errorHandler] and is
    neither an [AppError] nor a Joi error nor a JWT error, the response
    has status 500, the code INTERNAL_ERROR, the generic message and no
    details, and the logger receives the error itself.  The response is
    the same for all such errors, so nothing of the underlying failure is
    in it.  In production the payload holds nothing else; otherwise it
    also holds [stack], the stack of the InternalError that the handler
    built. *)
Theorem C9_unclassified_error_response (isProduction : bool) (e : RawError) :
  isJoi e = false →
  raw_name e ≠ "JsonWebTokenError" →
  raw_name e ≠ "TokenExpiredError" →
  ErrorHandler.errorHandler isProduction (ThrownRaw e)
  = (internal_error_response isProduction, [("Unhandled error", [ThrownRaw e])])
  ∧ ErrorHandler.payload_stack
      (ErrorHandler.response_json (internal_error_response true)) = None.
Proof.
  intros Hjoi Hn1 Hn2. split; [| done].
  unfold ErrorHandler.errorHandler. rewrite Hjoi.
  cbn [isAppError negb ErrorHandler.name_of andb].
  apply String.eqb_neq in Hn1, Hn2. rewrite Hn1, Hn2. cbn [orb].
  unfold internal_error_response. by destruct isProduction.
Qed.

Lemma C9_unclassified_error_response_witness :
  ErrorHandler.errorHandler true (ThrownRaw type_error)
  = (internal_error_response true, [("Unhandled error", [ThrownRaw type_error])]).
Proof.
  apply (C9_unclassified_error_response true type_error); by vm_compute.
Defined.

(** C9 as stated fails outside production: the response to an
    unclassified error carries, besides the generic message, a stack
    trace, that of the InternalError built by the handler. *)
Lemma C9_stack_in_non_production_response :
  ErrorHandler.payload_stack
    (ErrorHandler.response_json
       (ErrorHandler.errorHandler false (ThrownRaw type_error)).1)
  = Some (CapturedWith "服务器内部错误").
Proof. by vm_compute. Qed.

(* ===================================================================== *)
(** * Further properties of the code *)
(* ===================================================================== *)

(** ** The permission gate *)

Lemma some_included_spec required held :
  Middleware.some_included required held = true ↔ ∃ p, p ∈ required ∧ p ∈ held.
Proof.
  unfold Middleware.some_included. rewrite existsb_exists. split.
  - intros (p & Hin & Hp). exists p. split; [by apply list_elem_of_In |].
    by apply bool_decide_eq_true in Hp.
  - intros (p & Hin & Hp). exists p. split; [by apply list_elem_of_In |].
    by apply bool_decide_eq_true.
Qed.

(** X1.  The permission gate refuses a request without a user with
    Unauthorized; it lets a user through exactly when no permission is
    required or the user holds one of the required ones, and refuses
    every other user with Forbidden; for a single required code it
    agrees with [hasPermission] of the cases service. *)
Theorem X1_permission_gate (required : Middleware.Required) (u : User) :
  Middleware.permission required None
  = Middleware.Refuse (unauthorized "未登录或登录已过期" None) ∧
  (Middleware.permission required (Some u) = Middleware.Continue (Some u)
   ↔ Middleware.as_array required = []
     ∨ ∃ p, p ∈ Middleware.as_array required ∧ p ∈ default [] (permissions u)) ∧
  (Middleware.permission required (Some u) = Middleware.Continue (Some u)
   ∨ Middleware.permission required (Some u)
     = Middleware.Refuse (forbidden "权限不足" None)) ∧
  (∀ c, Middleware.permission (Middleware.Single c) (Some u)
        = Middleware.Continue (Some u)
        ↔ hasPermission (Some u) c = true).
Proof.
  split; [done |]. split; [| split].
  - unfold Middleware.permission.
    destruct (Middleware.as_array required) as [|p ps] eqn:E.
    + cbn. split; [by left | done].
    + rewrite bool_decide_eq_true_2 by (cbn; lia). cbn [andb].
      destruct (Middleware.some_included (p :: ps) _) eqn:Hs; cbn [negb].
      * split; [| done]. intros _. right. by apply some_included_spec.
      * split; [done |]. intros [? | H]; [done |].
        apply some_included_spec in H. congruence.
  - unfold Middleware.permission. destruct (_ && _); [by right | by left].
  - intros c. unfold Middleware.permission, hasPermission. cbn [Middleware.as_array].
    rewrite bool_decide_eq_true_2 by (cbn; lia). cbn [andb].
    unfold Middleware.some_included. cbn [existsb]. rewrite orb_false_r.
    destruct (permissions u) as [ps|]; cbn [default].
    + repeat case_bool_decide; cbn; split; done.
    + rewrite bool_decide_eq_false_2 by apply not_elem_of_nil. cbn. split; done.
Qed.

(** ** The bearer token of a request *)

Lemma append_cons c (s t : string) : String c s ++ t = String c (s ++ t).
Proof. reflexivity. Qed.

Lemma append_empty (t : string) : EmptyString ++ t = t.
Proof. reflexivity. Qed.

Ltac split_simpl :=
  rewrite ?append_cons, ?append_empty;
  cbn [Middleware.split_on_space has_space].

Lemma split_on_space_nonempty s : Middleware.split_on_space s ≠ [].
Proof.
  destruct s as [|c s]; split_simpl; [done |].
  destruct (Ascii.eqb c Ascii.Space); [done |].
  by destruct (Middleware.split_on_space s).
Qed.

Lemma split_on_space_word t :
  has_space t = false → Middleware.split_on_space t = [t].
Proof.
  induction t as [|c t IH]; split_simpl; [done |].
  intros H. apply orb_false_iff in H as [Hc Ht].
  by rewrite Hc, (IH Ht).
Qed.

Lemma split_on_space_append scheme rest :
  has_space scheme = false →
  Middleware.split_on_space (scheme ++ String Ascii.Space rest)
  = scheme :: Middleware.split_on_space rest.
Proof.
  induction scheme as [|c s IH]; split_simpl.
  - done.
  - intros H. apply orb_false_iff in H as [Hc Hs].
    by rewrite Hc, (IH Hs).
Qed.

Lemma split_on_space_one s token :
  Middleware.split_on_space s = [token] → s = token ∧ has_space token = false.
Proof.
  revert token. induction s as [|c s IH]; intros token; split_simpl.
  - by intros [= <-].
  - pose proof (split_on_space_nonempty s) as Hne.
    destruct (Ascii.eqb c Ascii.Space) eqn:Ec.
    + intros [= _ H]. done.
    + destruct (Middleware.split_on_space s) as [|first others]; [done |].
      intros [= <- ->]. destruct (IH first eq_refl) as [-> Hf].
      split_simpl. by rewrite Ec.
Qed.

(** What the parts of a split say about the string. *)
Lemma split_on_space_two s scheme token :
  Middleware.split_on_space s = [scheme; token] →
  s = scheme ++ String Ascii.Space token
  ∧ has_space scheme = false ∧ has_space token = false.
Proof.
  revert scheme. induction s as [|c s IH]; intros scheme; split_simpl; [done |].
  pose proof (split_on_space_nonempty s) as Hne.
  destruct (Ascii.eqb c Ascii.Space) eqn:Ec.
  - intros [= <- Hs]. apply Ascii.eqb_eq in Ec as ->.
    destruct (split_on_space_one _ _ Hs) as [-> Ht]. by split_simpl.
  - destruct (Middleware.split_on_space s) as [|first others]; [done |].
    intros [= <- ->]. destruct (IH first eq_refl) as (-> & Hf & Ht).
    split_simpl. by rewrite Ec.
Qed.

Lemma is_bearer_no_space scheme :
  Middleware.is_bearer scheme = true → has_space scheme = false.
Proof.
  unfold Middleware.is_bearer. intros H. apply String.eqb_eq in H.
  assert (Hl : has_space (Middleware.lower_string scheme) = false)
    by (by rewrite H).
  clear H. induction scheme as [|c s IH]; [done |].
  cbn [Middleware.split_on_space has_space Middleware.lower_string] in *. apply orb_false_iff in Hl as [Hc Hs]. rewrite (IH Hs), orb_false_r.
  destruct (Ascii.eqb c Ascii.Space) eqn:E; [| done].
  apply Ascii.eqb_eq in E as ->. by vm_compute in Hc.
Qed.

(** X2.  [extractToken] reads the token back from a header made of the
    scheme Bearer in any letter case, one space and a token without a
    space; and whenever it yields a token, the header is such a scheme,
    one space and that token.  A header with another scheme, or with more
    or less than one space, yields no token. *)
Theorem X2_extractToken_round_trip (scheme token : string)
    (authorization Authorization : option string) :
  (Middleware.is_bearer scheme = true → has_space token = false →
   Middleware.extractToken (Some (scheme ++ String Ascii.Space token)) Authorization
   = Some token) ∧
  (∀ t, Middleware.extractToken authorization Authorization = Some t →
        has_space t = false
        ∧ ∃ s, Middleware.is_bearer s = true
               ∧ Middleware.authorization_header authorization Authorization
                 = s ++ String Ascii.Space t).
Proof.
  split.
  - intros Hb Ht. unfold Middleware.extractToken, Middleware.authorization_header.
    assert (Hne : String.eqb (scheme ++ String Ascii.Space token) EmptyString = false).
    { apply String.eqb_neq. by destruct scheme. }
    rewrite Hne. cbn match. rewrite Hne.
    rewrite split_on_space_append by by apply is_bearer_no_space.
    by rewrite (split_on_space_word _ Ht), Hb.
  - intros t. unfold Middleware.extractToken.
    destruct (String.eqb _ EmptyString); [done |].
    destruct (Middleware.split_on_space _) as [|s [|t' [|? ?] ] ] eqn:E; try done.
    destruct (Middleware.is_bearer s) eqn:Hb; [| done].
    intros [= ->]. destruct (split_on_space_two _ _ _ E) as (Hh & _ & Ht).
    split; [done |]. by exists s.
Qed.

Lemma X2_extractToken_round_trip_witness :
  Middleware.extractToken (Some "bearer header.claims.signature") None
  = Some "header.claims.signature".
Proof.
  apply (X2_extractToken_round_trip "bearer" "header.claims.signature" None None);
    reflexivity.
Defined.



(** ** Computations that never write *)

Lemma read_only_ret {A} (a : A) : read_only (ret a).
Proof. intros w. apply quiet_refl. Qed.

Lemma read_only_throw {A} err : read_only (@throw A err).
Proof. intros w. apply quiet_refl. Qed.

Lemma read_only_pool_query {A} (select : Tables → A) : read_only (pool_query select).
Proof. intros w. apply pool_query_spec. Qed.

Lemma read_only_bind {A B} (m : M A) (f : A → M B) :
  read_only m → (∀ a, read_only (f a)) → read_only (bind m f).
Proof.
  intros Hm Hf w. unfold bind. specialize (Hm w).
  destruct (m w) as [[a|err] w1]; cbn in *; [| done].
  eapply quiet_trans; [exact Hm | apply Hf].
Qed.

Lemma read_only_loadRolesAndPermissions ext officerId :
  read_only (Auth.loadRolesAndPermissions ext officerId).
Proof.
  unfold Auth.loadRolesAndPermissions.
  apply read_only_bind; [apply read_only_pool_query |]. intros roleRows.
  apply read_only_bind; [| intros; apply read_only_ret].
  case_bool_decide; [apply read_only_pool_query | apply read_only_ret].
Qed.

Lemma read_only_login ext payload : read_only (Auth.login ext payload).
Proof.
  unfold Auth.login.
  apply read_only_bind; [apply read_only_pool_query |]. intros [officer|].
  - destruct (strict_eq _ _); [apply read_only_throw |].
    destruct (negb _); [apply read_only_throw |].
    apply read_only_bind; [apply read_only_loadRolesAndPermissions |].
    intros; apply read_only_ret.
  - apply read_only_throw.
Qed.

(** ** Login, registration, password change and soft delete *)

(** X4.  [login] never writes, whatever the driver does.  Without driver
    failures it answers an unknown badge number and a wrong password for
    a stored account that is not locked with the same error, so the
    answer does not tell which of the two was wrong. *)
Theorem X4_login_failures_look_alike (ext : Auth.Externals)
    (payload : gmap string JsVal) (w : World) :
  quiet w (Auth.login ext payload w).2 ∧
  (faults w = [] →
   (stored_officer (prop payload "badgeNo") (committed w) = None →
    Auth.login ext payload w = (Threw bad_credentials, w)) ∧
   (∀ officer,
      stored_officer (prop payload "badgeNo") (committed w) = Some officer →
      prop officer "status" ≠ JStr "LOCKED" →
      Auth.bcrypt_compare ext (prop payload "password")
        (or_else (prop officer "password_hash") (JStr EmptyString)) = false →
      Auth.login ext payload w = (Threw bad_credentials, w))).
Proof.
  split; [apply read_only_login |]. intros Hf. split.
  - intros Hnone. unfold Auth.login, bind.
    by rewrite (findOfficerByBadgeNo_spec _ _ Hf), Hnone.
  - intros officer Hsome Hstatus Hbad. unfold Auth.login, bind.
    rewrite (findOfficerByBadgeNo_spec _ _ Hf), Hsome.
    assert (Hs : strict_eq (prop officer "status") (JStr "LOCKED") = false)
      by (by apply bool_decide_eq_false).
    by rewrite Hs, Hbad.
Qed.

Lemma X4_login_failures_look_alike_witness :
  Auth.login sample_externals
    (object [("badgeNo", JStr "P404"); ("password", JStr "secret")])
    world_with_inactive_account
  = Auth.login sample_externals
      (object [("badgeNo", JStr "P005"); ("password", JStr "guess")])
      world_with_inactive_account.
Proof.
  destruct (X4_login_failures_look_alike sample_externals
              (object [("badgeNo", JStr "P404"); ("password", JStr "secret")])
              world_with_inactive_account) as [_ H1].
  destruct (X4_login_failures_look_alike sample_externals
              (object [("badgeNo", JStr "P005"); ("password", JStr "guess")])
              world_with_inactive_account) as [_ H2].
  destruct (H1 eq_refl) as [Hunknown _]. destruct (H2 eq_refl) as [_ Hwrong].
  rewrite Hunknown by (vm_compute; reflexivity). symmetry.
  apply (Hwrong inactive_account); vm_compute; [reflexivity | discriminate | reflexivity].
Defined.

Lemma pool_execute_spec {A} (stmt : Tables → Counters → A * Tables * Counters) w :
  pending (pool_execute stmt w).2 = pending w ∧
  match (pool_execute stmt w).1 with
  | Returned a =>
      stmt (committed w) (counters w)
      = (a, committed (pool_execute stmt w).2, counters (pool_execute stmt w).2)
  | Threw _ =>
      committed (pool_execute stmt w).2 = committed w
      ∧ counters (pool_execute stmt w).2 = counters w
  end ∧
  (faults w = [] →
   pool_execute stmt w
   = (Returned (stmt (committed w) (counters w)).1.1,
      set_counters (stmt (committed w) (counters w)).2
        (set_committed (stmt (committed w) (counters w)).1.2 w))).
Proof.
  unfold pool_execute, driver.
  destruct (faults w) as [|[e|] rest] eqn:Ef; cbn;
    destruct (stmt (committed w) (counters w)) as [[a t'] c'] eqn:Es; cbn;
    rewrite ?Es; cbn; done.
Qed.

Lemma head_filter_none {A} (P : A → Prop) `{∀ x, Decision (P x)} (l : list A) :
  head (filter P l) = None → filter P l = [].
Proof. by destruct (filter P l). Qed.

Lemma registered_account_columns ext payload c :
  column (registered_account ext payload c) "badge_no" = to_sql (prop payload "badgeNo")
  ∧ prop (registered_account ext payload c) "status" = JStr "ACTIVE"
  ∧ prop (registered_account ext payload c) "is_active" = JNum 1
  ∧ prop (registered_account ext payload c) "id" = JNum (auto_police_officer c)
  ∧ prop (registered_account ext payload c) "password_hash"
    = to_sql (Auth.bcrypt_hash ext (prop payload "password")).
Proof.
  unfold registered_account. repeat split; by read_object.
Qed.

(** X5.  [register] adds exactly one account or nothing: when it returns,
    the pre-flight query had found no account with the badge number, the
    committed accounts are the former ones followed by the new account,
    which is active and not locked, the other tables are as before, and
    the user and the token carry no role and no permission; when it
    throws, for whatever reason, the committed tables are unchanged. *)
Theorem X5_register_adds_one_account (ext : Auth.Externals)
    (payload : gmap string JsVal) (w : World) :
  match (Auth.register ext payload w).1 with
  | Returned session =>
      registrable payload = true
      ∧ stored_officer (prop payload "badgeNo") (committed w) = None
      ∧ committed (Auth.register ext payload w).2
        = set_police_officers
            (police_officers (committed w)
             ++ [registered_account ext payload (counters w)]) (committed w)
      ∧ Auth.user_roles (Auth.user session) = []
      ∧ Auth.user_permissions (Auth.user session) = []
      ∧ Auth.token session
        = Auth.signToken ext (Auth.tokenPayload (Auth.user session))
      ∧ Auth.token_permissions (Auth.tokenPayload (Auth.user session)) = []
  | Threw _ => committed (Auth.register ext payload w).2 = committed w
  end.
Proof.
  unfold Auth.register, registrable.
  destruct (truthy (prop payload "badgeNo")); [| done].
  destruct (truthy (prop payload "name")); [| done].
  destruct (truthy (prop payload "password")); [| done].
  cbn [negb orb andb]. unfold bind.
  destruct (pool_query_spec (stored_officer (prop payload "badgeNo")) w)
    as ((Hc1 & Hp1 & Hn1) & Hv1 & _).
  change (Auth.findOfficerByBadgeNo (prop payload "badgeNo"))
    with (pool_query (stored_officer (prop payload "badgeNo"))).
  destruct (pool_query _ w) as [[existed|e] w1]; cbn in *; [| done].
  specialize (Hv1 existed eq_refl). subst existed.
  destruct (stored_officer _ (committed w)) eqn:Hnone; cbn; [done |].
  unfold try_catch.
  destruct (pool_execute_spec
              (Auth.insert_officer_account (prop payload "name")
                 (prop payload "badgeNo") (or_else (prop payload "phone") JNull)
                 (Auth.bcrypt_hash ext (prop payload "password"))) w1)
    as (_ & Hex & _).
  destruct (pool_execute _ w1) as [[insertId|e] w2]; cbn in *.
  - unfold Auth.insert_officer_account in Hex. injection Hex as Hid Ht Hcnt.
    repeat split; try done. by rewrite <- Ht, Hc1, Hn1.
  - destruct Hex as [Hc2 _]. congruence.
Qed.

(** Without driver failures, [login] returns for a stored account that
    is not locked and whose password matches. *)
Lemma login_accepts ext payload w officer :
  faults w = [] →
  stored_officer (prop payload "badgeNo") (committed w) = Some officer →
  prop officer "status" ≠ JStr "LOCKED" →
  Auth.bcrypt_compare ext (prop payload "password")
    (or_else (prop officer "password_hash") (JStr EmptyString)) = true →
  Auth.login ext payload w
  = (Returned
       {| Auth.token :=
            Auth.signToken ext
              (Auth.tokenPayload
                 (Auth.mapOfficerToUser officer
                    (loaded_extra ext (prop officer "id"))));
          Auth.user :=
            Auth.mapOfficerToUser officer (loaded_extra ext (prop officer "id")) |},
     w).
Proof.
  intros Hf Hfound Hstatus Hok. unfold Auth.login, bind.
  rewrite (findOfficerByBadgeNo_spec _ _ Hf), Hfound.
  assert (Hs : strict_eq (prop officer "status") (JStr "LOCKED") = false)
    by (by apply bool_decide_eq_false).
  rewrite Hs, Hok. cbn [negb].
  by rewrite (loadRolesAndPermissions_spec _ _ _ Hf).
Qed.

(** Without driver failures, [login] refuses a locked account before it
    looks at the password. *)
Lemma login_refuses_locked ext payload w officer :
  faults w = [] →
  stored_officer (prop payload "badgeNo") (committed w) = Some officer →
  prop officer "status" = JStr "LOCKED" →
  Auth.login ext payload w
  = (Threw (ThrownApp (unauthorized "账号已锁定，请联系管理员" None)), w).
Proof.
  intros Hf Hfound Hlocked. unfold Auth.login, bind.
  by rewrite (findOfficerByBadgeNo_spec _ _ Hf), Hfound, Hlocked.
Qed.

Lemma truthy_to_sql v : truthy v = true → to_sql v = v ∧ v ≠ JNull.
Proof. by destruct v. Qed.

(** Without driver failures, what [register] does for a new badge
    number. *)
Lemma register_returns ext payload w :
  faults w = [] → registrable payload = true →
  stored_officer (prop payload "badgeNo") (committed w) = None →
  ∃ session,
    Auth.register ext payload w
    = (Returned session,
       set_counters
         (set_auto_police_officer (auto_police_officer (counters w) + 1) (counters w))
         (set_committed
            (set_police_officers
               (police_officers (committed w)
                ++ [registered_account ext payload (counters w)]) (committed w)) w))
    ∧ Auth.id (Auth.user session) = JNum (auto_police_officer (counters w)).
Proof.
  intros Hf Hr Hnone. unfold registrable in Hr.
  apply andb_true_iff in Hr as [Hr Hp]. apply andb_true_iff in Hr as [Hb Hn].
  unfold Auth.register. rewrite Hb, Hn, Hp. cbn [negb orb]. unfold bind.
  rewrite (findOfficerByBadgeNo_spec _ _ Hf), Hnone. unfold try_catch.
  destruct (pool_execute_spec
              (Auth.insert_officer_account (prop payload "name")
                 (prop payload "badgeNo") (or_else (prop payload "phone") JNull)
                 (Auth.bcrypt_hash ext (prop payload "password"))) w)
    as (_ & _ & Hex).
  rewrite (Hex Hf). cbn [fst snd Auth.insert_officer_account].
  eexists. split; [reflexivity |]. cbn. by read_object.
Qed.

(** X6.  Registration and login compose: without driver failures, once
    [register] has returned for a new badge number, [login] with the
    same badge number and password returns a session for the account
    just created, provided that the password verifies against the hash
    made from it. *)
Theorem X6_register_then_login (ext : Auth.Externals)
    (payload : gmap string JsVal) (w : World) :
  faults w = [] →
  registrable payload = true →
  stored_officer (prop payload "badgeNo") (committed w) = None →
  Auth.bcrypt_compare ext (prop payload "password")
    (or_else (to_sql (Auth.bcrypt_hash ext (prop payload "password")))
       (JStr EmptyString)) = true →
  ∃ registered logged w',
    Auth.register ext payload w = (Returned registered, w')
    ∧ Auth.login ext payload w' = (Returned logged, w')
    ∧ Auth.id (Auth.user logged) = Auth.id (Auth.user registered)
    ∧ Auth.badgeNo (Auth.user logged) = prop payload "badgeNo"
    ∧ Auth.status (Auth.user logged) = JStr "ACTIVE"
    ∧ Auth.isActive (Auth.user logged) = true.
Proof.
  intros Hf Hr Hnone Hok.
  destruct (register_returns ext payload w Hf Hr Hnone) as (registered & Hreg & Hid).
  destruct (registered_account_columns ext payload (counters w))
    as (Hbadge & Hstatus & Hactive & Hrow_id & Hhash).
  assert (Htruthy : truthy (prop payload "badgeNo") = true).
  { unfold registrable in Hr. by destruct (truthy (prop payload "badgeNo")). }
  destruct (truthy_to_sql _ Htruthy) as [Hsql Hnn].
  eexists registered, _, _. split; [exact Hreg |].
  assert (Hfound :
    stored_officer (prop payload "badgeNo")
      (set_police_officers
         (police_officers (committed w)
          ++ [registered_account ext payload (counters w)]) (committed w))
    = Some (registered_account ext payload (counters w))).
  { unfold stored_officer in *. cbn [police_officers set_police_officers].
    rewrite filter_app, (head_filter_none _ _ Hnone). cbn [app].
    rewrite filter_cons_True; [done |]. rewrite Hsql in *. by split. }
  assert (Hopen : prop (registered_account ext payload (counters w)) "status"
                  ≠ JStr "LOCKED") by (rewrite Hstatus; discriminate).
  assert (Hmatch :
    Auth.bcrypt_compare ext (prop payload "password")
      (or_else (prop (registered_account ext payload (counters w)) "password_hash")
         (JStr EmptyString)) = true) by (by rewrite Hhash).
  rewrite (login_accepts ext payload _ _ (Hf : faults (set_counters _ (set_committed _ w)) = [])
             Hfound Hopen Hmatch).
  split; [reflexivity |].
  cbn [Auth.user Auth.mapOfficerToUser Auth.id Auth.badgeNo Auth.status Auth.isActive].
  rewrite Hrow_id, Hid, Hstatus, Hactive.
  repeat split; try done.
Qed.

Lemma X6_register_then_login_witness :
  ∃ registered logged w',
    Auth.register sample_externals register_payload world_with_inactive_account
    = (Returned registered, w')
    ∧ Auth.login sample_externals register_payload w' = (Returned logged, w')
    ∧ Auth.id (Auth.user logged) = Auth.id (Auth.user registered).
Proof.
  destruct (X6_register_then_login sample_externals register_payload
              world_with_inactive_account)
    as (registered & logged & w' & Hreg & Hlog & Hid & _);
    try (vm_compute; reflexivity).
  by exists registered, logged, w'.
Defined.

Lemma head_filter_map {A} (P : A → Prop) `{∀ x, Decision (P x)} (f : A → A)
    (l : list A) :
  (∀ x, P (f x) ↔ P x) →
  head (filter P (map f l)) = f <$> head (filter P l).
Proof.
  intros Hf. induction l as [|x l IH]; [done |]. cbn [map].
  destruct (decide (P x)) as [Hx | Hx].
  - rewrite (filter_cons_True P (f x)) by (by apply Hf).
    by rewrite (filter_cons_True P x).
  - rewrite (filter_cons_False P (f x)) by (by rewrite Hf).
    by rewrite (filter_cons_False P x).
Qed.

Lemma select_officer_found cols officerId t :
  Accounts.select_officer cols officerId t
  = (fun row => object (map (fun c => (c, column row c)) cols))
    <$> officer_with_id officerId t.
Proof. reflexivity. Qed.

Lemma column_insert_ne (row : gmap string JsVal) k k' v :
  k ≠ k' → column (<[k := v]> row) k' = column row k'.
Proof. intros Hne. unfold column. by rewrite lookup_insert_ne. Qed.

Lemma column_insert_eq (row : gmap string JsVal) k v :
  column (<[k := v]> row) k = v.
Proof. unfold column. by rewrite lookup_insert_eq. Qed.

(** X7.  [changePassword] replaces one hash or nothing: when it returns,
    an account with the id was stored, the old password verified
    against its stored hash, and the committed tables differ from the
    former ones only by the hash of the accounts with that id, which is
    the hash of the new password; when it throws, whatever the reason,
    the committed tables are unchanged. *)
Theorem X7_changePassword_replaces_the_hash (ext : Auth.Externals)
    (officerId : JsVal) (payload : gmap string JsVal) (w : World) :
  match (Accounts.changePassword ext officerId payload w).1 with
  | Returned _ =>
      (∃ officer,
         officer_with_id officerId (committed w) = Some officer
         ∧ Auth.bcrypt_compare ext (prop payload "oldPassword")
             (or_else (column officer "password_hash") (JStr EmptyString)) = true)
      ∧ committed (Accounts.changePassword ext officerId payload w).2
        = set_police_officers
            (with_password_hash
               (Auth.bcrypt_hash ext (prop payload "newPassword")) officerId
               (police_officers (committed w))) (committed w)
  | Threw _ =>
      committed (Accounts.changePassword ext officerId payload w).2 = committed w
  end.
Proof.
  unfold Accounts.changePassword, bind.
  destruct (pool_query_spec
              (Accounts.select_officer ["id"; "password_hash"] officerId) w)
    as ((Hc1 & Hp1 & Hn1) & Hv1 & _).
  destruct (pool_query _ w) as [[found|e] w1]; cbn in *; [| done].
  specialize (Hv1 found eq_refl). rewrite select_officer_found in Hv1.
  destruct (officer_with_id officerId (committed w)) as [officer|] eqn:Hfound;
    subst found; cbn; [| done].
  match goal with |- context [Auth.bcrypt_compare ext ?p ?h] =>
    assert (Hh : h = or_else (column officer "password_hash") (JStr EmptyString))
  end.
  { by read_object. }
  rewrite Hh. clear Hh.
  destruct (Auth.bcrypt_compare ext _ _) eqn:Hok; cbn; [| done].
  unfold try_catch.
  destruct (pool_execute_spec
              (Accounts.update_officer
                 [("password_hash", Auth.bcrypt_hash ext (prop payload "newPassword"))]
                 officerId) w1) as (_ & Hex & _).
  destruct (pool_execute _ w1) as [[[]|e] w2]; cbn in *.
  - unfold Accounts.update_officer in Hex. injection Hex as Ht Hcnt.
    split; [by exists officer |]. by rewrite <- Ht, Hc1.
  - destruct Hex as [Hc2 _]. congruence.
Qed.

Lemma stored_officer_after_update officerId badgeNo (g : gmap string JsVal → gmap string JsVal)
    (rows : list (gmap string JsVal)) :
  (∀ row, column (g row) "badge_no" = column row "badge_no") →
  head (filter (fun row => column row "badge_no" = to_sql badgeNo
                           ∧ to_sql badgeNo ≠ JNull)
          (map (fun row => if decide (Accounts.has_id officerId row)
                           then g row else row) rows))
  = (fun row => if decide (Accounts.has_id officerId row) then g row else row)
    <$> head (filter (fun row => column row "badge_no" = to_sql badgeNo
                                 ∧ to_sql badgeNo ≠ JNull) rows).
Proof.
  intros Hg. apply head_filter_map. intros row.
  destruct (decide (Accounts.has_id officerId row)); [by rewrite Hg | done].
Qed.

(** Without driver failures, what [changePassword] does for a stored
    account whose old password verifies. *)
Lemma changePassword_returns ext officerId payload w officer :
  faults w = [] →
  officer_with_id officerId (committed w) = Some officer →
  Auth.bcrypt_compare ext (prop payload "oldPassword")
    (or_else (column officer "password_hash") (JStr EmptyString)) = true →
  ∃ w',
    Accounts.changePassword ext officerId payload w = (Returned true, w')
    ∧ faults w' = []
    ∧ committed w'
      = set_police_officers
          (with_password_hash
             (Auth.bcrypt_hash ext (prop payload "newPassword")) officerId
             (police_officers (committed w))) (committed w).
Proof.
  intros Hf Hfound Hok. unfold Accounts.changePassword, bind.
  destruct (pool_query_spec
              (Accounts.select_officer ["id"; "password_hash"] officerId) w)
    as (_ & _ & Hq).
  rewrite (Hq Hf), select_officer_found, Hfound. cbn [fmap option_fmap option_map].
  match goal with |- context [Auth.bcrypt_compare ext ?p ?h] =>
    assert (Hh : h = or_else (column officer "password_hash") (JStr EmptyString))
  end.
  { by read_object. }
  rewrite Hh, Hok. clear Hh. cbn [negb]. unfold try_catch.
  destruct (pool_execute_spec
              (Accounts.update_officer
                 [("password_hash", Auth.bcrypt_hash ext (prop payload "newPassword"))]
                 officerId) w) as (_ & _ & Hex).
  rewrite (Hex Hf). eexists. split; [reflexivity |]. by split.
Qed.

(** X8.  Password change and login compose: without driver failures,
    for a stored account that is not locked, once [changePassword] has
    returned, [login] with the badge number of the account and the new
    password returns a session for it, provided that the new password
    verifies against the hash made from it; and [login] with a password
    that does not verify against that hash fails as for bad credentials. *)
Theorem X8_changePassword_then_login (ext : Auth.Externals) (officerId : JsVal)
    (payload credentials : gmap string JsVal) (w : World)
    (officer : gmap string JsVal) :
  faults w = [] →
  officer_with_id officerId (committed w) = Some officer →
  stored_officer (prop credentials "badgeNo") (committed w) = Some officer →
  prop officer "status" ≠ JStr "LOCKED" →
  Auth.bcrypt_compare ext (prop payload "oldPassword")
    (or_else (column officer "password_hash") (JStr EmptyString)) = true →
  let newHash := to_sql (Auth.bcrypt_hash ext (prop payload "newPassword")) in
  ∃ w',
    Accounts.changePassword ext officerId payload w = (Returned true, w')
    ∧ (Auth.bcrypt_compare ext (prop credentials "password")
         (or_else newHash (JStr EmptyString)) = true →
       ∃ session, Auth.login ext credentials w' = (Returned session, w')
                  ∧ Auth.id (Auth.user session) = prop officer "id")
    ∧ (Auth.bcrypt_compare ext (prop credentials "password")
         (or_else newHash (JStr EmptyString)) = false →
       Auth.login ext credentials w' = (Threw bad_credentials, w')).
Proof.
  intros Hf Hid Hbadge Hopen Hold newHash.
  destruct (changePassword_returns ext officerId payload w officer Hf Hid Hold)
    as (w' & Hchange & Hf' & Hc').
  exists w'. split; [exact Hchange |].
  assert (Hhas : Accounts.has_id officerId officer).
  { unfold officer_with_id in Hid.
    destruct (filter _ _) as [|x l] eqn:E; [done |]. injection Hid as ->.
    assert (Hin : officer ∈ filter (Accounts.has_id officerId)
                     (police_officers (committed w)))
      by (rewrite E; apply list_elem_of_here).
    by apply list_elem_of_filter in Hin as [? _]. }
  set (officer' := <["password_hash" := newHash]> officer).
  assert (Hfound' :
    stored_officer (prop credentials "badgeNo") (committed w') = Some officer').
  { rewrite Hc'. unfold stored_officer in *.
    cbn [police_officers set_police_officers]. unfold with_password_hash.
    rewrite (stored_officer_after_update officerId _
               (fun row => <["password_hash" :=
                  to_sql (Auth.bcrypt_hash ext (prop payload "newPassword"))]> row)).
    - rewrite Hbadge. cbn. by rewrite decide_True.
    - intros row. by apply column_insert_ne. }
  assert (Hopen' : prop officer' "status" ≠ JStr "LOCKED").
  { subst officer'. by rewrite prop_insert_ne. }
  assert (Hhash' : prop officer' "password_hash" = newHash).
  { subst officer'. apply prop_insert_eq. }
  split.
  - intros Hnew. eexists. split.
    + apply (login_accepts ext credentials w' officer' Hf' Hfound' Hopen').
      by rewrite Hhash'.
    + cbn. subst officer'. by rewrite prop_insert_ne.
  - intros Hnew. unfold Auth.login, bind.
    rewrite (findOfficerByBadgeNo_spec _ _ Hf'), Hfound'.
    assert (Hs : strict_eq (prop officer' "status") (JStr "LOCKED") = false)
      by (by apply bool_decide_eq_false).
    by rewrite Hs, Hhash', Hnew.
Qed.

Lemma X8_changePassword_then_login_witness :
  ∃ w' session,
    Accounts.changePassword sample_externals (JNum 5) password_change
      world_with_inactive_account = (Returned true, w')
    ∧ Auth.login sample_externals login_with_new_password w' = (Returned session, w')
    ∧ Auth.login sample_externals login_payload w' = (Threw bad_credentials, w').
Proof.
  destruct (X8_changePassword_then_login sample_externals (JNum 5) password_change
              login_with_new_password world_with_inactive_account inactive_account)
    as (w' & Hchange & Hnew & _);
    try (vm_compute; (reflexivity || discriminate)).
  destruct (X8_changePassword_then_login sample_externals (JNum 5) password_change
              login_payload world_with_inactive_account inactive_account)
    as (w'' & Hchange' & _ & Hold);
    try (vm_compute; (reflexivity || discriminate)).
  assert (w'' = w') as -> by congruence.
  destruct Hnew as (session & Hlogin & _); [vm_compute; reflexivity |].
  exists w', session. split; [done |]. split; [done |].
  apply Hold. vm_compute. reflexivity.
Defined.

Lemma with_locked_length now officerId rows :
  length (with_locked now officerId rows) = length rows.
Proof. unfold with_locked. by rewrite length_map. Qed.

(** X9.  [deleteOfficer] is a soft delete: it never removes an account;
    when it returns, an account with the id was stored and the committed
    tables differ from the former ones only in the accounts with that
    id, which are locked, inactive and stamped with the time of the
    update; when it throws, whatever the reason, the committed tables
    are unchanged. *)
Theorem X9_deleteOfficer_locks_and_keeps (now id operatorId : JsVal) (w : World) :
  length (police_officers (committed (Accounts.deleteOfficer now id operatorId w).2))
  = length (police_officers (committed w))
  ∧ match (Accounts.deleteOfficer now id operatorId w).1 with
    | Returned _ =>
        (∃ officer, officer_with_id id (committed w) = Some officer)
        ∧ committed (Accounts.deleteOfficer now id operatorId w).2
          = set_police_officers
              (with_locked now id (police_officers (committed w))) (committed w)
    | Threw _ =>
        committed (Accounts.deleteOfficer now id operatorId w).2 = committed w
    end.
Proof.
  unfold Accounts.deleteOfficer, bind.
  destruct (pool_query_spec (Accounts.select_officer ["id"] id) w)
    as ((Hc1 & Hp1 & Hn1) & Hv1 & _).
  destruct (pool_query _ w) as [[found|e] w1]; cbn in *; [| by rewrite Hc1].
  specialize (Hv1 found eq_refl). rewrite select_officer_found in Hv1.
  destruct (officer_with_id id (committed w)) as [officer|] eqn:Hfound;
    subst found; cbn; [| by rewrite Hc1].
  destruct (pool_execute_spec
              (Accounts.update_officer
                 [("status", JStr "LOCKED"); ("is_active", JNum 0);
                  ("updated_at", now)] id) w1) as (_ & Hex & _).
  destruct (pool_execute _ w1) as [[[]|e] w2]; cbn in *.
  - unfold Accounts.update_officer in Hex. injection Hex as Ht Hcnt.
    rewrite <- Ht, Hc1. cbn. split; [apply with_locked_length |].
    split; [by exists officer | done].
  - destruct Hex as [Hc2 _]. by rewrite Hc2, Hc1.
Qed.

(** Without driver failures, what [deleteOfficer] does for a stored
    account. *)
Lemma deleteOfficer_returns now id operatorId w officer :
  faults w = [] →
  officer_with_id id (committed w) = Some officer →
  ∃ w',
    Accounts.deleteOfficer now id operatorId w = (Returned true, w')
    ∧ faults w' = []
    ∧ committed w'
      = set_police_officers
          (with_locked now id (police_officers (committed w))) (committed w).
Proof.
  intros Hf Hfound. unfold Accounts.deleteOfficer, bind.
  destruct (pool_query_spec (Accounts.select_officer ["id"] id) w) as (_ & _ & Hq).
  rewrite (Hq Hf), select_officer_found, Hfound. cbn [fmap option_fmap option_map].
  destruct (pool_execute_spec
              (Accounts.update_officer
                 [("status", JStr "LOCKED"); ("is_active", JNum 0);
                  ("updated_at", now)] id) w) as (_ & _ & Hex).
  rewrite (Hex Hf). eexists. split; [reflexivity |]. by split.
Qed.

Lemma officer_with_id_has_id officerId t officer :
  officer_with_id officerId t = Some officer → Accounts.has_id officerId officer.
Proof.
  unfold officer_with_id. intros Hid.
  destruct (filter _ _) as [|x l] eqn:E; [done |]. injection Hid as ->.
  assert (Hin : officer ∈ filter (Accounts.has_id officerId) (police_officers t))
    by (rewrite E; apply list_elem_of_here).
  by apply list_elem_of_filter in Hin as [? _].
Qed.

(** X10.  A deleted officer cannot log in: without driver failures, once
    [deleteOfficer] has returned for a stored account, [login] with the
    badge number of that account is refused with the error of a locked
    account, whatever the password and whatever the status of the
    account was before; an id that no account has is refused with
    [NOT_FOUND] and nothing is written. *)
Theorem X10_deleteOfficer_then_login (ext : Auth.Externals)
    (now id operatorId : JsVal) (credentials : gmap string JsVal) (w : World) :
  faults w = [] →
  match officer_with_id id (committed w) with
  | Some officer =>
      stored_officer (prop credentials "badgeNo") (committed w) = Some officer →
      ∃ w',
        Accounts.deleteOfficer now id operatorId w = (Returned true, w')
        ∧ Auth.login ext credentials w'
          = (Threw (ThrownApp (unauthorized "账号已锁定，请联系管理员" None)), w')
  | None =>
      Accounts.deleteOfficer now id operatorId w
      = (Threw (ThrownApp (notFound "民警不存在" None)), w)
  end.
Proof.
  intros Hf. destruct (officer_with_id id (committed w)) as [officer|] eqn:Hid.
  - intros Hbadge.
    destruct (deleteOfficer_returns now id operatorId w officer Hf Hid)
      as (w' & Hdel & Hf' & Hc').
    exists w'. split; [exact Hdel |].
    pose proof (officer_with_id_has_id _ _ _ Hid) as Hhas.
    apply (login_refuses_locked ext credentials w'
             (<["updated_at" := to_sql now]>
                (<["is_active" := JNum 0]> (<["status" := JStr "LOCKED"]> officer)))
             Hf').
    + rewrite Hc'. unfold stored_officer in *.
      cbn [police_officers set_police_officers]. unfold with_locked.
      rewrite (stored_officer_after_update id _
                 (fun row => <["updated_at" := to_sql now]>
                    (<["is_active" := JNum 0]> (<["status" := JStr "LOCKED"]> row)))).
      * rewrite Hbadge. cbn. by rewrite decide_True.
      * intros row. by rewrite !column_insert_ne.
    + rewrite !prop_insert_ne by done. apply prop_insert_eq.
  - unfold Accounts.deleteOfficer, bind.
    destruct (pool_query_spec (Accounts.select_officer ["id"] id) w) as (_ & _ & Hq).
    by rewrite (Hq Hf), select_officer_found, Hid.
Qed.

Lemma X10_deleteOfficer_then_login_witness :
  ∃ w',
    Accounts.deleteOfficer (JStr "2024-05-01 08:00:00") (JNum 5) (JNum 1)
      world_with_inactive_account = (Returned true, w')
    ∧ Auth.login sample_externals login_payload w'
      = (Threw (ThrownApp (unauthorized "账号已锁定，请联系管理员" None)), w').
Proof.
  pose proof (X10_deleteOfficer_then_login sample_externals
                (JStr "2024-05-01 08:00:00") (JNum 5) (JNum 1) login_payload
                world_with_inactive_account eq_refl) as H.
  change (officer_with_id (JNum 5) (committed world_with_inactive_account))
    with (Some inactive_account) in H.
  apply H. vm_compute. reflexivity.
Defined.

Lemma read_only_getCurrentUser ext officerId :
  read_only (Accounts.getCurrentUser ext officerId).
Proof.
  unfold Accounts.getCurrentUser.
  apply read_only_bind; [apply read_only_pool_query |]. intros [row|].
  - apply read_only_bind; [apply read_only_loadRolesAndPermissions |].
    intros; apply read_only_ret.
  - apply read_only_throw.
Qed.

(** X11.  [getCurrentUser] never writes, whatever the driver does, and
    a user that it returns is a stored account: the first account with
    the id, of which it shows the id, the name, the badge number, the
    phone and the status as stored. *)
Theorem X11_getCurrentUser_shows_a_stored_account (ext : Auth.Externals)
    (officerId : JsVal) (w : World) :
  quiet w (Accounts.getCurrentUser ext officerId w).2
  ∧ ∀ user,
      (Accounts.getCurrentUser ext officerId w).1 = Returned user →
      ∃ officer,
        officer_with_id officerId (committed w) = Some officer
        ∧ Auth.id user = column officer "id"
        ∧ Auth.name user = column officer "name"
        ∧ Auth.badgeNo user = column officer "badge_no"
        ∧ Auth.phone user = column officer "phone"
        ∧ Auth.status user = column officer "status".
Proof.
  split; [apply read_only_getCurrentUser |].
  unfold Accounts.getCurrentUser, bind. intros user.
  destruct (pool_query_spec
              (Accounts.select_officer
                 ["id"; "name"; "badge_no"; "phone"; "status"; "is_active"]
                 officerId) w) as (_ & Hv & _).
  destruct (pool_query _ w) as [[found|e] w1]; cbn in *; [| done].
  specialize (Hv found eq_refl). rewrite select_officer_found in Hv.
  destruct (officer_with_id officerId (committed w)) as [officer|];
    subst found; cbn; [| done].
  destruct (Auth.loadRolesAndPermissions ext officerId w1) as [[extra|e] w2];
    cbn; [| done].
  intros [= <-]. exists officer. split; [done |].
  unfold Auth.mapOfficerToUser. cbn. repeat split; by read_object.
Qed.

Lemma X11_getCurrentUser_shows_a_stored_account_witness :
  ∃ user officer,
    (Accounts.getCurrentUser sample_externals (JNum 5)
       world_with_inactive_account).1 = Returned user
    ∧ officer_with_id (JNum 5) (committed world_with_inactive_account)
      = Some officer
    ∧ Auth.status user = column officer "status".
Proof.
  destruct (X11_getCurrentUser_shows_a_stored_account sample_externals (JNum 5)
              world_with_inactive_account) as [_ H].
  destruct (Accounts.getCurrentUser sample_externals (JNum 5)
              world_with_inactive_account).1 as [user|e] eqn:Hrun;
    [| vm_compute in Hrun; discriminate].
  destruct (H user eq_refl) as (officer & Hfound & _ & _ & _ & _ & Hstatus).
  by exists user, officer.
Defined.

(** Without driver failures, what [getCurrentUser] returns for a stored
    account. *)
Lemma getCurrentUser_returns ext officerId w officer :
  faults w = [] →
  officer_with_id officerId (committed w) = Some officer →
  Accounts.getCurrentUser ext officerId w
  = (Returned
       (Auth.mapOfficerToUser
          (object (map (fun c => (c, column officer c))
                     ["id"; "name"; "badge_no"; "phone"; "status"; "is_active"]))
          (loaded_extra ext officerId)), w).
Proof.
  intros Hf Hfound. unfold Accounts.getCurrentUser, bind.
  destruct (pool_query_spec
              (Accounts.select_officer
                 ["id"; "name"; "badge_no"; "phone"; "status"; "is_active"]
                 officerId) w) as (_ & _ & Hq).
  rewrite (Hq Hf), select_officer_found, Hfound. cbn [fmap option_fmap option_map].
  by rewrite (loadRolesAndPermissions_spec _ _ _ Hf).
Qed.

Lemma officer_with_id_after_update officerId
    (g : gmap string JsVal → gmap string JsVal) (t : Tables) :
  (∀ row, column (g row) "id" = column row "id") →
  officer_with_id officerId
    (set_police_officers
       (map (fun row => if decide (Accounts.has_id officerId row)
                        then g row else row) (police_officers t)) t)
  = g <$> officer_with_id officerId t.
Proof.
  intros Hg. unfold officer_with_id. cbn [police_officers set_police_officers].
  rewrite head_filter_map.
  - destruct (head (filter _ _)) as [officer|] eqn:E; [| done]. cbn.
    by rewrite decide_True by (by apply (officer_with_id_has_id _ t)).
  - intros row. destruct (decide (Accounts.has_id officerId row)); [| done].
    unfold Accounts.has_id. by rewrite Hg.
Qed.

(** X12.  [getCurrentUser] does not look at the lock: without driver
    failures, once [deleteOfficer] has returned for a stored account,
    [getCurrentUser] still returns that account, now with the status
    [LOCKED] and inactive, where [login] refuses it. *)
Theorem X12_getCurrentUser_serves_a_locked_account (ext : Auth.Externals)
    (now id operatorId : JsVal) (w : World) (officer : gmap string JsVal) :
  faults w = [] →
  officer_with_id id (committed w) = Some officer →
  ∃ w' user,
    Accounts.deleteOfficer now id operatorId w = (Returned true, w')
    ∧ Accounts.getCurrentUser ext id w' = (Returned user, w')
    ∧ Auth.id user = column officer "id"
    ∧ Auth.status user = JStr "LOCKED"
    ∧ Auth.isActive user = false.
Proof.
  intros Hf Hid.
  destruct (deleteOfficer_returns now id operatorId w officer Hf Hid)
    as (w' & Hdel & Hf' & Hc').
  exists w'. eexists. split; [exact Hdel |]. split.
  - apply (getCurrentUser_returns ext id w'
             (<["updated_at" := to_sql now]>
                (<["is_active" := JNum 0]> (<["status" := JStr "LOCKED"]> officer)))
             Hf').
    rewrite Hc'. unfold with_locked.
    rewrite (officer_with_id_after_update id
               (fun row => <["updated_at" := to_sql now]>
                  (<["is_active" := JNum 0]> (<["status" := JStr "LOCKED"]> row)))).
    + by rewrite Hid.
    + intros row. by rewrite !column_insert_ne.
  - unfold Auth.mapOfficerToUser.
    cbn [Auth.id Auth.status Auth.isActive map].
    repeat split; read_object;
      repeat first [rewrite column_insert_eq | rewrite column_insert_ne by done];
      done.
Qed.

Lemma X12_getCurrentUser_serves_a_locked_account_witness :
  ∃ w' user,
    Accounts.deleteOfficer (JStr "2024-05-01 08:00:00") (JNum 5) (JNum 1)
      world_with_inactive_account = (Returned true, w')
    ∧ Accounts.getCurrentUser sample_externals (JNum 5) w' = (Returned user, w')
    ∧ Auth.status user = JStr "LOCKED".
Proof.
  destruct (X12_getCurrentUser_serves_a_locked_account sample_externals
              (JStr "2024-05-01 08:00:00") (JNum 5) (JNum 1)
              world_with_inactive_account inactive_account)
    as (w' & user & Hdel & Hget & _ & Hstatus & _);
    [reflexivity | vm_compute; reflexivity |].
  by exists w', user.
Defined.

(** ** The case service: what it never does *)

Lemma catch_case_error_returned {A} (m : M A) w a :
  (try_catch m catch_case_error w).1 = Returned a → (m w).1 = Returned a.
Proof.
  destruct (catch_case_error_world m w) as [_ H].
  destruct (m w).1; rewrite H; [done | discriminate].
Qed.

Lemma updateCase_try_authorised id data u w a :
  (updateCase_try id data u w).1 = Returned a →
  ∃ existing rest,
    select_case case_aliases id (committed w) = existing :: rest
    ∧ is_main_officer existing u || hasPermission (Some u) "case:view_all" = true.
Proof.
  unfold updateCase_try, bind.
  destruct (pool_query_spec (select_case case_aliases id) w) as (_ & Hv & _).
  destruct (pool_query _ w) as [[rows|e] w1]; cbn [fst snd] in *; [| done].
  specialize (Hv rows eq_refl). subst rows.
  destruct (select_case case_aliases id (committed w)) as [|existing rest];
    [done |].
  intros Hrun. exists existing, rest. split; [done |]. revert Hrun.
  unfold authorize_owner at 1. fold (is_main_officer existing u).
  by destruct (is_main_officer existing u),
              (hasPermission (Some u) "case:view_all"); cbn.
Qed.

Lemma deleteCase_try_authorised id u w a :
  (deleteCase_try id u w).1 = Returned a →
  ∃ record rest,
    select_case delete_aliases id (committed w) = record :: rest
    ∧ is_main_officer record u || hasPermission (Some u) "case:view_all" = true
    ∧ prop record "status" = JStr "在办".
Proof.
  unfold deleteCase_try, bind. fold delete_aliases.
  destruct (pool_query_spec (select_case delete_aliases id) w) as (_ & Hv & _).
  destruct (pool_query _ w) as [[rows|e] w1]; cbn [fst snd] in *; [| done].
  specialize (Hv rows eq_refl). subst rows.
  destruct (select_case delete_aliases id (committed w)) as [|record rest];
    [done |].
  intros Hrun. exists record, rest. split; [done |]. revert Hrun.
  unfold authorize_owner at 1. fold (is_main_officer record u).
  destruct (is_main_officer record u),
           (hasPermission (Some u) "case:view_all"); cbn; try done;
    (destruct (strict_eq (prop record "status") (JStr "在办")) eqn:Hstatus;
     cbn; [| done]);
    intros _; (split; [done |]); by apply bool_decide_eq_true in Hstatus.
Qed.

(** X13.  The case service writes only for the owner: under any
    schedule of driver failures, [updateCase] and [deleteCase] change
    the committed tables only when the case is stored and the caller is
    its main officer or holds [case:view_all], and [deleteCase] moreover
    only when the stored status of the case is [在办]. *)
Theorem X13_case_writes_need_authority (w : World) (id : Z) (data : CaseData)
    (currentUser : User) :
  pending w = None →
  (committed (updateCase id data currentUser w).2 ≠ committed w →
   ∃ existingCase rest,
     select_case case_aliases id (committed w) = existingCase :: rest
     ∧ is_main_officer existingCase currentUser
       || hasPermission (Some currentUser) "case:view_all" = true) ∧
  (committed (deleteCase id currentUser w).2 ≠ committed w →
   ∃ record rest,
     select_case delete_aliases id (committed w) = record :: rest
     ∧ is_main_officer record currentUser
       || hasPermission (Some currentUser) "case:view_all" = true
     ∧ prop record "status" = JStr "在办").
Proof.
  intros Hp. split; intros Hchanged.
  - destruct (catch_case_error_world (updateCase_try id data currentUser) w)
      as [Hw _].
    destruct (updateCase_try_spec id data currentUser w Hp) as [_ Hspec].
    unfold updateCase in Hchanged. rewrite Hw in Hchanged.
    destruct (updateCase_try id data currentUser w).1 as [a|err] eqn:Hrun;
      [| done].
    by apply (updateCase_try_authorised id data currentUser w a).
  - destruct (catch_case_error_world (deleteCase_try id currentUser) w) as [Hw _].
    destruct (deleteCase_try_spec id currentUser w Hp) as [_ Hspec].
    unfold deleteCase in Hchanged. rewrite Hw in Hchanged.
    destruct (deleteCase_try id currentUser w).1 as [a|err] eqn:Hrun; [| done].
    by apply (deleteCase_try_authorised id currentUser w a).
Qed.

Lemma X13_case_writes_need_authority_witness :
  ∃ existingCase rest,
    select_case case_aliases 1 (committed world_with_case) = existingCase :: rest
    ∧ is_main_officer existingCase officer7
      || hasPermission (Some officer7) "case:view_all" = true.
Proof.
  apply (X13_case_writes_need_authority world_with_case 1 rename_only officer7);
    [reflexivity |].
  intros Hsame.
  apply (f_equal (fun t => column (default ∅ (case_records t !! 1)) "case_name"))
    in Hsame.
  vm_compute in Hsame. discriminate.
Defined.

Lemma read_only_authorize_participant id caseRow u :
  read_only (authorize_participant id caseRow u).
Proof.
  unfold authorize_participant.
  destruct (negb (hasPermission (Some u) "case:view_all")); [| apply read_only_ret].
  apply read_only_bind.
  - destruct (negb _); [| apply read_only_ret].
    apply read_only_bind; [apply read_only_pool_query |].
    intros; apply read_only_ret.
  - intros b. destruct (negb b); [apply read_only_throw | apply read_only_ret].
Qed.

Lemma read_only_getCaseDetail id u : read_only (getCaseDetail id u).
Proof.
  unfold getCaseDetail.
  apply read_only_bind; [apply read_only_pool_query |]. intros [|caseRow rest].
  - apply read_only_throw.
  - apply read_only_bind; [apply read_only_authorize_participant |]. intros _.
    apply read_only_bind; [apply read_only_pool_query |]. intros officersRows.
    apply read_only_bind; [apply read_only_pool_query |]. intros personsRows.
    apply read_only_ret.
Qed.

Lemma authorize_participant_passed id caseRow u w :
  (authorize_participant id caseRow u w).1 = Returned tt →
  hasPermission (Some u) "case:view_all"
  || is_main_officer caseRow u || participates id u (committed w) = true.
Proof.
  unfold authorize_participant, bind.
  destruct (hasPermission (Some u) "case:view_all"); cbn [negb orb]; [done |].
  fold (is_main_officer caseRow u).
  destruct (is_main_officer caseRow u); cbn [negb orb]; [done |].
  destruct (pool_query_spec (select_participation id (user_id u)) w)
    as (_ & Hv & _).
  destruct (pool_query _ w) as [[coRows|e] w1]; cbn [fst snd] in *; [| done].
  specialize (Hv coRows eq_refl). subst coRows. unfold participates, ret.
  by destruct (bool_decide _).
Qed.

(** X14.  [getCaseDetail] never writes, whatever the driver does, and
    it returns a case only to a caller who holds [case:view_all], is the
    main officer of the case or has a row among its officers; what it
    returns is the stored case with the officers and the persons whose
    rows carry its id. *)
Theorem X14_getCaseDetail_shows_only_to_participants (w : World) (id : Z)
    (currentUser : User) :
  quiet w (getCaseDetail id currentUser w).2
  ∧ ∀ detail,
      (getCaseDetail id currentUser w).1 = Returned detail →
      ∃ caseRow rest,
        select_case case_aliases id (committed w) = caseRow :: rest
        ∧ hasPermission (Some currentUser) "case:view_all"
          || is_main_officer caseRow currentUser
          || participates id currentUser (committed w) = true
        ∧ detail
          = {| detail_case := caseRow;
               detail_officers :=
                 filter (fun r => co_case_id r = id) (case_officers (committed w));
               detail_persons :=
                 filter (fun r => cp_case_id r = id) (case_persons (committed w)) |}.
Proof.
  split; [apply read_only_getCaseDetail |].
  intros detail. unfold getCaseDetail, bind.
  destruct (pool_query_spec (select_case case_aliases id) w) as (Hq1 & Hv1 & _).
  destruct (pool_query _ w) as [[rows|e] w1]; cbn [fst snd] in *; [| done].
  specialize (Hv1 rows eq_refl). subst rows.
  destruct (select_case case_aliases id (committed w)) as [|caseRow rest];
    [done |].
  pose proof (read_only_authorize_participant id caseRow currentUser w1) as Hq2.
  pose proof (authorize_participant_passed id caseRow currentUser w1) as Hpass.
  destruct (authorize_participant id caseRow currentUser w1) as [[[]|e] w2];
    cbn [fst snd] in *; [| done].
  specialize (Hpass eq_refl).
  destruct (pool_query_spec
              (fun t => filter (fun r => co_case_id r = id) (case_officers t)) w2)
    as (Hq3 & Hv3 & _).
  destruct (pool_query _ w2) as [[officersRows|e] w3]; cbn [fst snd] in *;
    [| done].
  specialize (Hv3 officersRows eq_refl). subst officersRows.
  destruct (pool_query_spec
              (fun t => filter (fun r => cp_case_id r = id) (case_persons t)) w3)
    as (Hq4 & Hv4 & _).
  destruct (pool_query _ w3) as [[personsRows|e] w4]; cbn [fst snd] in *;
    [| done].
  specialize (Hv4 personsRows eq_refl). subst personsRows.
  intros [= <-]. exists caseRow, rest. split; [done |].
  destruct Hq1 as (Hc1 & _), Hq2 as (Hc2 & _), Hq3 as (Hc3 & _).
  rewrite Hc1 in Hpass. split; [done |].
  by rewrite Hc3, Hc2, Hc1.
Qed.

Lemma X14_getCaseDetail_shows_only_to_participants_witness :
  ∃ caseRow rest,
    select_case case_aliases 1 (committed world_with_case) = caseRow :: rest
    ∧ hasPermission (Some officer7) "case:view_all"
      || is_main_officer caseRow officer7
      || participates 1 officer7 (committed world_with_case) = true.
Proof.
  destruct (X14_getCaseDetail_shows_only_to_participants world_with_case 1
              officer7) as [_ H].
  destruct (getCaseDetail 1 officer7 world_with_case).1 as [detail|e] eqn:Hrun;
    [| vm_compute in Hrun; discriminate].
  destruct (H detail eq_refl) as (caseRow & rest & Hsel & Hauth & _).
  by exists caseRow, rest.
Defined.

(** ** The case service: the errors that leave it *)

Lemma handleCaseDbError_codes err :
  errorCode (handleCaseDbError err) = CONFLICT
  ∨ errorCode (handleCaseDbError err) = VALIDATION_ERROR
  ∨ errorCode (handleCaseDbError err) = DB_ERROR.
Proof.
  unfold handleCaseDbError.
  repeat match goal with
         | |- context [if ?b then _ else _] => destruct b
         end; cbn; auto.
Qed.

Lemma handleCaseDbError_app_error e :
  handleCaseDbError (ThrownApp e) = dbError (toString (ThrownApp e)) None.
Proof. reflexivity. Qed.

Lemma validateCaseBusinessRules_code r err :
  validateCaseBusinessRules r = Threw err →
  ∃ e, err = ThrownApp e ∧ errorCode e = VALIDATION_ERROR ∧ status e = 400.
Proof.
  unfold validateCaseBusinessRules, and_then, throw_if.
  repeat match goal with
         | |- context [if ?b then _ else _] => destruct b
         end; intros [= <-]; by eexists.
Qed.

Lemma catch_case_error_threw {A} (m : M A) w err :
  (try_catch m catch_case_error w).1 = Threw err →
  ∃ cause, (m w).1 = Threw cause ∧ err = ThrownApp (handleCaseDbError cause).
Proof.
  destruct (catch_case_error_world m w) as [_ H].
  destruct (m w).1 as [a|cause]; rewrite H; [done |].
  intros [= <-]. by exists cause.
Qed.

(** X15.  The errors that leave the three writes of the case service:
    each is an [AppError] whose code is [CONFLICT], [VALIDATION_ERROR]
    or [DB_ERROR], under any schedule of driver failures; so
    [updateCase] and [deleteCase] never answer [NOT_FOUND] or
    [FORBIDDEN], though their [try] blocks throw both. *)
Theorem X15_case_write_error_codes (w : World) (id : Z) (data : CaseData)
    (currentUser : User) (err : Thrown) :
  (createCase data currentUser w).1 = Threw err
  ∨ (updateCase id data currentUser w).1 = Threw err
  ∨ (deleteCase id currentUser w).1 = Threw err →
  ∃ e, err = ThrownApp e
       ∧ (errorCode e = CONFLICT ∨ errorCode e = VALIDATION_ERROR
          ∨ errorCode e = DB_ERROR)
       ∧ errorCode e ≠ NOT_FOUND ∧ errorCode e ≠ FORBIDDEN.
Proof.
  assert (Hcodes : ∀ cause,
    ∃ e, ThrownApp (handleCaseDbError cause) = ThrownApp e
         ∧ (errorCode e = CONFLICT ∨ errorCode e = VALIDATION_ERROR
            ∨ errorCode e = DB_ERROR)
         ∧ errorCode e ≠ NOT_FOUND ∧ errorCode e ≠ FORBIDDEN).
  { intros cause. exists (handleCaseDbError cause). split; [done |].
    pose proof (handleCaseDbError_codes cause) as Hc. split; [done |].
    split; intros Heq; rewrite Heq in Hc; by destruct Hc as [|[|]]. }
  intros [Hrun | [Hrun | Hrun]].
  - rewrite createCase_validates in Hrun. unfold bind, lift in Hrun.
    destruct (validateCaseBusinessRules (caseForCheck data)) as [[]|verr] eqn:Hv.
    + apply catch_case_error_threw in Hrun as (cause & _ & ->). apply Hcodes.
    + cbn in Hrun. injection Hrun as <-.
      apply validateCaseBusinessRules_code in Hv as (e & -> & Hcode & _).
      exists e. rewrite Hcode. by repeat split; auto.
  - apply catch_case_error_threw in Hrun as (cause & _ & ->). apply Hcodes.
  - apply catch_case_error_threw in Hrun as (cause & _ & ->). apply Hcodes.
Qed.

Lemma X15_case_write_error_codes_witness :
  ∃ e, ThrownApp (dbError "AppError: 无权修改该案件" None) = ThrownApp e
       ∧ (errorCode e = CONFLICT ∨ errorCode e = VALIDATION_ERROR
          ∨ errorCode e = DB_ERROR)
       ∧ errorCode e ≠ NOT_FOUND ∧ errorCode e ≠ FORBIDDEN.
Proof.
  apply (X15_case_write_error_codes world_with_shared_case 1 rename_only officer9).
  right. left. vm_compute. reflexivity.
Defined.

Lemma updateCase_try_missing id data u w :
  faults w = [] →
  select_case case_aliases id (committed w) = [] →
  updateCase_try id data u w = (Threw (ThrownApp (notFound "案件不存在" None)), w).
Proof.
  intros Hf Hsel. unfold updateCase_try, bind.
  destruct (pool_query_spec (select_case case_aliases id) w) as (_ & _ & Hq).
  by rewrite (Hq Hf), Hsel.
Qed.

Lemma try_catch_case_error_threw {A} (m : M A) w cause :
  m w = (Threw cause, w) →
  try_catch m catch_case_error w = (Threw (ThrownApp (handleCaseDbError cause)), w).
Proof. intros H. unfold try_catch. by rewrite H. Qed.

(** X16.  What the client sees when [updateCase] meets a case that is
    not stored, or a caller who is neither its main officer nor holds
    [case:view_all]: without driver failures the error that leaves
    [updateCase] is a [DB_ERROR], nothing is written, and [errorHandler]
    answers it with the status 500 and a message made of the name of
    the error class and the text of the error swallowed. *)
Theorem X16_denied_update_answers_500 (isProduction : bool) (w : World) (id : Z)
    (data : CaseData) (currentUser : User) :
  faults w = [] →
  hasPermission (Some currentUser) "case:view_all" = false →
  let answer text :=
    ∃ err,
      updateCase id data currentUser w = (Threw err, w)
      ∧ ErrorHandler.response_status (ErrorHandler.errorHandler isProduction err).1
        = 500
      ∧ ErrorHandler.payload_errorCode
          (ErrorHandler.response_json (ErrorHandler.errorHandler isProduction err).1)
        = DB_ERROR
      ∧ ErrorHandler.payload_message
          (ErrorHandler.response_json (ErrorHandler.errorHandler isProduction err).1)
        = ("AppError: " ++ text)%string in
  match select_case case_aliases id (committed w) with
  | [] => answer "案件不存在"
  | existingCase :: _ =>
      is_main_officer existingCase currentUser = false → answer "无权修改该案件"
  end.
Proof.
  intros Hf Hadmin answer.
  destruct (select_case case_aliases id (committed w)) as [|existing rest] eqn:Hsel.
  - eexists. split.
    + apply try_catch_case_error_threw. by apply updateCase_try_missing.
    + by destruct isProduction.
  - intros Hmain. eexists. split.
    + apply try_catch_case_error_threw.
      by apply (updateCase_try_denied id data currentUser w existing rest).
    + by destruct isProduction.
Qed.

Lemma X16_denied_update_answers_500_witness :
  ∃ err,
    updateCase 1 rename_only officer9 world_with_shared_case
    = (Threw err, world_with_shared_case)
    ∧ ErrorHandler.response_status (ErrorHandler.errorHandler true err).1 = 500.
Proof.
  pose proof (X16_denied_update_answers_500 true world_with_shared_case 1
                rename_only officer9 eq_refl eq_refl) as H.
  cbv zeta in H.
  change (select_case case_aliases 1 (committed world_with_shared_case))
    with [stored_shared_case] in H.
  destruct (H eq_refl) as (err & Hrun & Hstatus & _).
  exists err. split; assumption.
Defined.

(** ** The error handler *)

(** X17.  [errorHandler] on the errors that it classifies.  An
    [AppError] goes out as it is: its status, its code, its message and
    its details, with nothing logged, and with its stack unless the
    server runs in production.  A Joi error is answered 400
    [VALIDATION_ERROR] whatever its name; an error named
    [JsonWebTokenError] or [TokenExpiredError] that is not a Joi error
    is answered 401 [UNAUTHORIZED]. *)
Theorem X17_errorHandler_classifies (isProduction : bool) :
  (∀ e : AppError,
     status e ≠ 0 → message e ≠ EmptyString →
     ErrorHandler.errorHandler isProduction (ThrownApp e)
     = ({| ErrorHandler.response_status := status e;
           ErrorHandler.response_json :=
             {| ErrorHandler.success := false;
                ErrorHandler.payload_errorCode := errorCode e;
                ErrorHandler.payload_message := message e;
                ErrorHandler.payload_details := details e;
                ErrorHandler.payload_stack :=
                  if isProduction then None else Some (stack e) |} |}, [])) ∧
  (∀ e : RawError,
     isJoi e = true →
     ∃ response,
       ErrorHandler.errorHandler isProduction (ThrownRaw e) = (response, [])
       ∧ ErrorHandler.response_status response = 400
       ∧ ErrorHandler.payload_errorCode (ErrorHandler.response_json response)
         = VALIDATION_ERROR
       ∧ ErrorHandler.payload_message (ErrorHandler.response_json response)
         = "参数校验失败") ∧
  (∀ e : RawError,
     isJoi e = false →
     raw_name e = "JsonWebTokenError" ∨ raw_name e = "TokenExpiredError" →
     ∃ response,
       ErrorHandler.errorHandler isProduction (ThrownRaw e) = (response, [])
       ∧ ErrorHandler.response_status response = 401
       ∧ ErrorHandler.payload_errorCode (ErrorHandler.response_json response)
         = UNAUTHORIZED
       ∧ ErrorHandler.payload_details (ErrorHandler.response_json response) = None).
Proof.
  repeat split.
  - intros e Hstatus Hmessage. unfold ErrorHandler.errorHandler.
    cbn [isAppError negb andb].
    apply Z.eqb_neq in Hstatus. apply String.eqb_neq in Hmessage.
    rewrite Hstatus, Hmessage. by destruct isProduction.
  - intros e Hjoi. unfold ErrorHandler.errorHandler. rewrite Hjoi.
    cbn [isAppError negb andb]. eexists. split; [reflexivity |]. by cbn.
  - intros e Hjoi Hname. unfold ErrorHandler.errorHandler. rewrite Hjoi.
    cbn [isAppError negb andb ErrorHandler.name_of].
    assert (Hjwt : String.eqb (raw_name e) "JsonWebTokenError"
                   || String.eqb (raw_name e) "TokenExpiredError" = true).
    { destruct Hname as [-> | ->]; reflexivity. }
    rewrite Hjwt. eexists. split; [reflexivity |]. by cbn.
Qed.

Lemma X17_errorHandler_classifies_witness :
  ErrorHandler.response_status
    (ErrorHandler.errorHandler true
       (ThrownApp (forbidden "无权查看该案件" None))).1 = 403.
Proof.
  destruct (X17_errorHandler_classifies true) as [Hpass _].
  rewrite (Hpass (forbidden "无权查看该案件" None)); [reflexivity | done | done].
Defined.

(** ** The case service: how its operations compose *)

Lemma select_case_stored id t cols :
  case_records t !! id = Some cols →
  select_case case_aliases id t = [case_view id cols].
Proof. intros H. unfold select_case. by rewrite H. Qed.

Lemma select_case_missing aliases id t :
  case_records t !! id = None → select_case aliases id t = [].
Proof. intros H. unfold select_case. by rewrite H. Qed.

(** Reads a column of the row that the parameters of an [INSERT] or an
    [UPDATE] of a case are bound to. *)
Ltac read_column :=
  unfold column, bound_columns, case_params, case_columns;
  cbn [zip zip_with map list_to_map foldr fst snd];
  repeat (rewrite lookup_insert_ne by discriminate);
  rewrite ?lookup_insert_eq; cbn [default].

Lemma to_sql_or_else a s : to_sql (or_else a (JStr s)) = or_else a (JStr s).
Proof. unfold or_else. by destruct a; cbn; repeat case_match. Qed.

Lemma case_view_props id r :
  let view := case_view id (bound_columns (case_params r)) in
  prop view "id" = JNum id
  ∧ prop view "caseNo" = to_sql (prop r "caseNo")
  ∧ prop view "caseName" = to_sql (prop r "caseName")
  ∧ prop view "caseTypeItemId" = to_sql (prop r "caseTypeItemId")
  ∧ prop view "mainOfficerId" = to_sql (prop r "mainOfficerId")
  ∧ prop view "receivedDate" = to_sql (prop r "receivedDate")
  ∧ prop view "status" = or_else (prop r "status") (JStr "在办").
Proof.
  unfold case_view, case_aliases. cbn [map fst snd].
  repeat split; read_object; [read_column; done ..|].
  read_column. apply to_sql_or_else.
Qed.

Lemma getCaseDetail_returns id u w caseRow rest :
  faults w = [] →
  select_case case_aliases id (committed w) = caseRow :: rest →
  hasPermission (Some u) "case:view_all"
  || is_main_officer caseRow u || participates id u (committed w) = true →
  getCaseDetail id u w =
  (Returned
     {| detail_case := caseRow;
        detail_officers :=
          filter (fun r => co_case_id r = id) (case_officers (committed w));
        detail_persons :=
          filter (fun r => cp_case_id r = id) (case_persons (committed w)) |}, w).
Proof.
  intros Hf Hs Hyes.
  destruct (hasPermission (Some u) "case:view_all") eqn:Hperm.
  - unfold getCaseDetail, bind.
    destruct (pool_query_spec (select_case case_aliases id) w) as (_ & _ & Hq).
    rewrite (Hq Hf), Hs. unfold authorize_participant. rewrite Hperm.
    cbn [negb]. unfold ret at 1.
    destruct (pool_query_spec
                (fun t => filter (fun r => co_case_id r = id) (case_officers t)) w)
      as (_ & _ & Hq3).
    destruct (pool_query_spec
                (fun t => filter (fun r => cp_case_id r = id) (case_persons t)) w)
      as (_ & _ & Hq4).
    by rewrite (Hq3 Hf), (Hq4 Hf).
  - by apply (getCaseDetail_allowed id u w caseRow rest).
Qed.

(** Without driver failures, what [createCase] does for a record that
    passes the business rules and whose case number is free. *)
Lemma createCase_runs data u w :
  pending w = None → faults w = [] →
  validateCaseBusinessRules (caseForCheck data) = Returned tt →
  (truthy (prop (fields data) "caseNo") = true →
   select_id_by_case_no (prop (fields data) "caseNo") None (committed w) = []) →
  ∃ w',
    createCase data u w = (Returned (auto_case (counters w)), w')
    ∧ pending w' = None ∧ faults w' = []
    ∧ committed w' = createCase_effect data (committed w) (counters w).
Proof.
  intros Hp Hf Hv Hfree.
  pose proof (createCase_returns data u w Hp Hf Hv Hfree) as Hret.
  pose proof (createCase_committed data u w _ Hp Hret) as [_ Hc].
  exists (createCase data u w).2.
  split; [by rewrite <- Hret; destruct (createCase data u w) |].
  split; [| split; [| exact Hc] ].
  - rewrite createCase_validates. unfold bind, lift. rewrite Hv.
    destruct (catch_case_error_world (createCase_try data) w) as [-> _].
    by apply createCase_try_spec.
  - rewrite createCase_validates. unfold bind, lift. rewrite Hv.
    destruct (catch_case_error_world (createCase_try data) w) as [-> _].
    unfold createCase_try, bind.
    set (pre := if truthy _ then _ else _).
    assert (Hpre : pre w = (Returned tt, w)).
    { subst pre. destruct (truthy _); [| done].
      by apply check_case_no_spec; [| apply Hfree]. }
    rewrite Hpre.
    destruct (withTransaction_spec _ _ (in_tx_createCase_transaction data) w Hp)
      as (_ & _ & Hfaults).
    destruct (Hfaults Hf) as [Hf' _].
    by destruct (withTransaction _ w) as [[a|e] w'].
Qed.

(** X18.  A case can be read back once it is created: without driver
    failures, when [createCase] has returned an id, [getCaseDetail] of
    that id returns to a caller who holds [case:view_all] or is the
    main officer named in the payload; the case shown carries the id,
    the fields of the payload as they were bound, and the status [在办]
    if the payload gave none; its officers are the rows written for the
    payload, after the rows that carried the id before, and so are its
    persons. *)
Theorem X18_createCase_then_getCaseDetail (w : World) (data : CaseData)
    (creator reader : User) :
  pending w = None → faults w = [] →
  validateCaseBusinessRules (caseForCheck data) = Returned tt →
  (truthy (prop (fields data) "caseNo") = true →
   select_id_by_case_no (prop (fields data) "caseNo") None (committed w) = []) →
  owns reader data →
  let newCaseId := auto_case (counters w) in
  ∃ w' detail,
    createCase data creator w = (Returned newCaseId, w')
    ∧ getCaseDetail newCaseId reader w' = (Returned detail, w')
    ∧ prop (detail_case detail) "id" = JNum newCaseId
    ∧ prop (detail_case detail) "caseNo" = to_sql (prop (fields data) "caseNo")
    ∧ prop (detail_case detail) "caseName" = to_sql (prop (fields data) "caseName")
    ∧ prop (detail_case detail) "mainOfficerId"
      = to_sql (prop (fields data) "mainOfficerId")
    ∧ prop (detail_case detail) "status"
      = or_else (prop (fields data) "status") (JStr "在办")
    ∧ detail_officers detail
      = (filter (fun r => co_case_id r = newCaseId) (case_officers (committed w))
         ++ written_officers newCaseId (auto_officer (counters w))
              (prop (fields data) "mainOfficerId") (as_list (officers data)))%list
    ∧ detail_persons detail
      = (filter (fun r => cp_case_id r = newCaseId) (case_persons (committed w))
         ++ person_rows newCaseId (auto_person (counters w))
              (as_list (persons data)))%list.
Proof.
  intros Hp Hf Hv Hfree Howns newCaseId.
  destruct (createCase_runs data creator w Hp Hf Hv Hfree)
    as (w' & Hcreate & Hp' & Hf' & Hc').
  pose proof (case_view_props newCaseId (fields data))
    as (Hid & HcaseNo & HcaseName & _ & Hmain & _ & Hstatus).
  cbv zeta in Hid, HcaseNo, HcaseName, Hmain, Hstatus.
  assert (Hsel : select_case case_aliases newCaseId (committed w')
                 = [case_view newCaseId (bound_columns (case_params (fields data)))]).
  { apply select_case_stored. rewrite Hc'. unfold createCase_effect.
    cbn [case_records set_case_records set_case_officers set_case_persons].
    apply lookup_insert_eq. }
  exists w'. eexists. split; [exact Hcreate |]. split.
  - apply (getCaseDetail_returns newCaseId reader w' _ [] Hf' Hsel).
    unfold is_main_officer. rewrite Hmain.
    destruct Howns as [-> | <-]; [done |].
    unfold strict_eq. rewrite bool_decide_eq_true_2 by done.
    by rewrite orb_true_r.
  - cbn [detail_case detail_officers detail_persons].
    rewrite Hc'. unfold createCase_effect.
    cbn [case_officers case_persons set_case_records set_case_officers
         set_case_persons].
    rewrite !filter_app.
    rewrite (filter_all (fun r => co_case_id r = newCaseId)
               (written_officers _ _ _ _)) by apply written_officers_case.
    rewrite (filter_all (fun r => cp_case_id r = newCaseId)
               (person_rows _ _ _)) by apply person_rows_case.
    by repeat split.
Qed.

Lemma X18_createCase_then_getCaseDetail_witness :
  ∃ w' detail,
    createCase example_case officer7 fresh_world = (Returned 1, w')
    ∧ getCaseDetail 1 officer7 w' = (Returned detail, w')
    ∧ prop (detail_case detail) "status" = JStr "在办".
Proof.
  destruct (X18_createCase_then_getCaseDetail fresh_world example_case
              officer7 officer7)
    as (w' & detail & Hcreate & Hread & _ & _ & _ & _ & Hstatus & _);
    [reflexivity | reflexivity | vm_compute; reflexivity
    | intros _; vm_compute; reflexivity | right; reflexivity |].
  by exists w', detail.
Defined.

(** Without driver failures, what [deleteCase] does for a stored case in
    the status [在办] and a caller who owns it. *)
Lemma deleteCase_runs id u w record rest :
  pending w = None → faults w = [] →
  select_case delete_aliases id (committed w) = record :: rest →
  is_main_officer record u || hasPermission (Some u) "case:view_all" = true →
  prop record "status" = JStr "在办" →
  ∃ w',
    deleteCase id u w = (Returned id, w')
    ∧ pending w' = None ∧ faults w' = []
    ∧ committed w' = deleteCase_effect id (committed w).
Proof.
  intros Hp Hf Hsel Hauth Hstatus. unfold delete_aliases in Hsel.
  destruct (withTransaction_spec _ _ (in_tx_delete_case id) w Hp)
    as (Hp' & Hpost & Hfaults).
  destruct (Hfaults Hf) as [Hf' [a Ha] ].
  exists (withTransaction (conn_query (delete_case id)) w).2.
  assert (Hrun : deleteCase_try id u w
                 = (Returned id, (withTransaction (conn_query (delete_case id)) w).2)).
  { unfold deleteCase_try, bind.
    destruct (pool_query_spec
                (select_case
                   [("mainOfficerId", "main_officer_id"); ("status", "status")] id) w)
      as (_ & _ & Hq).
    rewrite (Hq Hf), Hsel.
    rewrite (authorize_owner_passes record u "无权删除该案件" w Hauth).
    rewrite Hstatus. unfold strict_eq.
    rewrite bool_decide_eq_true_2 by done. cbn [negb]. unfold ret at 1.
    by destruct (withTransaction _ w) as [[[]|e] w']. }
  split; [unfold deleteCase, try_catch; by rewrite Hrun |].
  split; [done |]. split; [done |].
  rewrite Ha in Hpost. by destruct Hpost as [_ ->].
Qed.

Lemma delete_after_create data t c :
  unused_id (auto_case c) t →
  deleteCase_effect (auto_case c) (createCase_effect data t c) = t.
Proof.
  intros (Hrecord & Hofficers & Hpersons). destruct t as [records cos cps accounts].
  unfold deleteCase_effect, createCase_effect,
    set_case_persons, set_case_officers, set_case_records.
  cbn [case_records case_officers case_persons police_officers] in *.
  f_equal.
  - by apply delete_insert_id.
  - rewrite filter_app.
    rewrite (filter_all (fun r => co_case_id r ≠ auto_case c) cos) by done.
    rewrite (filter_none (fun r => co_case_id r ≠ auto_case c)
               (written_officers _ _ _ _))
      by (apply Forall_not_not, written_officers_case).
    apply app_nil_r.
  - rewrite filter_app.
    rewrite (filter_all (fun r => cp_case_id r ≠ auto_case c) cps) by done.
    rewrite (filter_none (fun r => cp_case_id r ≠ auto_case c) (person_rows _ _ _))
      by (apply Forall_not_not, person_rows_case).
    apply app_nil_r.
Qed.

(** X19.  Deleting undoes creating: without driver failures, when
    [createCase] has returned the id of a case that is in the status
    [在办] and no row carried that id before, [deleteCase] of that id by
    a caller who holds [case:view_all] or is the main officer named in
    the payload returns, and the committed tables are again the ones
    from before the case was created. *)
Theorem X19_deleteCase_undoes_createCase (w : World) (data : CaseData)
    (creator deleter : User) :
  pending w = None → faults w = [] →
  validateCaseBusinessRules (caseForCheck data) = Returned tt →
  (truthy (prop (fields data) "caseNo") = true →
   select_id_by_case_no (prop (fields data) "caseNo") None (committed w) = []) →
  or_else (prop (fields data) "status") (JStr "在办") = JStr "在办" →
  owns deleter data →
  unused_id (auto_case (counters w)) (committed w) →
  let newCaseId := auto_case (counters w) in
  ∃ w1 w2,
    createCase data creator w = (Returned newCaseId, w1)
    ∧ deleteCase newCaseId deleter w1 = (Returned newCaseId, w2)
    ∧ committed w2 = committed w.
Proof.
  intros Hp Hf Hv Hfree Hstatus Howns Hunused newCaseId.
  destruct (createCase_runs data creator w Hp Hf Hv Hfree)
    as (w1 & Hcreate & Hp1 & Hf1 & Hc1).
  set (cols := bound_columns (case_params (fields data))).
  set (record := object (("id", JNum newCaseId)
                         :: map (fun ac => (ac.1, column cols ac.2)) delete_aliases)).
  assert (Hsel : select_case delete_aliases newCaseId (committed w1) = [record]).
  { unfold select_case. rewrite Hc1. unfold createCase_effect.
    cbn [case_records set_case_records set_case_officers set_case_persons].
    by rewrite lookup_insert_eq. }
  assert (Hmain : prop record "mainOfficerId"
                  = to_sql (prop (fields data) "mainOfficerId")).
  { subst record cols. unfold delete_aliases. cbn [map fst snd].
    read_object. by read_column. }
  assert (Hstored : prop record "status" = JStr "在办").
  { subst record cols. unfold delete_aliases. cbn [map fst snd].
    read_object. read_column. by rewrite to_sql_or_else. }
  destruct (deleteCase_runs newCaseId deleter w1 record [] Hp1 Hf1 Hsel)
    as (w2 & Hdelete & _ & _ & Hc2); [| exact Hstored |].
  { unfold is_main_officer. rewrite Hmain.
    destruct Howns as [-> | <-]; [by rewrite orb_true_r |].
    unfold strict_eq. by rewrite bool_decide_eq_true_2. }
  exists w1, w2. split; [exact Hcreate |]. split; [exact Hdelete |].
  rewrite Hc2, Hc1. by apply delete_after_create.
Qed.

Lemma X19_deleteCase_undoes_createCase_witness :
  ∃ w1 w2,
    createCase example_case officer7 fresh_world = (Returned 1, w1)
    ∧ deleteCase 1 officer7 w1 = (Returned 1, w2)
    ∧ committed w2 = committed fresh_world.
Proof.
  apply (X19_deleteCase_undoes_createCase fresh_world example_case officer7 officer7);
    [reflexivity | reflexivity | vm_compute; reflexivity
    | intros _; vm_compute; reflexivity | vm_compute; reflexivity
    | right; reflexivity |].
  split; [reflexivity |]. split; constructor.
Defined.

Lemma getCaseDetail_missing id u w :
  faults w = [] →
  select_case case_aliases id (committed w) = [] →
  getCaseDetail id u w = (Threw (ThrownApp (notFound "案件不存在" None)), w).
Proof.
  intros Hf Hsel. unfold getCaseDetail, bind.
  destruct (pool_query_spec (select_case case_aliases id) w) as (_ & _ & Hq).
  by rewrite (Hq Hf), Hsel.
Qed.

(** Without driver failures, the outcome of [getCaseDetail] depends on
    the rows of the case only. *)
Lemma getCaseDetail_depends id u w w' :
  faults w = [] → faults w' = [] →
  select_case case_aliases id (committed w')
  = select_case case_aliases id (committed w) →
  select_participation id (user_id u) (committed w')
  = select_participation id (user_id u) (committed w) →
  filter (fun r => co_case_id r = id) (case_officers (committed w'))
  = filter (fun r => co_case_id r = id) (case_officers (committed w)) →
  filter (fun r => cp_case_id r = id) (case_persons (committed w'))
  = filter (fun r => cp_case_id r = id) (case_persons (committed w)) →
  (getCaseDetail id u w').1 = (getCaseDetail id u w).1.
Proof.
  intros Hf Hf' Hsel Hpart Hco Hcp.
  assert (Hparticipates :
    participates id u (committed w') = participates id u (committed w))
    by (unfold participates; by rewrite Hpart).
  destruct (select_case case_aliases id (committed w)) as [|caseRow rest] eqn:Hs.
  - by rewrite (getCaseDetail_missing id u w Hf Hs),
               (getCaseDetail_missing id u w' Hf' Hsel).
  - destruct (hasPermission (Some u) "case:view_all"
              || is_main_officer caseRow u || participates id u (committed w))
      eqn:Hauth.
    + rewrite (getCaseDetail_returns id u w caseRow rest Hf Hs Hauth).
      rewrite (getCaseDetail_returns id u w' caseRow rest Hf' Hsel)
        by (by rewrite Hparticipates).
      cbn [fst]. by rewrite Hco, Hcp.
    + apply orb_false_iff in Hauth as [Hauth Hno].
      apply orb_false_iff in Hauth as [Hperm Hmain].
      rewrite (getCaseDetail_denied id u w caseRow rest Hf Hs Hperm)
        by (by rewrite Hmain, Hno).
      by rewrite (getCaseDetail_denied id u w' caseRow rest Hf' Hsel Hperm)
        by (by rewrite Hmain, Hparticipates, Hno).
Qed.

Lemma filter_filter_implied {A} (P Q : A → Prop) `{∀ x, Decision (P x)}
    `{∀ x, Decision (Q x)} (l : list A) :
  (∀ x, P x → Q x) → filter P (filter Q l) = filter P l.
Proof.
  intros HPQ. induction l as [|x l IH]; [done |].
  destruct (decide (Q x)) as [HQ | HQ].
  - rewrite (filter_cons_True Q x) by done.
    destruct (decide (P x)) as [HP | HP].
    + rewrite !(filter_cons_True P x) by done. by rewrite IH.
    + by rewrite !(filter_cons_False P x) by done.
  - rewrite (filter_cons_False Q x) by done.
    rewrite (filter_cons_False P x) by (intros HP; by apply HQ, HPQ). done.
Qed.

(** X20.  [deleteCase] removes one case: without driver failures, once
    it has returned, [getCaseDetail] of the id answers every caller
    that the case does not exist, and [getCaseDetail] of any other id
    answers every caller as it did before. *)
Theorem X20_deleteCase_removes_one_case (w : World) (id : Z)
    (currentUser reader : User) (record : gmap string JsVal)
    (rest : list (gmap string JsVal)) :
  pending w = None → faults w = [] →
  select_case delete_aliases id (committed w) = record :: rest →
  is_main_officer record currentUser
  || hasPermission (Some currentUser) "case:view_all" = true →
  prop record "status" = JStr "在办" →
  ∃ w',
    deleteCase id currentUser w = (Returned id, w')
    ∧ getCaseDetail id reader w'
      = (Threw (ThrownApp (notFound "案件不存在" None)), w')
    ∧ ∀ other, other ≠ id →
        (getCaseDetail other reader w').1 = (getCaseDetail other reader w).1.
Proof.
  intros Hp Hf Hsel Hauth Hstatus.
  destruct (deleteCase_runs id currentUser w record rest Hp Hf Hsel Hauth Hstatus)
    as (w' & Hdelete & _ & Hf' & Hc').
  exists w'. split; [exact Hdelete |]. split.
  - apply (getCaseDetail_missing id reader w' Hf').
    apply select_case_missing. rewrite Hc'. unfold deleteCase_effect.
    cbn [case_records set_case_records set_case_officers set_case_persons].
    apply lookup_delete_eq.
  - intros other Hother.
    apply (getCaseDetail_depends other reader w w' Hf Hf'); rewrite Hc';
      unfold deleteCase_effect.
    + unfold select_case.
      cbn [case_records set_case_records set_case_officers set_case_persons].
      by rewrite lookup_delete_ne.
    + unfold select_participation.
      cbn [case_officers set_case_records set_case_officers set_case_persons].
      f_equal. apply filter_filter_implied. intros r [Hr _]. congruence.
    + cbn [case_officers set_case_records set_case_officers set_case_persons].
      apply filter_filter_implied. intros r Hr. congruence.
    + cbn [case_persons set_case_records set_case_officers set_case_persons].
      apply filter_filter_implied. intros r Hr. congruence.
Qed.

Lemma X20_deleteCase_removes_one_case_witness :
  ∃ w',
    deleteCase 1 officer7 world_with_case = (Returned 1, w')
    ∧ getCaseDetail 1 officer7 w'
      = (Threw (ThrownApp (notFound "案件不存在" None)), w').
Proof.
  destruct (X20_deleteCase_removes_one_case world_with_case 1 officer7 officer7
              (default ∅ (head (select_case delete_aliases 1
                                  (committed world_with_case)))) [])
    as (w' & Hdelete & Hread & _);
    [reflexivity | reflexivity | vm_compute; reflexivity | vm_compute; reflexivity
    | vm_compute; reflexivity |].
  exists w'. split; assumption.
Defined.

Lemma handleCaseDbError_unrecognised e :
  (∀ c, code e = Some c → c ∉ codes_of_handleCaseDbError) →
  handleCaseDbError (ThrownRaw e) = dbError (toString (ThrownRaw e)) None.
Proof.
  intros Hcode. unfold handleCaseDbError, has_code. cbn [code_of].
  assert (Hno : ∀ c, c ∈ codes_of_handleCaseDbError →
                     bool_decide (code e = Some c) = false).
  { intros c Hc. apply bool_decide_eq_false. intros Heq. by apply (Hcode c). }
  rewrite !Hno; [done | ..]; unfold codes_of_handleCaseDbError;
    repeat first [apply list_elem_of_here | apply list_elem_of_further].
Qed.

Lemma pool_query_fails {A} (select : Tables → A) w e rest :
  faults w = Some e :: rest →
  pool_query select w = (Threw (ThrownRaw e), set_faults rest w).
Proof. intros Hf. unfold pool_query, driver. by rewrite Hf. Qed.

(** X21.  The text of the driver reaches the client: when the first
    query of [updateCase] or [deleteCase] fails with an error whose
    code [handleCaseDbError] does not recognise, the error that leaves
    the service is a [DB_ERROR] whose message is the name and the
    message of the driver's error, and [errorHandler] sends that
    message with the status 500, in production too. *)
Theorem X21_driver_text_reaches_the_client (isProduction : bool) (w : World)
    (id : Z) (data : CaseData) (currentUser : User) (e : RawError)
    (rest : list (option RawError)) :
  faults w = Some e :: rest →
  (∀ c, code e = Some c → c ∉ codes_of_handleCaseDbError) →
  toString (ThrownRaw e) ≠ EmptyString →
  let err := ThrownApp (dbError (toString (ThrownRaw e)) None) in
  (updateCase id data currentUser w).1 = Threw err
  ∧ (deleteCase id currentUser w).1 = Threw err
  ∧ ErrorHandler.response_status (ErrorHandler.errorHandler isProduction err).1 = 500
  ∧ ErrorHandler.payload_message
      (ErrorHandler.response_json (ErrorHandler.errorHandler isProduction err).1)
    = toString (ThrownRaw e).
Proof.
  intros Hf Hcode Htext err. split; [| split].
  - unfold updateCase, try_catch, updateCase_try, bind.
    rewrite (pool_query_fails _ w e rest Hf). unfold catch_case_error.
    cbn [isAppError_property truthy throw fst].
    by rewrite (handleCaseDbError_unrecognised e Hcode).
  - unfold deleteCase, try_catch, deleteCase_try, bind.
    rewrite (pool_query_fails _ w e rest Hf). unfold catch_case_error.
    cbn [isAppError_property truthy throw fst].
    by rewrite (handleCaseDbError_unrecognised e Hcode).
  - subst err. unfold ErrorHandler.errorHandler.
    cbn [isAppError negb andb dbError newAppError status message errorCode
         DEFAULT_STATUS_BY_CODE Z.eqb fst ErrorHandler.response_status
         ErrorHandler.response_json ErrorHandler.payload_message].
    apply String.eqb_neq in Htext. by rewrite Htext.
Qed.

Lemma X21_driver_text_reaches_the_client_witness :
  ErrorHandler.payload_message
    (ErrorHandler.response_json
       (ErrorHandler.errorHandler true
          (ThrownApp (dbError (toString (ThrownRaw deadlock)) None))).1)
  = "Error: Deadlock found when trying to get lock"
  ∧ (updateCase 1 rename_only officer7 world_failing_at_once).1
    = Threw (ThrownApp (dbError (toString (ThrownRaw deadlock)) None)).
Proof.
  destruct (X21_driver_text_reaches_the_client true world_failing_at_once 1
              rename_only officer7 deadlock [])
    as (Hupdate & _ & _ & Hmessage).
  - reflexivity.
  - intros c [= <-]. unfold codes_of_handleCaseDbError.
    rewrite !elem_of_cons, elem_of_nil. by intros [|[|[|[|]]]].
  - by vm_compute.
  - split; [exact Hmessage | exact Hupdate].
Defined.

(** ** The transaction wrapper *)



(** ** The business rules of a case *)




(** ** The filter of the case list *)

Lemma push_true sql ps acc :
  CaseList.push true sql ps acc
  = {| CaseList.conditions := CaseList.conditions acc ++ [sql];
       CaseList.params := CaseList.params acc ++ ps |}.
Proof. reflexivity. Qed.

(** Splits the filter into the cases of its tests. *)
Ltac filter_cases :=
  unfold CaseList.listCases_where;
  repeat match goal with
         | |- context [truthy ?v] => destruct (truthy v)
         | |- context [strict_eq ?a ?b] => destruct (strict_eq a b)
         end.

(** X24.  The filter that [listCases] builds.  It has as many
    placeholders as parameters.  For a caller without [case:view_all]
    its last condition is the one of the scope [my], bound twice to the
    id of the caller, whatever scope the query asks for, and the filter
    on the main officer that the query asks for is left out.  For a
    caller with [case:view_all] the condition of the scope [my] is left
    out exactly when the query asks for the scope [all]. *)
Theorem X24_listCases_filter (query : gmap string JsVal) (currentUser : User) :
  let filter := CaseList.listCases_where query currentUser in
  count_placeholders (CaseList.whereSql filter) = length (CaseList.params filter)
  ∧ (hasPermission (Some currentUser) "case:view_all" = false →
     (∃ cs ps,
        CaseList.conditions filter = (cs ++ [CaseList.my_cases])%list
        ∧ CaseList.params filter
          = (ps ++ [CaseList.Value (user_id currentUser);
                    CaseList.Value (user_id currentUser)])%list)
     ∧ "cr.main_officer_id = ?" ∉ CaseList.conditions filter)
  ∧ (hasPermission (Some currentUser) "case:view_all" = true →
     (CaseList.my_cases ∈ CaseList.conditions filter
      ↔ prop query "scope" ≠ JStr "all")).
Proof.
  intros filter. subst filter. split; [| split].
  - destruct (hasPermission (Some currentUser) "case:view_all") eqn:Hperm;
      filter_cases; rewrite ?Hperm; vm_compute; reflexivity.
  - intros Hperm. split.
    + unfold CaseList.listCases_where. rewrite Hperm, !andb_false_r.
      cbn [String.eqb Ascii.eqb Bool.eqb]. rewrite push_true.
      eexists _, _. cbn [CaseList.conditions CaseList.params]. by split.
    + filter_cases; rewrite ?Hperm;
        apply (bool_decide_unpack _); vm_compute; exact I.
  - intros Hperm. unfold CaseList.listCases_where. rewrite Hperm.
    assert (Hscope :
      strict_eq match prop query "scope" with
                | JUndefined => JStr "my"
                | v => v
                end (JStr "all")
      = bool_decide (prop query "scope" = JStr "all")).
    { unfold strict_eq.
      destruct (prop query "scope"); repeat case_bool_decide; congruence. }
    rewrite Hscope. clear Hscope.
    case_bool_decide as Hall.
    + split; [| done]. intros Hin. exfalso. revert Hin.
      repeat match goal with
             | |- context [truthy ?v] => destruct (truthy v)
             end;
        apply (bool_decide_unpack _); vm_compute; exact I.
    + split; [done |]. intros _. cbn [andb String.eqb Ascii.eqb Bool.eqb].
      rewrite push_true. cbn [CaseList.conditions].
      apply elem_of_app. right. apply list_elem_of_here.
Qed.

Lemma X24_listCases_filter_witness :
  CaseList.conditions (CaseList.listCases_where query_for_all officer8)
  = ["cr.status = ?"; CaseList.my_cases]
  ∧ "cr.main_officer_id = ?"
    ∉ CaseList.conditions (CaseList.listCases_where query_for_all officer8).
Proof.
  split; [reflexivity |].
  apply (X24_listCases_filter query_for_all officer8). reflexivity.
Defined.

(** ** The translators of driver errors *)

Lemma has_code_spelling err c c' :
  has_code err c = true → c ≠ c' → has_code err c' = false.
Proof.
  unfold has_code. intros H Hne. apply bool_decide_eq_true in H.
  apply bool_decide_eq_false. congruence.
Qed.

(** X25.  The translators of the nine-small service keep the text of
    the driver to the log: whatever error they are given, they log it
    and throw an [AppError] without details whose message is one of
    their own eight texts, and whose code is [CONFLICT],
    [VALIDATION_ERROR] or [DB_ERROR]; they leave the tables alone. *)
Theorem X25_nineSmall_translators_hide_driver_text (err : Thrown) (w : World) :
  let shown (run : Outcome unit * World) (title : string) :=
    ∃ e, run = (Threw (ThrownApp e), add_log (title, [err]) w)
         ∧ message e ∈ texts_of_nineSmall
         ∧ details e = None
         ∧ (errorCode e = CONFLICT ∨ errorCode e = VALIDATION_ERROR
            ∨ errorCode e = DB_ERROR) in
  shown (NineSmallErrors.handlePlaceDbError err w)
    "DB error in nineSmall.place operation"
  ∧ shown (NineSmallErrors.handleInspectionDbError err w)
      "DB error in nineSmall.inspection operation".
Proof.
  intros shown. subst shown. cbv beta.
  unfold NineSmallErrors.handlePlaceDbError,
    NineSmallErrors.handleInspectionDbError, bind, logger_error, throw.
  split;
    repeat match goal with
           | |- context [if ?b then _ else _] => destruct b
           end;
    eexists; (split; [reflexivity |]); cbn [message details errorCode
      conflict validationError dbError newAppError];
    (split; [apply (bool_decide_unpack _); vm_compute; exact I |]);
    (split; [done |]); auto.
Qed.

(** X26.  The two services spell the code of a violated check
    constraint differently: an error of the driver with the code
    [ER_CHECK_CONSTRAINT_VIOLATED] is a [VALIDATION_ERROR] for
    [handleInspectionDbError] and a [DB_ERROR] that carries the text of
    the driver for [handleCaseDbError]; with the code
    [ER_CHECK_CONSTRAINT] it is the other way round. *)
Theorem X26_check_constraint_spelling (e : RawError) (w : World) :
  (code e = Some "ER_CHECK_CONSTRAINT_VIOLATED" →
   (∃ app, (@NineSmallErrors.handleInspectionDbError unit (ThrownRaw e) w).1
           = Threw (ThrownApp app)
           ∧ errorCode app = VALIDATION_ERROR)
   ∧ handleCaseDbError (ThrownRaw e) = dbError (toString (ThrownRaw e)) None) ∧
  (code e = Some "ER_CHECK_CONSTRAINT" →
   (@NineSmallErrors.handleInspectionDbError unit (ThrownRaw e) w).1
   = Threw (ThrownApp (dbError "九小场所巡查记录数据库操作失败" None))
   ∧ handleCaseDbError (ThrownRaw e)
     = validationError "案件数据不符合业务规则" (Some (RawSql (sqlMessage_of (ThrownRaw e))))).
Proof.
  split; intros Hcode.
  - split.
    + unfold NineSmallErrors.handleInspectionDbError, bind, logger_error, throw,
        has_code. cbn [code_of]. rewrite Hcode.
      rewrite bool_decide_eq_true_2 by done.
      repeat match goal with
             | |- context [if ?b then _ else _] => destruct b
             end; by eexists.
    + apply handleCaseDbError_unrecognised. intros c Hc.
      rewrite Hcode in Hc. injection Hc as <-.
      apply (bool_decide_unpack _). vm_compute. exact I.
  - unfold NineSmallErrors.handleInspectionDbError, handleCaseDbError, bind,
      logger_error, throw, has_code. cbn [code_of]. rewrite Hcode.
    by rewrite !bool_decide_eq_false_2, bool_decide_eq_true_2 by done.
Qed.

Lemma X26_check_constraint_spelling_witness :
  handleCaseDbError (ThrownRaw check_violated)
  = dbError "Error: Check constraint 'chk_case_closed' is violated." None.
Proof.
  destruct (X26_check_constraint_spelling check_violated fresh_world) as [H _].
  destruct (H eq_refl) as [_ Hcase]. exact Hcase.
Defined.

(** ** What an update keeps *)

Lemma updateCase_effect_records id merged data t c :
  case_records (updateCase_effect id merged data t c)
  = alter (fun cols => bound_columns (case_params merged) ∪ cols) id
      (case_records t).
Proof.
  unfold updateCase_effect.
  by destruct (is_defined (officers data)), (is_defined (persons data)).
Qed.

Lemma updateCase_effect_accounts id merged data t c :
  police_officers (updateCase_effect id merged data t c) = police_officers t.
Proof.
  unfold updateCase_effect.
  by destruct (is_defined (officers data)), (is_defined (persons data)).
Qed.

Lemma kept_value_truthy alias stored :
  truthy stored = true → kept_value alias stored = stored.
Proof.
  intros H. unfold kept_value, or_else. rewrite H.
  by destruct (existsb (String.eqb alias) required_aliases),
              (String.eqb alias "status"), stored.
Qed.

Lemma merged_unnamed id cols data alias col :
  (alias, col) ∈ case_aliases →
  fields data !! alias = None →
  prop (mergedCase (case_view id cols) data) alias = column cols col.
Proof.
  intros Hin Hnone. unfold prop at 1. rewrite mergedCase_lookup, Hnone.
  fold (prop (case_view id cols) alias).
  unfold case_view, case_aliases in *. cbn [map fst snd].
  each_member Hin; by read_object.
Qed.

(** The column that the parameters of the statement bind an alias
    to. *)
Lemma bound_column r alias col :
  (alias, col) ∈ case_aliases →
  bound_columns (case_params r) !! col = Some (kept_value alias (prop r alias)).
Proof.
  intros Hin. unfold case_aliases in Hin.
  unfold bound_columns, case_params, case_columns.
  cbn [zip zip_with map list_to_map foldr fst snd].
  each_member Hin;
    repeat (rewrite lookup_insert_ne by discriminate);
    rewrite lookup_insert_eq; unfold kept_value; cbn [existsb String.eqb
      Ascii.eqb Bool.eqb required_aliases orb andb];
    try reflexivity.
  by rewrite to_sql_or_else.
Qed.

(** X27.  What [updateCase] keeps of a case: under any schedule of
    driver failures, when it returns, the case is still stored; a
    column that is not among those of the statement is as before; and a
    column whose property the payload does not name holds the stored
    value if that is truthy, and otherwise [NULL], or [在办] for the
    status: a stored [0], [false] or empty string does not survive an
    update that does not mention it. *)
Theorem X27_updateCase_keeps_unnamed_fields (w : World) (id : Z) (data : CaseData)
    (currentUser : User) (cols : gmap string JsVal) :
  pending w = None →
  (updateCase id data currentUser w).1 = Returned id →
  case_records (committed w) !! id = Some cols →
  ∃ cols',
    case_records (committed (updateCase id data currentUser w).2) !! id = Some cols'
    ∧ (∀ c, c ∉ case_columns → cols' !! c = cols !! c)
    ∧ ∀ alias col,
        (alias, col) ∈ case_aliases → fields data !! alias = None →
        column cols' col = kept_value alias (column cols col)
        ∧ (truthy (column cols col) = true → column cols' col = column cols col).
Proof.
  intros Hp Hrun Hstored.
  destruct (updateCase_committed id data currentUser w Hp Hrun)
    as (existing & rest & Hsel & _ & Hc).
  rewrite (select_case_stored id _ cols Hstored) in Hsel.
  injection Hsel as <- <-.
  set (merged := mergedCase (case_view id cols) data) in *.
  exists (bound_columns (case_params merged) ∪ cols).
  split; [| split].
  - rewrite Hc, updateCase_effect_records, lookup_alter_eq. by rewrite Hstored.
  - intros c Hc'. apply lookup_union_r. apply not_elem_of_list_to_map_1.
    unfold case_params, case_columns in *.
    by cbn [zip zip_with map fmap list_fmap fst].
  - intros alias col Hin Hnone.
    assert (Hkept : column (bound_columns (case_params merged) ∪ cols) col
                    = kept_value alias (column cols col)).
    { unfold column at 1.
      rewrite (lookup_union_Some_l _ _ _ _ (bound_column merged alias col Hin)).
      cbn [default]. subst merged. by rewrite (merged_unnamed id cols data alias col). }
    split; [exact Hkept |]. intros Htruthy.
    by rewrite Hkept, kept_value_truthy.
Qed.

Lemma X27_updateCase_keeps_unnamed_fields_witness :
  ∃ cols',
    case_records (committed (updateCase 1 empty_patch officer7 world_with_case).2)
      !! 1 = Some cols'
    ∧ column cols' "case_no" = JStr "C-001"
    ∧ column cols' "description" = JNull.
Proof.
  destruct (X27_updateCase_keeps_unnamed_fields world_with_case 1 empty_patch
              officer7 (default ∅ (case_records (committed world_with_case) !! 1)))
    as (cols' & Hstored & _ & Hkept);
    [reflexivity | vm_compute; reflexivity | vm_compute; reflexivity |].
  exists cols'. split; [exact Hstored |]. split.
  - destruct (Hkept "caseNo" "case_no") as [-> _];
      [apply (bool_decide_unpack _); vm_compute; exact I | reflexivity |].
    vm_compute. reflexivity.
  - destruct (Hkept "description" "description") as [-> _];
      [apply (bool_decide_unpack _); vm_compute; exact I | reflexivity |].
    vm_compute. reflexivity.
Defined.

(** X28.  The writes of the case service keep to their case: under any
    schedule of driver failures [createCase], [updateCase] and
    [deleteCase] leave the accounts as they are, and the stored record
    of every case other than the one they create, update or delete. *)
Theorem X28_case_writes_keep_to_their_case (w : World) (id : Z) (data : CaseData)
    (currentUser : User) :
  pending w = None →
  let untouched (after : Tables) (target : Z) :=
    police_officers after = police_officers (committed w)
    ∧ ∀ other, other ≠ target →
        case_records after !! other = case_records (committed w) !! other in
  untouched (committed (createCase data currentUser w).2) (auto_case (counters w))
  ∧ untouched (committed (updateCase id data currentUser w).2) id
  ∧ untouched (committed (deleteCase id currentUser w).2) id.
Proof.
  intros Hp untouched. subst untouched. cbv beta. split; [| split].
  - rewrite createCase_validates. unfold bind, lift.
    destruct (validateCaseBusinessRules (caseForCheck data)) as [[]|e];
      cbn [fst snd]; [| done].
    destruct (catch_case_error_world (createCase_try data) w) as [-> _].
    destruct (createCase_try_spec data w Hp) as [_ Hspec].
    destruct (createCase_try data w).1; [| by rewrite Hspec].
    destruct Hspec as [_ ->]. unfold createCase_effect.
    cbn [police_officers case_records set_case_records set_case_officers
         set_case_persons].
    split; [done |]. intros other Hother. by rewrite lookup_insert_ne.
  - unfold updateCase.
    destruct (catch_case_error_world (updateCase_try id data currentUser) w)
      as [-> _].
    destruct (updateCase_try_spec id data currentUser w Hp) as [_ Hspec].
    destruct (updateCase_try id data currentUser w).1; [| by rewrite Hspec].
    destruct Hspec as (_ & existing & rest & _ & _ & ->).
    rewrite updateCase_effect_accounts, updateCase_effect_records.
    split; [done |]. intros other Hother. by rewrite lookup_alter_ne.
  - unfold deleteCase.
    destruct (catch_case_error_world (deleteCase_try id currentUser) w) as [-> _].
    destruct (deleteCase_try_spec id currentUser w Hp) as [_ Hspec].
    destruct (deleteCase_try id currentUser w).1; [| by rewrite Hspec].
    destruct Hspec as [_ ->]. unfold deleteCase_effect.
    cbn [police_officers case_records set_case_records set_case_officers
         set_case_persons].
    split; [done |]. intros other Hother. by rewrite lookup_delete_ne.
Qed.

Lemma X28_case_writes_keep_to_their_case_witness :
  police_officers
    (committed (deleteCase 1 officer7 world_with_case).2)
  = police_officers (committed world_with_case).
Proof.
  by destruct (X28_case_writes_keep_to_their_case world_with_case 1 rename_only
                 officer7 eq_refl) as (_ & _ & [H _]).
Defined.

(** ** The translator of errors.js *)

#[local] Set Warnings "-clear-no-such-hyp".

(** X29.  [fromMysqlError] sorts an error of the driver by its code
    alone: without a code it is an [INTERNAL_ERROR] that is not
    operational, with the code [ER_DUP_ENTRY] a [CONFLICT], with any
    other code a [DB_ERROR]; the status is the one of the table; the
    message is the default message of the caller if there is one, so
    the text of the driver is in the details only. *)
Theorem X29_fromMysqlError_classifies (err : option RawError)
    (defaultMessage : option string) :
  let e := fromMysqlError err defaultMessage in
  let coded c := ∃ r, err = Some r ∧ code r = Some c ∧ c ≠ EmptyString in
  (errorCode e = CONFLICT ↔ coded "ER_DUP_ENTRY")
  ∧ (errorCode e = DB_ERROR ↔ ∃ c, coded c ∧ c ≠ "ER_DUP_ENTRY")
  ∧ (errorCode e = INTERNAL_ERROR ↔ ¬ ∃ c, coded c)
  ∧ (errorCode e = CONFLICT ∨ errorCode e = DB_ERROR
     ∨ errorCode e = INTERNAL_ERROR)
  ∧ isOperational e = negb (bool_decide (errorCode e = INTERNAL_ERROR))
  ∧ status e = DEFAULT_STATUS_BY_CODE (errorCode e)
  ∧ (∀ s, defaultMessage = Some s → s ≠ EmptyString → message e = s)
  ∧ (∀ r c, err = Some r → code r = Some c → c ≠ EmptyString →
       details e = Some (OriginalMessage (raw_message r))).
Proof.
  intros e coded. subst e coded. cbv beta. unfold fromMysqlError.
  assert (Hmessage : ∀ s fallback,
            defaultMessage = Some s → s ≠ EmptyString →
            or_message defaultMessage fallback = s).
  { intros s fallback -> Hs. unfold or_message.
    apply String.eqb_neq in Hs. by rewrite Hs. }
  destruct err as [r|].
  - destruct (code r) as [c|] eqn:Hcode.
    + destruct c as [|a c'].
      * repeat split; naive_solver.
      * destruct (String.eqb_spec (String a c') "ER_DUP_ENTRY") as [Heq | Hne];
          repeat split; naive_solver.
    + repeat split; naive_solver.
  - repeat split; naive_solver.
Qed.

Lemma X29_fromMysqlError_classifies_witness :
  message (fromMysqlError (Some deadlock) (Some "更新失败")) = "更新失败"
  ∧ details (fromMysqlError (Some deadlock) (Some "更新失败"))
    = Some (OriginalMessage "Deadlock found when trying to get lock").
Proof.
  destruct (X29_fromMysqlError_classifies (Some deadlock) (Some "更新失败"))
    as (_ & _ & _ & _ & _ & _ & Hmessage & Hdetails).
  split.
  - by apply Hmessage.
  - by apply (Hdetails deadlock "ER_LOCK_DEADLOCK").
Defined.

(** ** The routes of the cases *)

Lemma held_permission u p :
  p ∈ default [] (permissions u) → hasPermission (Some u) p = true.
Proof.
  unfold hasPermission. destruct (permissions u) as [ps|]; cbn [default].
  - intros H. by apply bool_decide_eq_true.
  - intros H. by apply elem_of_nil in H.
Qed.

(** X30.  What stands in front of the controllers of the cases.  A
    request reaches the controller of a route only with a bearer token
    that [verifyToken] accepts and whose user holds one of the
    permissions of the route; every refusal is [UNAUTHORIZED] or
    [FORBIDDEN]; and a verified user without [case:create] is refused
    on the routes that update and delete, whatever else they hold. *)
Theorem X30_case_routes_guard (verifyToken : string → option User)
    (r : CaseRoutes.Route) (authorization Authorization : option string) :
  (∀ user,
     CaseRoutes.guard verifyToken r authorization Authorization
     = Middleware.Continue user →
     ∃ token u,
       Middleware.extractToken authorization Authorization = Some token
       ∧ verifyToken token = Some u ∧ user = Some u
       ∧ ∃ p, p ∈ Middleware.as_array (CaseRoutes.required r)
              ∧ hasPermission (Some u) p = true) ∧
  (∀ err,
     CaseRoutes.guard verifyToken r authorization Authorization
     = Middleware.Refuse err →
     errorCode err = UNAUTHORIZED ∨ errorCode err = FORBIDDEN) ∧
  (∀ token u,
     Middleware.extractToken authorization Authorization = Some token →
     verifyToken token = Some u →
     hasPermission (Some u) "case:create" = false →
     r = CaseRoutes.UpdateCase ∨ r = CaseRoutes.DeleteCase →
     ∃ err,
       CaseRoutes.guard verifyToken r authorization Authorization
       = Middleware.Refuse err
       ∧ (token = EmptyString → errorCode err = UNAUTHORIZED)
       ∧ (token ≠ EmptyString → err = forbidden "权限不足" None)).
Proof.
  assert (Hgate : ∀ u,
    Middleware.permission (CaseRoutes.required r) (Some u)
    = if Middleware.some_included (Middleware.as_array (CaseRoutes.required r))
           (default [] (permissions u))
      then Middleware.Continue (Some u)
      else Middleware.Refuse (forbidden "权限不足" None)).
  { intros u. unfold Middleware.permission.
    rewrite bool_decide_eq_true_2 by (destruct r; cbn; lia). cbn [andb].
    by destruct (Middleware.some_included _ _). }
  unfold CaseRoutes.guard, Middleware.auth.
  destruct (Middleware.extractToken authorization Authorization) as [token|];
    [destruct (String.eqb token EmptyString) eqn:Hempty;
     [| destruct (verifyToken token) as [u|] eqn:Hverify] |];
    cbn [negb]; rewrite ?Hgate.
  - apply String.eqb_eq in Hempty. subst token.
    repeat split; [done | intros err [= <-]; by left |].
    intros token u [= <-] _ _ _. eexists. by split.
  - destruct (Middleware.some_included _ _) eqn:Hs.
    + apply some_included_spec in Hs as (p & Hin & Hheld).
      apply held_permission in Hheld. repeat split; [| done |].
      * intros user [= <-]. exists token, u. repeat split; [done .. |].
        by exists p.
      * intros token' u' [= <-] [= <-] Hno [-> | ->];
          cbn [CaseRoutes.required Middleware.as_array] in Hin;
          apply list_elem_of_singleton in Hin; subst p; congruence.
    + repeat split; [done | intros err [= <-]; by right |].
      intros token' u' [= <-] _ _ _. eexists. split; [done |].
      apply String.eqb_neq in Hempty.
      split; [intros ?; contradiction | intros _; reflexivity].
  - repeat split; [done | intros err [= <-]; by left |].
    intros token' u' [= <-] Hv. congruence.
  - repeat split; [done | intros err [= <-]; by left | done].
Qed.

Lemma X30_case_routes_guard_witness :
  ∃ token u,
    Middleware.extractToken (Some "Bearer header.claims.signature") None
    = Some token
    ∧ sample_verifyToken token = Some u ∧ Some officer7 = Some u
    ∧ ∃ p, p ∈ Middleware.as_array (CaseRoutes.required CaseRoutes.UpdateCase)
           ∧ hasPermission (Some u) p = true.
Proof.
  destruct (X30_case_routes_guard sample_verifyToken CaseRoutes.UpdateCase
              (Some "Bearer header.claims.signature") None) as [H _].
  apply H. reflexivity.
Defined.
